(** * RP2040 ADC calibrator: a shallow embedding of the calibration engine

    The sketch [adc_calibration_sd.ino] and the companion loader
    [ADCProfile.hpp] are embedded as Rocq functions over their global
    variables.  Unsigned C integers are [Z] with the wrap-around written
    out, the [double] and [float] arithmetic of the LUT builder and of the
    boundary smoother is IEEE 754 arithmetic as specified by
    [SpecFloat] (round to nearest even, binary64 and binary32), arrays are
    lists read and written by index, and a floating value is converted to
    [int16_t] the way the compiled sketch does it: to [int] first, then
    narrowed to 16 bits.  A read outside an array or a division by zero
    makes the enclosing function return [None]. *)

From Stdlib Require Import ZArith Lia Bool.
From Stdlib.Strings Require Import String Ascii Byte.
From Stdlib Require Import Floats.SpecFloat.
From Stdlib Require DecimalString.
From stdpp Require Import base option list strings gmap.

Open Scope Z_scope.

(** ** Machine integers *)

Definition wrap_uint32 (z : Z) : Z := z mod 2 ^ 32.
Definition wrap_uint64 (z : Z) : Z := z mod 2 ^ 64.
Definition wrap_uint16 (z : Z) : Z := z mod 2 ^ 16.

(** Conversion of an [int] to [int16_t] as gcc defines it: reduction modulo
    2^16 into [-32768, 32767]. *)
Definition wrap_int16 (z : Z) : Z := (z + 32768) mod 65536 - 32768.

Definition in_int16 (z : Z) : Prop := -32768 <= z <= 32767.
Definition in_uint16 (z : Z) : Prop := 0 <= z < 2 ^ 16.
Definition in_uint32 (z : Z) : Prop := 0 <= z < 2 ^ 32.

(** ** Arrays

    A C array is a list; [aget] reads an element and [aset] writes one.  Every
    index the sketch uses is within bounds, which the proofs establish from
    the length of the list. *)

Definition aget (a : list Z) (i : Z) : Z := default 0 (a !! Z.to_nat i).
Definition aset (a : list Z) (i : Z) (v : Z) : list Z := <[Z.to_nat i := v]> a.

(** [for (i = start; ...; i += step)] with a body that does not assign [i]
    and a trip count [n] known on entry. *)
Fixpoint for_loop {S : Type} (n : nat) (i step : Z) (body : Z -> S -> S) (s : S) : S :=
  match n with
  | O => s
  | S n' => for_loop n' (i + step) step body (body i s)
  end.

(** The same loop with a body that can fail. *)
Fixpoint for_loop_opt {S : Type} (n : nat) (i step : Z)
    (body : Z -> S -> option S) (s : S) : option S :=
  match n with
  | O => Some s
  | S n' => match body i s with
            | Some s' => for_loop_opt n' (i + step) step body s'
            | None => None
            end
  end.

(** The body of a loop that stores [f i] at index [i]. *)
Definition write_at (f : Z -> Z) (i : Z) (a : list Z) : list Z := aset a i (f i).

(** ** Floating point

    [double] is binary64 and [float] is binary32. *)

Module F64.
Definition prec : Z := 53.
Definition emax : Z := 1024.
Definition of_Z (z : Z) : spec_float := binary_normalize prec emax z 0 false.
Definition add : spec_float -> spec_float -> spec_float := SFadd prec emax.
Definition div : spec_float -> spec_float -> spec_float := SFdiv prec emax.
Definition two : spec_float := of_Z 2.

(** C's [round]: to the nearest integer, halfway cases away from zero. *)
Definition round (x : spec_float) : spec_float :=
  match x with
  | S754_finite s m (Zneg p) =>
      let q := Zpos m / 2 ^ Zpos p in
      let r := Zpos m mod 2 ^ Zpos p in
      let a := if 2 * r >=? 2 ^ Zpos p then q + 1 else q in
      binary_normalize prec emax (if s then - a else a) 0 s
  | _ => x
  end.
End F64.

Module F32.
Definition prec : Z := 24.
Definition emax : Z := 128.
Definition of_Z (z : Z) : spec_float := binary_normalize prec emax z 0 false.
Definition mul : spec_float -> spec_float -> spec_float := SFmul prec emax.
Definition div : spec_float -> spec_float -> spec_float := SFdiv prec emax.
End F32.

(** The integral part of a finite float (truncation toward zero). *)
Definition float_trunc (x : spec_float) : option Z :=
  match x with
  | S754_zero _ => Some 0
  | S754_finite s m e =>
      let a := match e with
               | Z0 => Zpos m
               | Zpos p => Zpos m * 2 ^ Zpos p
               | Zneg p => Zpos m / 2 ^ Zpos p
               end in
      Some (if s then - a else a)
  | S754_infinity _ | S754_nan => None
  end.

Definition INT_MIN : Z := - 2 ^ 31.
Definition INT_MAX : Z := 2 ^ 31 - 1.

(** The conversion of a floating [x] to [int] as the RP2040 runtime
    performs it ([__aeabi_f2iz], [__aeabi_d2iz]): the integral part, kept
    within the range of [int]; an infinity gives the bound of its sign and a
    NaN gives 0, as the helpers of libgcc do. *)
Definition float_to_int (x : spec_float) : Z :=
  match float_trunc x with
  | Some z => Z.max INT_MIN (Z.min INT_MAX z)
  | None =>
      match x with
      | S754_infinity true => INT_MIN
      | S754_infinity false => INT_MAX
      | _ => 0
      end
  end.

(** [(int16_t)x] for a floating [x], as the compiled sketch computes it:
    the conversion to [int] followed by the narrowing to 16 bits.  When the
    integral part of [x] is a value of [int16_t], which is where the C
    standard defines the cast, this is the integral part (see
    [float_to_int16_in_range]). *)
Definition float_to_int16 (x : spec_float) : Z := wrap_int16 (float_to_int x).

(** ** Calibration data structures *)

Record CalibrationData := mkCalibrationData {
  magic : Z;               (* uint32_t *)
  correction : list Z;     (* int16_t correction[4096] *)
  adc_min : Z;             (* uint16_t *)
  adc_max : Z              (* uint16_t *)
}.

Definition CAL_MAGIC : Z := 0xCA11B8ED.

(** The values a [CalibrationData] object can hold. *)
Record cal_wf (c : CalibrationData) : Prop := mk_cal_wf {
  wf_magic : in_uint32 (magic c);
  wf_len : length (correction c) = 4096%nat;
  wf_corr : Forall in_int16 (correction c);
  wf_min : in_uint16 (adc_min c);
  wf_max : in_uint16 (adc_max c)
}.

(** The zero-initialised static object. *)
Definition cal_zero : CalibrationData :=
  mkCalibrationData 0 (replicate 4096 0) 0 0.

(** ** Build correction LUT from histogram *)

(** [while (code_min < 4095 && histogram[code_min] == 0) code_min++;] *)
Fixpoint scan_code_min (fuel : nat) (histogram : list Z) (code_min : Z) : Z :=
  match fuel with
  | O => code_min
  | S fuel' =>
      if (code_min <? 4095) && (aget histogram code_min =? 0)
      then scan_code_min fuel' histogram (wrap_uint16 (code_min + 1))
      else code_min
  end.

(** [while (code_max > 0 && histogram[code_max] == 0) code_max--;] *)
Fixpoint scan_code_max (fuel : nat) (histogram : list Z) (code_max : Z) : Z :=
  match fuel with
  | O => code_max
  | S fuel' =>
      if (code_max >? 0) && (aget histogram code_max =? 0)
      then scan_code_max fuel' histogram (wrap_uint16 (code_max - 1))
      else code_max
  end.

(** Both scans move one code per iteration inside 0..4095, so 4096
    iterations are more than either can make (see [scan_code_min_exit] and
    [scan_code_max_exit]). *)
Definition find_code_min (histogram : list Z) : Z := scan_code_min 4096 histogram 0.
Definition find_code_max (histogram : list Z) : Z := scan_code_max 4096 histogram 4095.

(** One iteration of the loop that fills [cal_data.correction]; the state is
    the running [cumulative] and the table. *)
Definition lut_step (histogram : list Z) (code_min code_max : Z)
    (expected_per_code : spec_float) (i : Z) (st : spec_float * list Z)
    : spec_float * list Z :=
  let '(cumulative, corr) := st in
  if i <? code_min then
    (cumulative, aset corr i 0)
  else if i >? code_max then
    (cumulative, aset corr i (aget corr code_max))
  else
    let cumulative := F64.add cumulative (F64.div (F64.of_Z (aget histogram i)) F64.two) in
    let ideal_code := F64.add (F64.of_Z code_min) (F64.div cumulative expected_per_code) in
    let corr := aset corr i (wrap_int16 (float_to_int16 (F64.round ideal_code) - i)) in
    let cumulative := F64.add cumulative (F64.div (F64.of_Z (aget histogram i)) F64.two) in
    (cumulative, corr).

(** [build_correction_lut]: reads [histogram], writes [cal_data].  The
    statistics loop and the [Serial] output change no variable and are left
    out. *)
Definition build_correction_lut (histogram : list Z) (cal_data : CalibrationData)
    : CalibrationData :=
  let code_min := find_code_min histogram in
  let code_max := find_code_max histogram in
  let total_samples :=
    for_loop (Z.to_nat (code_max - code_min + 1)) code_min 1
      (fun i total => wrap_uint64 (total + aget histogram i)) 0 in
  let expected_per_code :=
    F64.div (F64.of_Z total_samples) (F64.of_Z (code_max - code_min + 1)) in
  let filled :=
    for_loop 4096 0 1
      (lut_step histogram code_min code_max expected_per_code)
      (F64.of_Z 0, correction cal_data) in
  mkCalibrationData CAL_MAGIC (snd filled) code_min code_max.

(** What the table looks like after the entries below [k] have been
    written. *)
Definition lut_edges (code_min code_max k : Z) (corr : list Z) : Prop :=
  length corr = 4096%nat
  /\ (forall j, 0 <= j < k -> j < code_min -> aget corr j = 0)
  /\ (forall j, 0 <= j < k -> code_max < j -> aget corr j = aget corr code_max).

(** The histogram of a run that observed no code. *)
Definition zero_histogram : list Z := replicate 4096 0.

(** The histogram of a converter with perfectly uniform code density. *)
Definition uniform_histogram : list Z := replicate 4096 100.

(** ** Boundary smoother ([ADCProfile::smooth_correction_table]) *)

Definition boundaries : list Z := [512; 1536; 2560; 3584].
Definition radius : Z := 16.

(** The value written at index [i] between the anchors:
    [left_val + (int16_t)(t * (right_val - left_val))] with
    [t = (float)(i - left_idx) / (right_idx - left_idx)]. *)
Definition interpolate (left_idx right_idx left_val right_val i : Z) : Z :=
  let t := F32.div (F32.of_Z (i - left_idx)) (F32.of_Z (right_idx - left_idx)) in
  wrap_int16 (left_val + float_to_int16 (F32.mul t (F32.of_Z (right_val - left_val)))).

Definition left_index (center : Z) : Z :=
  let left_idx := center - radius - 1 in
  if left_idx <? 0 then 0 else left_idx.

Definition right_index (center : Z) : Z :=
  let right_idx := center + radius in
  if right_idx >? 4095 then 4095 else right_idx.

(** The body of the loop over the boundaries. *)
Definition smooth_boundary (center : Z) (corr : list Z) : list Z :=
  let left_idx := left_index center in
  let right_idx := right_index center in
  let left_val := aget corr left_idx in
  let right_val := aget corr right_idx in
  for_loop (Z.to_nat (right_idx - (left_idx + 1))) (left_idx + 1) 1
    (write_at (interpolate left_idx right_idx left_val right_val))
    corr.

Fixpoint smooth_boundaries (bs : list Z) (corr : list Z) : list Z :=
  match bs with
  | [] => corr
  | center :: bs' => smooth_boundaries bs' (smooth_boundary center corr)
  end.

Definition smooth_correction_table (cal_data : CalibrationData) : CalibrationData :=
  mkCalibrationData (magic cal_data)
    (smooth_boundaries boundaries (correction cal_data))
    (adc_min cal_data) (adc_max cal_data).

(** The entries strictly between the anchors of the boundary at [center]
    are the interpolation of the two anchor entries. *)
Definition smoothed (center : Z) (corr : list Z) : Prop :=
  forall j, left_index center < j < right_index center ->
  interpolate (left_index center) (right_index center)
    (aget corr (left_index center)) (aget corr (right_index center)) j
  = aget corr j.

Definition region_in_table (center : Z) : Prop :=
  0 <= left_index center <= right_index center /\ right_index center <= 4095.

(** The regions of the boundaries lie in the table and the closed region
    of a boundary meets the region of no later boundary. *)
Fixpoint separated (bs : list Z) : Prop :=
  match bs with
  | [] => True
  | c :: bs' =>
      region_in_table c
      /\ Forall (fun c' => right_index c < left_index c' \/ right_index c' < left_index c) bs'
      /\ separated bs'
  end.

(** ** PIO sigma-delta DAC *)

Record DacState := mkDac {
  sd_accumulator : Z;      (* uint32_t *)
  sd_target : Z;           (* uint32_t *)
  tx_words : list Z        (* the words given to [pio_sm_put], oldest first *)
}.

Definition dac_set_level (level_12bit : Z) (d : DacState) : DacState :=
  mkDac (sd_accumulator d)
        (wrap_uint32 (Z.shiftl (Z.land level_12bit 0xFFF) 20))
        (tx_words d).

(** One iteration of the bit loop of [dac_feed_one] on [(word, acc)]. *)
Definition sd_bit (target : Z) (i : Z) (st : Z * Z) : Z * Z :=
  let '(word, acc) := st in
  let old_acc := acc in
  let acc := wrap_uint32 (acc + target) in
  if acc <? old_acc then (Z.lor word (Z.shiftl 1 i), acc) else (word, acc).

(** [dac_feed_one]; [fifo_full] is what [pio_sm_is_tx_fifo_full] answers
    when the function is entered. *)
Definition dac_feed_one (fifo_full : bool) (d : DacState) : bool * DacState :=
  if fifo_full then (false, d)
  else
    let target := sd_target d in
    let '(word, acc) := for_loop 32 0 1 (sd_bit target) (0, sd_accumulator d) in
    (true, mkDac acc (sd_target d) (tx_words d ++ [word])).

(** A run of feed attempts, one FIFO answer per attempt. *)
Definition dac_feed_many (fulls : list bool) (d : DacState) : DacState :=
  foldl (fun d full => snd (dac_feed_one full d)) d fulls.

(** The number of set bits among bits 0..n-1 of [w]. *)
Fixpoint count_bits (n : nat) (w : Z) : Z :=
  match n with
  | O => 0
  | S n' => count_bits n' w + (if Z.testbit w (Z.of_nat n') then 1 else 0)
  end.

Definition popcount32 (w : Z) : Z := count_bits 32 w.

Definition set_bits (ws : list Z) : Z := foldr (fun w n => popcount32 w + n) 0 ws.

(** The number of feed attempts that found room in the FIFO. *)
Definition fed (fulls : list bool) : Z := Z.of_nat (length (filter (fun b => b = false) fulls)).

(** ** Histogram collection *)

Definition NUM_SWEEPS : Z := 4.
Definition SETTLE_US : Z := 1000.

(** The globals the collector touches, with the number of FIFO queries,
    conversions and settling waits made so far. *)
Record Sketch := mkSketch {
  sk_dac : DacState;
  sk_histogram : list Z;   (* uint32_t histogram[4096] *)
  sk_polls : nat;
  sk_reads : nat;
  sk_settles : nat
}.

Definition hist_total (h : list Z) : Z := foldr Z.add 0 h.

Section Hardware.
(** The hardware the sketch talks to: the answer of the [n]-th FIFO query,
    the result of the [n]-th conversion and the number of times the
    busy-wait of the [n]-th settling delay runs its body before the
    microsecond timer has advanced by the given duration. *)
Variable pio_sm_is_tx_fifo_full : nat -> bool.
Variable adc_read : nat -> Z.
Variable settle_spins : nat -> Z -> nat.

(** The sketch defines [SAMPLES_PER_LEVEL] as the identifier [c], which
    it never declares; the count is a parameter here. *)
Variable SAMPLES_PER_LEVEL : Z.

Definition feed (m : Sketch) : Sketch :=
  let '(_, d) := dac_feed_one (pio_sm_is_tx_fifo_full (sk_polls m)) (sk_dac m) in
  mkSketch d (sk_histogram m) (S (sk_polls m)) (sk_reads m) (sk_settles m).

Definition dac_set_and_settle (level settle_us : Z) (m : Sketch) : Sketch :=
  let spins := settle_spins (sk_settles m) settle_us in
  let m := mkSketch (dac_set_level level (sk_dac m)) (sk_histogram m)
                    (sk_polls m) (sk_reads m) (S (sk_settles m)) in
  for_loop spins 0 1 (fun _ m => feed m) m.

(** The body of the sample loop: feed, convert, count. *)
Definition sample_once (m : Sketch) : Sketch :=
  let m := feed m in
  let code := wrap_uint16 (adc_read (sk_reads m)) in
  let histogram :=
    if code <? 4096
    then aset (sk_histogram m) code (wrap_uint32 (aget (sk_histogram m) code + 1))
    else sk_histogram m in
  mkSketch (sk_dac m) histogram (sk_polls m) (S (sk_reads m)) (sk_settles m).

(** The condition of the level loop,
    [ascending ? (level <= end) : (level >= end)]. *)
Definition sweep_continues (ascending : bool) (level : Z) : bool :=
  let end_ := if ascending then 4095 else 0 in
  if ascending then level <=? end_ else level >=? end_.

(** The level loop makes [|end - start| + 1] trips (see
    [sweep_trip_count]). *)
Definition collect_histogram_sweep (ascending : bool) (m : Sketch) : Sketch :=
  let start := if ascending then 0 else 4095 in
  let end_ := if ascending then 4095 else 0 in
  let step := if ascending then 1 else -1 in
  for_loop (Z.to_nat (Z.abs (end_ - start) + 1)) start step
    (fun level m =>
       let m := dac_set_and_settle (wrap_uint16 level) SETTLE_US m in
       for_loop (Z.to_nat SAMPLES_PER_LEVEL) 0 1 (fun _ m => sample_once m) m)
    m.

Definition collect_histogram (m : Sketch) : Sketch :=
  let m := mkSketch (sk_dac m) (replicate 4096 0) (sk_polls m) (sk_reads m) (sk_settles m) in
  let m := for_loop (Z.to_nat NUM_SWEEPS) 0 1
             (fun sweep m => collect_histogram_sweep (Z.rem sweep 2 =? 0) m) m in
  mkSketch (dac_set_level 0 (sk_dac m)) (sk_histogram m)
           (sk_polls m) (sk_reads m) (sk_settles m).

(** The number of conversions among the [n] following the [k]-th whose
    code is not below 4096. *)
Fixpoint discarded (k n : nat) : Z :=
  match n with
  | O => 0
  | S n' => (if wrap_uint16 (adc_read k) <? 4096 then 0 else 1) + discarded (S k) n'
  end.

(** The conversions are numbered from [r0]; after [n] of them the
    histogram holds one count for each conversion that was in range. *)
Definition tallied (r0 n : nat) (m : Sketch) : Prop :=
  sk_reads m = (r0 + n)%nat
  /\ length (sk_histogram m) = 4096%nat
  /\ Forall (fun c => 0 <= c) (sk_histogram m)
  /\ hist_total (sk_histogram m) = Z.of_nat n - discarded r0 n.
End Hardware.

(** ** File storage (LittleFS)

    An object is stored as the bytes of its memory image: little-endian
    fields in declaration order, without padding (4 + 2*4096 + 2 + 2 bytes
    for [CalibrationData]). *)

Definition byte_of_Z (z : Z) : byte := default x00 (Byte.of_N (Z.to_N (z mod 256))).
Definition Z_of_byte (b : byte) : Z := Z.of_N (Byte.to_N b).

Fixpoint le_encode (n : nat) (z : Z) : list byte :=
  match n with
  | O => []
  | S n' => byte_of_Z z :: le_encode n' (z / 256)
  end.

Fixpoint le_decode (bs : list byte) : Z :=
  match bs with
  | [] => 0
  | b :: bs' => Z_of_byte b + 256 * le_decode bs'
  end.

(** The field of [n] bytes at offset [off]. *)
Definition field (off n : Z) (mem : list byte) : Z :=
  le_decode (take (Z.to_nat n) (drop (Z.to_nat off) mem)).

Definition sizeof_cal_data : Z := 8200.
Definition sizeof_histogram : Z := 16384.

Definition cal_to_bytes (c : CalibrationData) : list byte :=
  le_encode 4 (magic c)
  ++ flat_map (le_encode 2) (correction c)
  ++ le_encode 2 (adc_min c)
  ++ le_encode 2 (adc_max c).

Definition cal_of_bytes (mem : list byte) : CalibrationData :=
  mkCalibrationData
    (field 0 4 mem)
    ((fun k => wrap_int16 (field (4 + 2 * k) 2 mem)) <$> seqZ 0 4096)
    (field 8196 2 mem)
    (field 8198 2 mem).

Definition hist_to_bytes (h : list Z) : list byte := flat_map (le_encode 4) h.

Definition hist_of_bytes (mem : list byte) : list Z :=
  (fun k => field (4 * k) 4 mem) <$> seqZ 0 4096.

Definition cal_path : string := "/adc_cal.bin".
Definition hist_path : string := "/histogram.bin".

(** The store behind the Arduino [LittleFS] and [File] objects, with the
    open/read/write/close behaviour of a blob store: whether
    [LittleFS.begin()] succeeds, whether it succeeds once the store has been
    formatted, which paths can be opened for writing, and the content of
    every file.  A write stores the whole buffer. *)
Record LittleFS := mkFS {
  fs_mounts : bool;
  fs_mounts_formatted : bool;
  fs_creatable : string -> bool;
  fs_files : gmap string (list byte)
}.

(** An open file: its content and the read position. *)
Record File := mkFile {
  f_data : list byte;
  f_pos : Z
}.

Definition fs_format (fs : LittleFS) : LittleFS :=
  mkFS (fs_mounts_formatted fs) (fs_mounts_formatted fs) (fs_creatable fs) ∅.

Definition fs_open_r (fs : LittleFS) (path : string) : option File :=
  match fs_files fs !! path with
  | Some data => Some (mkFile data 0)
  | None => None
  end.

(** [open(path, "w")] followed by writes that store [data] and [close]. *)
Definition fs_store (fs : LittleFS) (path : string) (data : list byte) : LittleFS :=
  mkFS (fs_mounts fs) (fs_mounts_formatted fs) (fs_creatable fs)
       (<[path := data]> (fs_files fs)).

(** [f.read(buffer, size)] into the object whose image is [mem]: the bytes
    read replace the leading bytes of the object. *)
Definition file_read (f : File) (mem : list byte) (size : Z) : File * list byte * Z :=
  let chunk := take (Z.to_nat size) (drop (Z.to_nat (f_pos f)) (f_data f)) in
  let n := length chunk in
  (mkFile (f_data f) (f_pos f + Z.of_nat n), chunk ++ drop n mem, Z.of_nat n).

Definition string_of_Z (z : Z) : string := DecimalString.NilZero.string_of_int (Z.to_int z).

Definition crlf : string := String "013" (String "010" EmptyString).
Definition lf : string := String "010" EmptyString.

(** One row ["%d,%lu,%d\n"] of the CSV export. *)
Definition csv_row (histogram : list Z) (cal_data : CalibrationData) (i : Z) : string :=
  (string_of_Z i ++ "," ++ string_of_Z (aget histogram i) ++ ","
   ++ string_of_Z (aget (correction cal_data) i) ++ lf)%string.

Definition csv_text (histogram : list Z) (cal_data : CalibrationData) : string :=
  for_loop 4096 0 1 (fun i text => (text ++ csv_row histogram cal_data i)%string)
    ("code,count,correction" ++ crlf)%string.

Definition save_calibration (fs : LittleFS) (histogram : list Z) (cal_data : CalibrationData)
    : LittleFS :=
  let mounted := if fs_mounts fs then (true, fs)
                 else let fs := fs_format fs in (fs_mounts fs, fs) in
  let '(ok, fs) := mounted in
  if negb ok then fs
  else
    let fs := if fs_creatable fs "/adc_cal.csv"
              then fs_store fs "/adc_cal.csv" (list_byte_of_string (csv_text histogram cal_data))
              else fs in
    let fs := if fs_creatable fs cal_path
              then fs_store fs cal_path (cal_to_bytes cal_data)
              else fs in
    fs.

(** [load_calibration]: the answer and the new value of [cal_data]. *)
Definition load_calibration (fs : LittleFS) (cal_data : CalibrationData)
    : bool * CalibrationData :=
  if negb (fs_mounts fs) then (false, cal_data)
  else
    match fs_open_r fs cal_path with
    | None => (false, cal_data)
    | Some f =>
        let '(_, mem, bytes) := file_read f (cal_to_bytes cal_data) sizeof_cal_data in
        let cal_data := cal_of_bytes mem in
        if (bytes =? sizeof_cal_data) && (magic cal_data =? CAL_MAGIC)
        then (true, cal_data)
        else (false, cal_data)
    end.

(** [ADCProfile::load_calibration_from_file]: the answer and the new values
    of [histogram] and [cal_data]. *)
Definition load_calibration_from_file (fs : LittleFS) (histogram : list Z)
    (cal_data : CalibrationData) : bool * list Z * CalibrationData :=
  if negb (fs_mounts fs) then (false, histogram, cal_data)
  else
    match fs_open_r fs hist_path with
    | None => (false, histogram, cal_data)
    | Some f =>
        let '(f, hmem, hist_size) := file_read f (hist_to_bytes histogram) sizeof_histogram in
        let '(_, cmem, cal_size) := file_read f (cal_to_bytes cal_data) sizeof_cal_data in
        let histogram := hist_of_bytes hmem in
        let cal_data := cal_of_bytes cmem in
        if (hist_size =? sizeof_histogram) && (cal_size =? sizeof_cal_data)
           && (magic cal_data =? CAL_MAGIC)
        then (true, histogram, smooth_correction_table cal_data)
        else (false, histogram, cal_data)
    end.

(** What [f.read] returns on a file just opened: the size asked for, or
    the length of the file when that is less. *)
Definition bytes_read (data : list byte) (size : Z) : Z :=
  Z.min (Z.of_nat (length data)) size.

(** The record held once [f.read] has read [data] over the image of
    [cal]. *)
Definition overlay (data : list byte) (cal : CalibrationData) : CalibrationData :=
  let chunk := take (Z.to_nat sizeof_cal_data) data in
  cal_of_bytes (chunk ++ drop (length chunk) (cal_to_bytes cal)).

(** A record of the right size whose magic number is wrong, and a store
    that holds it. *)
Definition corrupt_record : CalibrationData :=
  mkCalibrationData 0xDEADBEEF (replicate 4096 7) 0 4095.

Definition corrupt_store : LittleFS :=
  mkFS true true (fun _ => true) {[ cal_path := cal_to_bytes corrupt_record ]}.

(** ** Concrete inputs used in the examples *)

(** All the mass on the codes 2000..2010. *)
Definition peak_histogram : list Z :=
  replicate 2000 0 ++ [5; 7; 9; 200; 13; 6; 6; 1000; 3; 1; 1] ++ replicate 2085 0.

Definition peak_lut : CalibrationData := build_correction_lut peak_histogram cal_zero.

(** A saw-tooth table and the table the smoother makes of it. *)
Definition ramp_table : CalibrationData :=
  mkCalibrationData CAL_MAGIC ((fun k => k mod 37 - 18) <$> seqZ 0 4096) 0 4095.

Definition ramp_smoothed : CalibrationData := smooth_correction_table ramp_table.

(** A table that jumps from the least to the greatest [int16_t] value
    across every boundary. *)
Definition steep_table : CalibrationData :=
  mkCalibrationData CAL_MAGIC
    ((fun k => if (k / 512) mod 2 =? 0 then -32768 else 32767) <$> seqZ 0 4096) 0 4095.

Definition sample_record : CalibrationData :=
  mkCalibrationData CAL_MAGIC (replicate 4096 (-3)) 17 4000.

(** A store that mounts only once it has been formatted. *)
Definition blank_store : LittleFS := mkFS false true (fun _ => true) ∅.

(** A store whose calibration file was cut after seven bytes. *)
Definition short_store : LittleFS :=
  mkFS true true (fun _ => true) {[ cal_path := take 7 (cal_to_bytes corrupt_record) ]}.

(** A store for the companion loader: a whole histogram followed by the
    corrupt record. *)
Definition profile_store : LittleFS :=
  mkFS true true (fun _ => true)
       {[ hist_path := hist_to_bytes (replicate 4096 9) ++ cal_to_bytes corrupt_record ]}.

(** A converter that returns an out-of-range code every third
    conversion. *)
Definition noisy_adc (n : nat) : Z :=
  if (n mod 3 =? 0)%nat then 5000 else Z.of_nat n mod 4096.

Definition idle_sketch : Sketch := mkSketch (mkDac 0 0 []) [] 0 0 0.

(** * The rest of the sketch *)

(** ** Feeding and sampling *)

Section Sampler.
Variable pio_sm_is_tx_fifo_full : nat -> bool.
Variable adc_read : nat -> Z.

(** The loop of [dac_feed] with [n] trips left: it ends at the first
    [dac_feed_one] that answers false. *)
Fixpoint dac_feed_loop (n : nat) (m : Sketch) : Sketch :=
  match n with
  | O => m
  | S n' =>
      let ok := fst (dac_feed_one (pio_sm_is_tx_fifo_full (sk_polls m)) (sk_dac m)) in
      let m := feed pio_sm_is_tx_fifo_full m in
      if negb ok then m else dac_feed_loop n' m
  end.

(** [dac_feed]: feed FIFO until full, eight words at most. *)
Definition dac_feed (m : Sketch) : Sketch := dac_feed_loop 8 m.

(** How many of the [n] FIFO queries from the [k]-th on find room before
    the first that finds the FIFO full. *)
Fixpoint leading_free (k n : nat) : nat :=
  match n with
  | O => O
  | S n' => if pio_sm_is_tx_fifo_full k then O else S (leading_free (S k) n')
  end.

(** One trip of the loop of [adc_read_averaged] on [(sum, sketch)]. *)
Definition average_step (st : Z * Sketch) : Z * Sketch :=
  let '(sum, m) := st in
  let m := feed pio_sm_is_tx_fifo_full m in
  let sum := wrap_uint32 (sum + wrap_uint16 (adc_read (sk_reads m))) in
  (sum, mkSketch (sk_dac m) (sk_histogram m) (sk_polls m) (S (sk_reads m)) (sk_settles m)).

(** [adc_read_averaged]; dividing by a zero [num_samples] is undefined. *)
Definition adc_read_averaged (num_samples : Z) (m : Sketch) : option (Z * Sketch) :=
  let '(sum, m) := for_loop (Z.to_nat num_samples) 0 1 (fun _ st => average_step st) (0, m) in
  if num_samples =? 0 then None
  else Some (wrap_uint16 (wrap_uint32 (sum + num_samples / 2) / num_samples), m).

(** The sum of the codes of the [n] conversions from the [k]-th on. *)
Fixpoint code_sum (k n : nat) : Z :=
  match n with
  | O => 0
  | S n' => wrap_uint16 (adc_read k) + code_sum (S k) n'
  end.
End Sampler.

(** ** Apply correction *)

(** [adc_corrected]; [raw] is a [uint16_t], and reading
    [cal_data.correction[raw]] for a [raw] above 4095 is a read outside
    the array. *)
Definition adc_corrected (cal_data : CalibrationData) (raw : Z) : option Z :=
  if raw <? 4096 then
    let corrected := raw + aget (correction cal_data) raw in
    let corrected := if corrected <? 0 then 0 else corrected in
    let corrected := if corrected >? 4095 then 4095 else corrected in
    Some (wrap_uint16 corrected)
  else None.

Section Corrector.
Variable pio_sm_is_tx_fifo_full : nat -> bool.
Variable adc_read : nat -> Z.

(** One trip of the loop of [adc_read_calibrated] on [(sum, sketch)]. *)
Definition calibrated_step (cal_data : CalibrationData) (st : Z * Sketch)
    : option (Z * Sketch) :=
  let '(sum, m) := st in
  let m := feed pio_sm_is_tx_fifo_full m in
  let raw := wrap_uint16 (adc_read (sk_reads m)) in
  let m := mkSketch (sk_dac m) (sk_histogram m) (sk_polls m) (S (sk_reads m)) (sk_settles m) in
  match adc_corrected cal_data raw with
  | Some v => Some (wrap_uint32 (sum + v), m)
  | None => None
  end.

(** [adc_read_calibrated]; dividing by a zero [oversample] is undefined. *)
Definition adc_read_calibrated (cal_data : CalibrationData) (oversample : Z) (m : Sketch)
    : option (Z * Sketch) :=
  match for_loop_opt (Z.to_nat oversample) 0 1
          (fun _ st => calibrated_step cal_data st) (0, m) with
  | Some (sum, m) =>
      if oversample =? 0 then None else Some (wrap_uint16 (sum / oversample), m)
  | None => None
  end.
End Corrector.

(** ** Per-code counts *)

Section Counts.
Variable adc_read : nat -> Z.

(** How many of the [n] conversions from the [k]-th on returned the code
    [c]. *)
Fixpoint observed (c : Z) (k n : nat) : Z :=
  match n with
  | O => 0
  | S n' => (if wrap_uint16 (adc_read k) =? c then 1 else 0) + observed c (S k) n'
  end.

(** After [n] conversions numbered from [r0], every counter holds the
    number of conversions that returned its code. *)
Definition counted (r0 n : nat) (m : Sketch) : Prop :=
  sk_reads m = (r0 + n)%nat
  /\ length (sk_histogram m) = 4096%nat
  /\ forall c, 0 <= c < 4096 -> aget (sk_histogram m) c = observed c r0 n.
End Counts.

(** ** Invariants of the table loop *)

(** The entries below [k] hold values of an [int16_t]. *)
Definition lut_int16 (k : Z) (corr : list Z) : Prop :=
  length corr = 4096%nat /\ forall j, 0 <= j < k -> in_int16 (aget corr j).

(** Two runs of the table loop that have written the entries below [k]
    agree on them and on the running sum. *)
Definition lut_agree (k : Z) (st0 st1 : spec_float * list Z) : Prop :=
  fst st0 = fst st1
  /\ length (snd st0) = 4096%nat /\ length (snd st1) = 4096%nat
  /\ forall j, 0 <= j < k -> aget (snd st0) j = aget (snd st1) j.

(** ** The loader of the application ([applicationCode/ADCProfile.hpp])

    The same function without the smoothing; it reads into [histogram] and
    [cal_data] before it checks what it has read. *)

Module Application.
Definition load_calibration_from_file (fs : LittleFS) (histogram : list Z)
    (cal_data : CalibrationData) : bool * list Z * CalibrationData :=
  if negb (fs_mounts fs) then (false, histogram, cal_data)
  else
    match fs_open_r fs hist_path with
    | None => (false, histogram, cal_data)
    | Some f =>
        let '(f, hmem, hist_size) := file_read f (hist_to_bytes histogram) sizeof_histogram in
        let '(_, cmem, cal_size) := file_read f (cal_to_bytes cal_data) sizeof_cal_data in
        let histogram := hist_of_bytes hmem in
        let cal_data := cal_of_bytes cmem in
        if (hist_size =? sizeof_histogram) && (cal_size =? sizeof_cal_data)
           && (magic cal_data =? CAL_MAGIC)
        then (true, histogram, cal_data)
        else (false, histogram, cal_data)
    end.
End Application.

(** A store for the companion loader that holds a whole histogram and the
    record [sample_record]. *)
Definition complete_store : LittleFS :=
  mkFS true true (fun _ => true)
       {[ hist_path := hist_to_bytes (replicate 4096 9) ++ cal_to_bytes sample_record ]}.

(** ** The arithmetic of the smoother

    Whether, for every position [k] of the 32 between two anchors 33 apart
    and every anchor difference [d] of magnitude at most [D], the binary32
    computation [(int16_t)(t * d)] with [t = (float)k / 33] gives the
    quotient of [k * d] by 33 truncated toward zero. *)
Definition interpolation_exact (D : Z) : bool :=
  forallb
    (fun k =>
       let t := F32.div (F32.of_Z k) (F32.of_Z 33) in
       forallb
         (fun d => float_to_int16 (F32.mul t (F32.of_Z d)) =? Z.quot (k * d) 33)
         (seqZ (- D) (2 * D + 1)))
    (seqZ 1 32).

(** A table with a step of 40 at every boundary. *)
Definition step_table : CalibrationData :=
  mkCalibrationData CAL_MAGIC ((fun k => 40 * ((k + 512) / 1024) - 60) <$> seqZ 0 4096) 0 4095.

(** ** Quick test, verification and the full calibration routine *)

(** The globals of the sketch: those of the collector, [cal_data] and the
    file store. *)
Record Machine := mkMachine {
  m_sketch : Sketch;
  m_cal : CalibrationData;
  m_fs : LittleFS
}.

Definition quick_levels : list Z := [0; 1024; 2048; 3072; 4095].
Definition test_points : list Z := [5; 10; 25; 50; 75; 90; 95].

Section Routine.
Variable pio_sm_is_tx_fifo_full : nat -> bool.
Variable adc_read : nat -> Z.
Variable settle_spins : nat -> Z -> nat.
Variable SAMPLES_PER_LEVEL : Z.

(** [quick_test]; what it prints is left out. *)
Definition quick_test (m : Sketch) : option Sketch :=
  match for_loop_opt 5 0 1
          (fun i m =>
             let m := dac_set_and_settle pio_sm_is_tx_fifo_full settle_spins
                        (aget quick_levels i) 5000 m in
             snd <$> adc_read_averaged pio_sm_is_tx_fifo_full adc_read 256 m)
          m with
  | Some m =>
      Some (mkSketch (dac_set_level 0 (sk_dac m)) (sk_histogram m)
              (sk_polls m) (sk_reads m) (sk_settles m))
  | None => None
  end.

(** One trip of the sample loop of [verify_calibration] on
    [(raw_sum, corr_sum, sketch)]. *)
Definition verify_step (cal_data : CalibrationData) (st : Z * Z * Sketch)
    : option (Z * Z * Sketch) :=
  let '(raw_sum, corr_sum, m) := st in
  let m := feed pio_sm_is_tx_fifo_full m in
  let raw := wrap_uint16 (adc_read (sk_reads m)) in
  let m := mkSketch (sk_dac m) (sk_histogram m) (sk_polls m) (S (sk_reads m)) (sk_settles m) in
  let raw_sum := wrap_uint32 (raw_sum + raw) in
  match adc_corrected cal_data raw with
  | Some v => Some (raw_sum, wrap_uint32 (corr_sum + v), m)
  | None => None
  end.

(** [verify_calibration]; what it prints is left out. *)
Definition verify_calibration (cal_data : CalibrationData) (m : Sketch) : option Sketch :=
  match for_loop_opt 7 0 1
          (fun i m =>
             let dac_level := wrap_uint32 (aget test_points i * 4095 / 100) in
             let m := dac_set_and_settle pio_sm_is_tx_fifo_full settle_spins
                        (wrap_uint16 dac_level) 5000 m in
             match for_loop_opt 256 0 1 (fun _ st => verify_step cal_data st) (0, 0, m) with
             | Some (_, _, m) => Some m
             | None => None
             end)
          m with
  | Some m =>
      Some (mkSketch (dac_set_level 0 (sk_dac m)) (sk_histogram m)
              (sk_polls m) (sk_reads m) (sk_settles m))
  | None => None
  end.

(** [run_calibration]. *)
Definition run_calibration (M : Machine) : option Machine :=
  match quick_test (m_sketch M) with
  | None => None
  | Some sk =>
      let sk := collect_histogram pio_sm_is_tx_fifo_full adc_read settle_spins
                  SAMPLES_PER_LEVEL sk in
      let cal := build_correction_lut (sk_histogram sk) (m_cal M) in
      let fs := save_calibration (m_fs M) (sk_histogram sk) cal in
      match verify_calibration cal sk with
      | None => None
      | Some sk => Some (mkMachine sk cal fs)
      end
  end.
End Routine.

(** A converter that cycles through the codes 10..13, and the sketch
    before its first calibration on a blank store. *)
Definition cycling_adc (n : nat) : Z := 10 + Z.of_nat (n mod 4).

Definition fresh_machine : Machine := mkMachine idle_sketch cal_zero blank_store.

(** A converter that cycles through the codes 100..104. *)
Definition ramp_adc (n : nat) : Z := 100 + Z.of_nat (n mod 5).

(** * Properties *)

(** ** Arrays *)

Lemma length_aset (a : list Z) (i v : Z) : length (aset a i v) = length a.
Proof. unfold aset. apply length_insert. Qed.

Lemma aget_aset_eq (a : list Z) (i v : Z) :
  (Z.to_nat i < length a)%nat -> aget (aset a i v) i = v.
Proof.
  intros Hi. unfold aget, aset.
  rewrite list_lookup_insert_eq by exact Hi. reflexivity.
Qed.

Lemma aget_aset_ne (a : list Z) (i j v : Z) :
  0 <= i -> 0 <= j -> i <> j -> aget (aset a i v) j = aget a j.
Proof.
  intros Hi Hj Hne. unfold aget, aset.
  rewrite list_lookup_insert_ne by lia. reflexivity.
Qed.

Lemma aget_replicate (n : nat) (v i : Z) :
  0 <= i -> (Z.to_nat i < n)%nat -> aget (replicate n v) i = v.
Proof.
  intros Hi Hn. unfold aget.
  rewrite (lookup_replicate_2 n v (Z.to_nat i)) by exact Hn. reflexivity.
Qed.

(** ** Sigma-delta modulator *)

Lemma testbit_lor_one (w k j : Z) :
  0 <= k -> Z.testbit (Z.lor w (Z.shiftl 1 k)) j = Z.testbit w j || (k =? j).
Proof.
  intros Hk. rewrite Z.lor_spec, Z.shiftl_1_l, Z.pow2_bits_eqb by exact Hk.
  reflexivity.
Qed.

Lemma count_bits_lor (n : nat) (w k : Z) :
  0 <= k -> Z.testbit w k = false ->
  count_bits n (Z.lor w (Z.shiftl 1 k)) =
  count_bits n w + (if k <? Z.of_nat n then 1 else 0).
Proof.
  intros Hk Hbit. induction n as [|n IH].
  - cbn [count_bits]. change (Z.of_nat 0) with 0.
    destruct (Z.ltb_spec k 0); lia.
  - cbn [count_bits]. rewrite IH, testbit_lor_one by exact Hk.
    destruct (Z.eqb_spec k (Z.of_nat n)) as [->|Hne].
    + rewrite Hbit. simpl.
      destruct (Z.ltb_spec (Z.of_nat n) (Z.of_nat n)); [lia|].
      destruct (Z.ltb_spec (Z.of_nat n) (Z.of_nat (S n))); lia.
    + rewrite orb_false_r.
      destruct (Z.ltb_spec k (Z.of_nat n)), (Z.ltb_spec k (Z.of_nat (S n))); lia.
Qed.

(** One bit of the modulator: the accumulator stays a 32-bit value and the
    bit is the carry out of the addition. *)
Lemma sd_bit_carry (target i word acc : Z) :
  0 <= target < 2 ^ 32 -> 0 <= acc < 2 ^ 32 -> 0 <= i < 32 ->
  (forall j, i <= j -> Z.testbit word j = false) ->
  let '(word', acc') := sd_bit target i (word, acc) in
  0 <= acc' < 2 ^ 32
  /\ (forall j, i + 1 <= j -> Z.testbit word' j = false)
  /\ 2 ^ 32 * (popcount32 word' - popcount32 word) = acc + target - acc'.
Proof.
  intros Ht Ha Hi Hclear. unfold sd_bit, wrap_uint32.
  assert (Hm : 0 <= (acc + target) mod 2 ^ 32 < 2 ^ 32) by (apply Z.mod_pos_bound; lia).
  destruct (Z.ltb_spec ((acc + target) mod 2 ^ 32) acc) as [Hlt|Hge].
  - split; [exact Hm|]. split.
    + intros j Hj. rewrite testbit_lor_one by lia.
      rewrite Hclear by lia. destruct (Z.eqb_spec i j); [lia | reflexivity].
    + unfold popcount32. rewrite count_bits_lor by (try apply Hclear; lia).
      destruct (Z.ltb_spec i (Z.of_nat 32)); [|lia].
      destruct (Z.lt_ge_cases (acc + target) (2 ^ 32)) as [Hs|Hs].
      * rewrite Z.mod_small in Hlt by lia. lia.
      * assert (E : (acc + target) mod 2 ^ 32 = acc + target - 2 ^ 32).
        { symmetry. apply (Z.mod_unique _ _ 1); lia. }
        lia.
  - split; [exact Hm|]. split.
    + intros j Hj. apply Hclear. lia.
    + destruct (Z.lt_ge_cases (acc + target) (2 ^ 32)) as [Hs|Hs].
      * rewrite Z.mod_small by lia. lia.
      * assert (E : (acc + target) mod 2 ^ 32 = acc + target - 2 ^ 32).
        { symmetry. apply (Z.mod_unique _ _ 1); lia. }
        lia.
Qed.

Lemma sd_word_carry (target : Z) (n : nat) :
  0 <= target < 2 ^ 32 ->
  forall i word acc,
  0 <= acc < 2 ^ 32 -> 0 <= i -> i + Z.of_nat n <= 32 ->
  (forall j, i <= j -> Z.testbit word j = false) ->
  let '(word', acc') := for_loop n i 1 (sd_bit target) (word, acc) in
  0 <= acc' < 2 ^ 32
  /\ 2 ^ 32 * (popcount32 word' - popcount32 word) = acc + Z.of_nat n * target - acc'.
Proof.
  intros Ht. induction n as [|n IH]; intros i word acc Ha Hi Hn Hclear.
  - simpl. lia.
  - cbn [for_loop].
    pose proof (sd_bit_carry target i word acc Ht Ha ltac:(lia) Hclear) as Hstep.
    destruct (sd_bit target i (word, acc)) as [word1 acc1].
    destruct Hstep as (Ha1 & Hclear1 & Hcount1).
    specialize (IH (i + 1) word1 acc1 Ha1 ltac:(lia) ltac:(lia) Hclear1).
    destruct (for_loop n (i + 1) 1 (sd_bit target) (word1, acc1)) as [word' acc'].
    destruct IH as (Ha' & Hcount'). split; [exact Ha'|]. lia.
Qed.

Lemma popcount32_zero : popcount32 0 = 0.
Proof. reflexivity. Qed.

Lemma set_bits_app (ws1 ws2 : list Z) :
  set_bits (ws1 ++ ws2) = set_bits ws1 + set_bits ws2.
Proof.
  induction ws1 as [|w ws1 IH]; simpl; [reflexivity|].
  unfold set_bits in *. simpl. rewrite IH. lia.
Qed.

(** Any run of feed attempts appends one word per successful attempt, and
    the set bits of those words account exactly for the carries out of the
    accumulator. *)
Lemma dac_feed_many_carry (fulls : list bool) :
  forall d,
  0 <= sd_target d < 2 ^ 32 -> 0 <= sd_accumulator d < 2 ^ 32 ->
  exists ws,
    tx_words (dac_feed_many fulls d) = tx_words d ++ ws
    /\ Z.of_nat (length ws) = fed fulls
    /\ sd_target (dac_feed_many fulls d) = sd_target d
    /\ 0 <= sd_accumulator (dac_feed_many fulls d) < 2 ^ 32
    /\ 2 ^ 32 * set_bits ws =
       sd_accumulator d + 32 * fed fulls * sd_target d
       - sd_accumulator (dac_feed_many fulls d).
Proof.
  induction fulls as [|full fulls IH]; intros d Ht Ha.
  - exists []. simpl. rewrite app_nil_r. unfold fed. simpl. repeat split; lia.
  - unfold dac_feed_many in *. cbn [foldl]. destruct full.
    + cbn [dac_feed_one snd]. destruct (IH d Ht Ha) as (ws & H1 & H2 & H3 & H4 & H5).
      exists ws. unfold fed in *. rewrite filter_cons_False by discriminate.
      repeat split; assumption || lia.
    + unfold dac_feed_one at 2 4 6 8 10.
      pose proof (sd_word_carry (sd_target d) 32 Ht 0 0 (sd_accumulator d) Ha
                    ltac:(lia) ltac:(lia) ltac:(intros; apply Z.bits_0)) as Hw.
      destruct (for_loop 32 0 1 (sd_bit (sd_target d)) (0, sd_accumulator d))
        as [word acc].
      destruct Hw as (Hacc & Hcount). cbn [snd].
      destruct (IH (mkDac acc (sd_target d) (tx_words d ++ [word])) Ht Hacc)
        as (ws & H1 & H2 & H3 & H4 & H5).
      cbn [tx_words sd_target sd_accumulator] in *.
      exists (word :: ws). rewrite H1, <- app_assoc. cbn [app].
      unfold fed in *. rewrite filter_cons_True by reflexivity.
      cbn [length]. rewrite popcount32_zero in Hcount.
      change (set_bits (word :: ws)) with (popcount32 word + set_bits ws).
      repeat split; try assumption; lia.
Qed.

Lemma dac_set_level_target (T : Z) (d : DacState) :
  0 <= T <= 4095 -> sd_target (dac_set_level T d) = T * 2 ^ 20.
Proof.
  intros HT. unfold dac_set_level, wrap_uint32. cbn [sd_target].
  change 0xFFF with (Z.ones 12). rewrite Z.land_ones by lia.
  rewrite Z.shiftl_mul_pow2 by lia.
  rewrite (Z.mod_small T) by lia. apply Z.mod_small. lia.
Qed.

(** C3.  After [dac_set_level T] with [T] in 0..4095, let [ws] be the [W]
    words that any run of [dac_feed_one] attempts pushes.  The number of set
    bits of [ws] differs from [32*W*T/4096] by less than one bit:
    [|4096 * set_bits ws - 32*W*T| < 4096], whatever the accumulator held
    at the start; so the fraction of set bits is within [1/(32*W)] of
    [T/4096]. *)
Theorem dac_feed_one_bit_density (T : Z) (fulls : list bool) (d : DacState) :
  0 <= T <= 4095 ->
  0 <= sd_accumulator d < 2 ^ 32 ->
  let d' := dac_feed_many fulls (dac_set_level T d) in
  let ws := drop (length (tx_words d)) (tx_words d') in
  let W := Z.of_nat (length ws) in
  W = fed fulls
  /\ 2 ^ 32 * set_bits ws = sd_accumulator d + W * 32 * (T * 2 ^ 20) - sd_accumulator d'
  /\ Z.abs (4096 * set_bits ws - 32 * W * T) < 4096.
Proof.
  intros HT Ha d' ws W.
  pose proof (dac_set_level_target T d HT) as Htgt.
  destruct (dac_feed_many_carry fulls (dac_set_level T d)) as (ws' & H1 & H2 & H3 & H4 & H5).
  { rewrite Htgt. lia. }
  { exact Ha. }
  assert (Hws : ws = ws').
  { subst ws d'. rewrite H1. cbn [dac_set_level tx_words].
    rewrite drop_app_length. reflexivity. }
  subst W. rewrite Hws. rewrite Htgt in H5.
  change (sd_accumulator (dac_set_level T d)) with (sd_accumulator d) in H5.
  fold d' in H4, H5. split; [exact H2|]. split; [lia|].
  rewrite H2. lia.
Qed.

(** ** Conversions *)

(** Where the C standard defines the cast to [int16_t], it gives the
    integral part. *)
Lemma float_to_int16_in_range (x : spec_float) (z : Z) :
  float_trunc x = Some z -> in_int16 z -> float_to_int16 x = z.
Proof.
  unfold float_to_int16, float_to_int, in_int16, INT_MIN, INT_MAX, wrap_int16.
  intros -> Hz. rewrite Z.max_r, Z.min_r by lia. rewrite Z.mod_small by lia. lia.
Qed.

Lemma wrap_int16_range (z : Z) : in_int16 (wrap_int16 z).
Proof.
  unfold in_int16, wrap_int16. pose proof (Z.mod_pos_bound (z + 32768) 65536). lia.
Qed.

(** The cast always gives a value of [int16_t]. *)
Lemma float_to_int16_range (x : spec_float) : in_int16 (float_to_int16 x).
Proof. apply wrap_int16_range. Qed.

(** ** LUT builder *)

Lemma scan_code_min_spec (h : list Z) (fuel : nat) :
  forall c, 0 <= c <= 4095 -> 4095 - c <= Z.of_nat fuel ->
  let r := scan_code_min fuel h c in
  c <= r <= 4095
  /\ (forall j, c <= j < r -> aget h j = 0)
  /\ (r <? 4095) && (aget h r =? 0) = false.
Proof.
  induction fuel as [|fuel IH]; intros c Hc Hfuel.
  - cbn [scan_code_min]. assert (c = 4095) as -> by lia.
    split; [lia|]. split; [intros; lia | reflexivity].
  - cbn [scan_code_min].
    destruct ((c <? 4095) && (aget h c =? 0)) eqn:Hcond.
    + apply andb_true_iff in Hcond as [Hlt Hz].
      apply Z.ltb_lt in Hlt. apply Z.eqb_eq in Hz.
      unfold wrap_uint16. rewrite Z.mod_small by lia.
      destruct (IH (c + 1) ltac:(lia) ltac:(lia)) as (Hr & Hzero & Hexit).
      split; [lia|]. split; [|exact Hexit].
      intros j Hj. destruct (Z.eq_dec j c) as [->|Hne]; [exact Hz|].
      apply Hzero. lia.
    + split; [lia|]. split; [intros; lia | exact Hcond].
Qed.

Lemma scan_code_max_spec (h : list Z) (fuel : nat) :
  forall c, 0 <= c <= 4095 -> c <= Z.of_nat fuel ->
  let r := scan_code_max fuel h c in
  0 <= r <= c
  /\ (forall j, r < j <= c -> aget h j = 0)
  /\ (r >? 0) && (aget h r =? 0) = false.
Proof.
  induction fuel as [|fuel IH]; intros c Hc Hfuel.
  - cbn [scan_code_max]. assert (c = 0) as -> by lia.
    split; [lia|]. split; [intros; lia | reflexivity].
  - cbn [scan_code_max].
    destruct ((c >? 0) && (aget h c =? 0)) eqn:Hcond.
    + apply andb_true_iff in Hcond as [Hgt Hz].
      apply Z.gtb_lt in Hgt. apply Z.eqb_eq in Hz.
      unfold wrap_uint16. rewrite Z.mod_small by lia.
      destruct (IH (c - 1) ltac:(lia) ltac:(lia)) as (Hr & Hzero & Hexit).
      split; [lia|]. split; [|exact Hexit].
      intros j Hj. destruct (Z.eq_dec j c) as [->|Hne]; [exact Hz|].
      apply Hzero. lia.
    + split; [lia|]. split; [intros; lia | exact Hcond].
Qed.

(** Both range scans leave their loop because the loop condition is false,
    not because the iteration bound of the model is reached. *)
Lemma scan_code_min_exit (h : list Z) :
  0 <= find_code_min h <= 4095
  /\ (forall j, 0 <= j < find_code_min h -> aget h j = 0)
  /\ (find_code_min h = 4095 \/ aget h (find_code_min h) <> 0).
Proof.
  unfold find_code_min.
  destruct (scan_code_min_spec h 4096 0 ltac:(lia) ltac:(lia)) as (Hr & Hz & Hexit).
  set (r := scan_code_min 4096 h 0) in *. split; [exact Hr|]. split; [exact Hz|].
  apply andb_false_iff in Hexit as [H|H].
  - left. apply Z.ltb_ge in H. lia.
  - right. apply Z.eqb_neq in H. exact H.
Qed.

Lemma scan_code_max_exit (h : list Z) :
  0 <= find_code_max h <= 4095
  /\ (forall j, find_code_max h < j <= 4095 -> aget h j = 0)
  /\ (find_code_max h = 0 \/ aget h (find_code_max h) <> 0).
Proof.
  unfold find_code_max.
  destruct (scan_code_max_spec h 4096 4095 ltac:(lia) ltac:(lia)) as (Hr & Hz & Hexit).
  set (r := scan_code_max 4096 h 4095) in *. split; [exact Hr|]. split; [exact Hz|].
  apply andb_false_iff in Hexit as [H|H].
  - left. rewrite Z.gtb_ltb in H. apply Z.ltb_ge in H. lia.
  - right. apply Z.eqb_neq in H. exact H.
Qed.

(** [build_correction_lut] with its local variables substituted. *)
Lemma build_correction_lut_eq (h : list Z) (cal0 : CalibrationData) :
  build_correction_lut h cal0 =
  mkCalibrationData CAL_MAGIC
    (snd (for_loop 4096 0 1
            (lut_step h (find_code_min h) (find_code_max h)
               (F64.div
                  (F64.of_Z
                     (for_loop (Z.to_nat (find_code_max h - find_code_min h + 1))
                        (find_code_min h) 1
                        (fun i total => wrap_uint64 (total + aget h i)) 0))
                  (F64.of_Z (find_code_max h - find_code_min h + 1))))
            (F64.of_Z 0, correction cal0)))
    (find_code_min h) (find_code_max h).
Proof. reflexivity. Qed.

(** The fields [build_correction_lut] takes from the range scans. *)
Lemma build_correction_lut_range (h : list Z) (cal0 : CalibrationData) :
  magic (build_correction_lut h cal0) = CAL_MAGIC
  /\ adc_min (build_correction_lut h cal0) = find_code_min h
  /\ adc_max (build_correction_lut h cal0) = find_code_max h.
Proof. rewrite build_correction_lut_eq. repeat split. Qed.

(** C5.  When the counts are zero for every code outside [a, b] and nonzero
    at [a] and at [b], the range scans of [build_correction_lut] stop at [a]
    and at [b], and the record it produces, whatever [cal_data] held before,
    has [adc_min = a] and [adc_max = b]. *)
Theorem build_correction_lut_trims_range (h : list Z) (cal0 : CalibrationData) (a b : Z) :
  0 <= a <= b -> b <= 4095 ->
  (forall j, 0 <= j < a -> aget h j = 0) ->
  (forall j, b < j <= 4095 -> aget h j = 0) ->
  aget h a <> 0 -> aget h b <> 0 ->
  find_code_min h = a /\ find_code_max h = b
  /\ adc_min (build_correction_lut h cal0) = a
  /\ adc_max (build_correction_lut h cal0) = b.
Proof.
  intros Hab Hb Hlow Hhigh Ha Hbne.
  destruct (scan_code_min_exit h) as (Hr1 & Hz1 & Hexit1).
  destruct (scan_code_max_exit h) as (Hr2 & Hz2 & Hexit2).
  assert (Hmin : find_code_min h = a).
  { destruct (Z.lt_trichotomy (find_code_min h) a) as [Hlt|[Heq|Hgt]].
    - destruct Hexit1 as [E|E]; [lia|]. exfalso. apply E, Hlow. lia.
    - exact Heq.
    - exfalso. apply Ha, Hz1. lia. }
  assert (Hmax : find_code_max h = b).
  { destruct (Z.lt_trichotomy (find_code_max h) b) as [Hlt|[Heq|Hgt]].
    - exfalso. apply Hbne, Hz2. lia.
    - exact Heq.
    - destruct Hexit2 as [E|E]; [lia|]. exfalso. apply E, Hhigh. lia. }
  destruct (build_correction_lut_range h cal0) as (_ & Hlo & Hhi).
  rewrite Hlo, Hhi. repeat split; assumption.
Qed.

(** Loop invariants for the [for] loop with step 1. *)
Lemma for_loop_range_inv {S : Type} (P : Z -> S -> Prop) (body : Z -> S -> S)
    (lo hi : Z) :
  (forall i s, lo <= i < hi -> P i s -> P (i + 1) (body i s)) ->
  forall n i s,
  lo <= i -> i + Z.of_nat n = hi -> P i s ->
  P hi (for_loop n i 1 body s).
Proof.
  intros Hstep. induction n as [|n IH]; intros i s Hlo Hhi HP.
  - cbn [for_loop]. replace hi with i by lia. exact HP.
  - cbn [for_loop]. apply IH; [lia | lia |]. apply Hstep; [lia | exact HP].
Qed.

Lemma lut_step_edges (h : list Z) (code_min code_max : Z) (e : spec_float)
    (i : Z) (st : spec_float * list Z) :
  0 <= code_max -> 0 <= i < 4096 ->
  lut_edges code_min code_max i (snd st) ->
  lut_edges code_min code_max (i + 1) (snd (lut_step h code_min code_max e i st)).
Proof.
  intros Hmax Hi (Hlen & Hlow & Hhigh).
  destruct st as [cum corr]. cbn [snd] in *. unfold lut_step.
  assert (Hidx : (Z.to_nat i < length corr)%nat) by lia.
  destruct (Z.ltb_spec i code_min) as [Hlt|Hge].
  - cbn [snd]. split; [rewrite length_aset; exact Hlen|].
    split.
    + intros j Hj Hjm. destruct (Z.eq_dec j i) as [->|Hne].
      * apply aget_aset_eq. exact Hidx.
      * rewrite aget_aset_ne by lia. apply Hlow; lia.
    + intros j Hj Hjm. destruct (Z.eq_dec j i) as [->|Hne].
      * rewrite aget_aset_eq by exact Hidx.
        rewrite aget_aset_ne by lia. symmetry. apply Hlow; lia.
      * rewrite !aget_aset_ne by lia. apply Hhigh; lia.
  - destruct (Z.gtb_spec i code_max) as [Hgt|Hle].
    + cbn [snd]. split; [rewrite length_aset; exact Hlen|].
      split.
      * intros j Hj Hjm. rewrite aget_aset_ne by lia. apply Hlow; lia.
      * intros j Hj Hjm. destruct (Z.eq_dec j i) as [->|Hne].
        -- rewrite aget_aset_eq by exact Hidx. rewrite aget_aset_ne by lia. reflexivity.
        -- rewrite !aget_aset_ne by lia. apply Hhigh; lia.
    + cbv zeta. cbn [snd]. split; [rewrite length_aset; exact Hlen|].
      split.
      * intros j Hj Hjm. rewrite aget_aset_ne by lia. apply Hlow; lia.
      * intros j Hj Hjm. lia.
Qed.

Lemma lut_loop_edges (h : list Z) (code_min code_max : Z) (e : spec_float)
    (n : nat) (st : spec_float * list Z) :
  0 <= code_max ->
  Z.of_nat n = 4096 ->
  length (snd st) = 4096%nat ->
  lut_edges code_min code_max 4096
    (snd (for_loop n 0 1 (lut_step h code_min code_max e) st)).
Proof.
  intros Hmax Hn Hlen.
  apply (for_loop_range_inv
           (fun i st => lut_edges code_min code_max i (snd st)) _ 0 4096); [|lia|lia|].
  - intros i s Hi HP. apply lut_step_edges; [lia | lia | exact HP].
  - split; [exact Hlen|]. split; intros; lia.
Qed.

Lemma build_correction_lut_edges (h : list Z) (cal0 : CalibrationData) :
  length (correction cal0) = 4096%nat ->
  lut_edges (find_code_min h) (find_code_max h) 4096
    (correction (build_correction_lut h cal0)).
Proof.
  intros Hlen. rewrite build_correction_lut_eq. cbn [correction].
  destruct (scan_code_max_exit h) as (Hr2 & _).
  apply lut_loop_edges; [lia | reflexivity | exact Hlen].
Qed.


Lemma list_eq_replicate (a : list Z) (n : nat) (v : Z) :
  length a = n ->
  (forall j, 0 <= j < Z.of_nat n -> aget a j = v) ->
  a = replicate n v.
Proof.
  intros Hlen Hall. apply list_eq. intros i.
  destruct (decide (i < n)%nat) as [Hi|Hi].
  - rewrite (lookup_replicate_2 n v i) by exact Hi.
    destruct (lookup_lt_is_Some_2 a i ltac:(lia)) as [x Hx].
    rewrite Hx. f_equal. rewrite <- (Hall (Z.of_nat i)) by lia.
    unfold aget. rewrite Nat2Z.id, Hx. reflexivity.
  - rewrite lookup_ge_None_2 by lia. symmetry.
    apply lookup_replicate_None. lia.
Qed.

Lemma zero_histogram_code_min : find_code_min zero_histogram = 4095.
Proof. vm_compute. reflexivity. Qed.

Lemma zero_histogram_code_max : find_code_max zero_histogram = 0.
Proof. vm_compute. reflexivity. Qed.

(** C10.  On the all-zero histogram [build_correction_lut] returns, from any
    previous content of [cal_data], the record with the inverted range
    [adc_min = 4095], [adc_max = 0], every correction entry 0 and the magic
    number set. *)
Theorem build_correction_lut_zero_histogram (cal0 : CalibrationData) :
  length (correction cal0) = 4096%nat ->
  build_correction_lut zero_histogram cal0 =
  mkCalibrationData CAL_MAGIC (replicate 4096 0) 4095 0.
Proof.
  intros Hlen.
  destruct (build_correction_lut_edges zero_histogram cal0 Hlen) as (Hlen' & Hlow & Hhigh).
  destruct (build_correction_lut_range zero_histogram cal0) as (Hmagic & Hmin & Hmax).
  rewrite zero_histogram_code_min in Hlow, Hmin.
  rewrite zero_histogram_code_max in Hhigh, Hmax.
  destruct (build_correction_lut zero_histogram cal0) as [m corr lo hi].
  cbn [magic correction adc_min adc_max] in *. subst m lo hi. f_equal.
  apply list_eq_replicate; [exact Hlen'|].
  intros j Hj. destruct (Z.eq_dec j 4095) as [->|Hne].
  - rewrite Hhigh by lia. apply Hlow; lia.
  - apply Hlow; lia.
Qed.

(** C1 (what the code does).  On the uniform histogram, every count 100,
    the trimmed range is 0..4095 and [build_correction_lut] writes
    correction 1, not 0, at every code: [ideal_code] is exactly [i + 0.5]
    and [round] takes the halfway case away from zero. *)
Theorem build_correction_lut_uniform_histogram :
  build_correction_lut uniform_histogram cal_zero =
  mkCalibrationData CAL_MAGIC (replicate 4096 1) 0 4095.
Proof. vm_compute. reflexivity. Qed.

(** ** Boundary smoother *)

Lemma aset_aget_id (a : list Z) (i : Z) :
  (Z.to_nat i < length a)%nat -> aset a i (aget a i) = a.
Proof.
  intros Hi. unfold aset, aget.
  destruct (lookup_lt_is_Some_2 a (Z.to_nat i) Hi) as [x Hx].
  rewrite Hx. apply list_insert_id. exact Hx.
Qed.

Section WriteLoop.
(** A loop that stores [f i] at every index [i] it visits. *)
Variable f : Z -> Z.

Lemma write_loop_post (n : nat) :
  forall i corr,
  0 <= i -> (Z.to_nat (i + Z.of_nat n) <= length corr)%nat ->
  length (for_loop n i 1 (write_at f) corr) = length corr
  /\ (forall j, i <= j < i + Z.of_nat n ->
        aget (for_loop n i 1 (write_at f) corr) j = f j)
  /\ (forall j, 0 <= j -> ~ (i <= j < i + Z.of_nat n) ->
        aget (for_loop n i 1 (write_at f) corr) j = aget corr j).
Proof.
  induction n as [|n IH]; intros i corr Hi Hlen.
  - cbn [for_loop]. split; [reflexivity|].
    split; [intros; lia | reflexivity].
  - cbn [for_loop]. unfold write_at at 2 4 6.
    destruct (IH (i + 1) (aset corr i (f i)) ltac:(lia)
                ltac:(rewrite length_aset; lia)) as (Hl & Hin & Hout).
    rewrite length_aset in Hl.
    split; [exact Hl|]. split.
    + intros j Hj. destruct (Z.eq_dec j i) as [->|Hne].
      * rewrite Hout by lia. apply aget_aset_eq. lia.
      * apply Hin. lia.
    + intros j Hj Hnot. rewrite Hout by lia. apply aget_aset_ne; lia.
Qed.

Lemma write_loop_fix (n : nat) :
  forall i corr,
  0 <= i -> (Z.to_nat (i + Z.of_nat n) <= length corr)%nat ->
  (forall j, i <= j < i + Z.of_nat n -> f j = aget corr j) ->
  for_loop n i 1 (write_at f) corr = corr.
Proof.
  induction n as [|n IH]; intros i corr Hi Hlen Hval.
  - reflexivity.
  - cbn [for_loop]. unfold write_at at 2.
    rewrite (Hval i) by lia. rewrite aset_aget_id by lia.
    apply IH; [lia | lia |]. intros j Hj. apply Hval. lia.
Qed.
End WriteLoop.

Lemma smooth_boundary_post (center : Z) (corr : list Z) :
  region_in_table center -> length corr = 4096%nat ->
  length (smooth_boundary center corr) = 4096%nat
  /\ smoothed center (smooth_boundary center corr)
  /\ (forall j, 0 <= j -> ~ (left_index center < j < right_index center) ->
        aget (smooth_boundary center corr) j = aget corr j).
Proof.
  intros [Hl Hr] Hlen. unfold smooth_boundary.
  match goal with
  | |- context [for_loop ?n ?i 1 (write_at ?f) corr] =>
      destruct (write_loop_post f n i corr ltac:(lia) ltac:(lia)) as (Hlen' & Hin & Hout);
      set (corr' := for_loop n i 1 (write_at f) corr) in *
  end.
  assert (Hout' : forall j, 0 <= j ->
            ~ (left_index center < j < right_index center) -> aget corr' j = aget corr j).
  { intros j Hj Hnot. apply Hout; lia. }
  split; [lia|]. split; [|exact Hout'].
  intros j Hj. rewrite !Hout' by lia. symmetry. apply Hin. lia.
Qed.

Lemma smooth_boundary_fix (center : Z) (corr : list Z) :
  region_in_table center -> length corr = 4096%nat ->
  smoothed center corr -> smooth_boundary center corr = corr.
Proof.
  intros [Hl Hr] Hlen Hs. unfold smooth_boundary.
  apply write_loop_fix; [lia | lia |]. intros j Hj. apply Hs. lia.
Qed.

Lemma left_index_inner (c : Z) : 17 <= c -> left_index c = c - 17.
Proof.
  intros Hc. unfold left_index, radius.
  destruct (Z.ltb_spec (c - 16 - 1) 0); lia.
Qed.

Lemma right_index_inner (c : Z) : c <= 4079 -> right_index c = c + 16.
Proof.
  intros Hc. unfold right_index, radius.
  destruct (Z.gtb_spec (c + 16) 4095); lia.
Qed.

Lemma boundaries_separated : separated boundaries.
Proof.
  unfold boundaries, separated, region_in_table.
  rewrite !left_index_inner, !right_index_inner by lia.
  repeat match goal with
         | |- _ /\ _ => split
         | |- Forall _ (_ :: _) => apply Forall_cons_2
         | |- Forall _ [] => apply Forall_nil_2
         | |- True => exact I
         end;
    cbv beta; rewrite ?left_index_inner, ?right_index_inner by lia; lia.
Qed.

Lemma smooth_boundaries_post (bs : list Z) :
  forall corr,
  separated bs -> length corr = 4096%nat ->
  length (smooth_boundaries bs corr) = 4096%nat
  /\ Forall (fun c => smoothed c (smooth_boundaries bs corr)) bs
  /\ (forall j, 0 <= j ->
        Forall (fun c => ~ (left_index c < j < right_index c)) bs ->
        aget (smooth_boundaries bs corr) j = aget corr j).
Proof.
  induction bs as [|c bs IH]; intros corr Hsep Hlen.
  - cbn [smooth_boundaries]. split; [exact Hlen|].
    split; [constructor | reflexivity].
  - cbn [smooth_boundaries]. destruct Hsep as (Hreg & Hdis & Hsep).
    destruct (smooth_boundary_post c corr Hreg Hlen) as (Hlen1 & Hs1 & Hout1).
    set (corr1 := smooth_boundary c corr) in *.
    destruct (IH corr1 Hsep Hlen1) as (Hlen' & Hs' & Hout').
    set (corr' := smooth_boundaries bs corr1) in *.
    assert (Hkeep : forall j, left_index c <= j <= right_index c ->
              aget corr' j = aget corr1 j).
    { intros j Hj. destruct Hreg as [Hl Hr]. apply Hout'; [lia|].
      eapply Forall_impl; [exact Hdis|]. cbn. intros c' Hc'. lia. }
    split; [exact Hlen'|]. split.
    + constructor; [|exact Hs'].
      intros j Hj. rewrite !Hkeep by lia. apply Hs1. exact Hj.
    + intros j Hj Hnot. apply Forall_cons in Hnot as [Hnc Hnot].
      rewrite Hout' by assumption. apply Hout1; assumption.
Qed.

Lemma smooth_boundaries_fix (bs : list Z) (corr : list Z) :
  separated bs -> length corr = 4096%nat ->
  Forall (fun c => smoothed c corr) bs ->
  smooth_boundaries bs corr = corr.
Proof.
  induction bs as [|c bs IH]; intros Hsep Hlen Hs.
  - reflexivity.
  - cbn [smooth_boundaries]. destruct Hsep as (Hreg & _ & Hsep).
    apply Forall_cons in Hs as [Hc Hs].
    rewrite smooth_boundary_fix by assumption. apply IH; assumption.
Qed.

(** Case analysis on which of the four boundaries [c] is. *)
Ltac each_boundary Hc :=
  unfold boundaries in Hc;
  repeat (apply elem_of_cons in Hc as [->|Hc]);
  [..|apply elem_of_nil in Hc; contradiction].

Lemma boundary_region_in_table (c : Z) : c ∈ boundaries -> region_in_table c.
Proof.
  intros Hc. each_boundary Hc; unfold region_in_table;
    rewrite !left_index_inner, !right_index_inner by lia; lia.
Qed.

(** No anchor lies strictly inside the region of a boundary. *)
Lemma anchors_outside_regions (c : Z) :
  c ∈ boundaries ->
  Forall (fun c' => ~ (left_index c' < left_index c < right_index c')) boundaries
  /\ Forall (fun c' => ~ (left_index c' < right_index c < right_index c')) boundaries.
Proof.
  intros Hc. unfold boundaries.
  each_boundary Hc; split; repeat constructor;
    rewrite !left_index_inner, !right_index_inner by lia; lia.
Qed.

(** C4.  For every table, running [smooth_correction_table] twice in
    succession gives the table that running it once gives, and a run leaves
    the two anchor entries of every boundary (and the other fields of the
    record) as they were. *)
Theorem smooth_correction_table_idempotent (cal : CalibrationData) :
  length (correction cal) = 4096%nat ->
  smooth_correction_table (smooth_correction_table cal) = smooth_correction_table cal
  /\ (forall c, c ∈ boundaries ->
        aget (correction (smooth_correction_table cal)) (left_index c)
        = aget (correction cal) (left_index c)
        /\ aget (correction (smooth_correction_table cal)) (right_index c)
           = aget (correction cal) (right_index c))
  /\ length (correction (smooth_correction_table cal)) = 4096%nat
  /\ magic (smooth_correction_table cal) = magic cal
  /\ adc_min (smooth_correction_table cal) = adc_min cal
  /\ adc_max (smooth_correction_table cal) = adc_max cal.
Proof.
  intros Hlen. unfold smooth_correction_table. cbn [correction magic adc_min adc_max].
  destruct (smooth_boundaries_post boundaries (correction cal) boundaries_separated Hlen)
    as (Hlen' & Hs & Hout).
  split.
  - rewrite (smooth_boundaries_fix boundaries _ boundaries_separated Hlen' Hs).
    reflexivity.
  - split; [|repeat split; exact Hlen'].
    intros c Hc.
    destruct (anchors_outside_regions c Hc) as [Hleft Hright].
    destruct (boundary_region_in_table c Hc) as [Hl Hr].
    split; apply Hout; (lia || assumption).
Qed.

(** ** Histogram collector *)

Lemma hist_total_insert (h : list Z) (i : nat) (x v : Z) :
  h !! i = Some x -> hist_total (<[i := v]> h) = hist_total h - x + v.
Proof.
  unfold hist_total. revert i. induction h as [|y h IH]; intros i Hx; [discriminate|].
  destruct i as [|i].
  - injection Hx as ->. cbn [foldr]. change (<[0%nat := v]> (x :: h)) with (v :: h).
    cbn [foldr]. lia.
  - change (<[S i := v]> (y :: h)) with (y :: <[i := v]> h). cbn [foldr].
    rewrite (IH i Hx). lia.
Qed.

Lemma hist_total_lookup_le (h : list Z) (i : nat) (x : Z) :
  Forall (fun c => 0 <= c) h -> h !! i = Some x -> x <= hist_total h.
Proof.
  unfold hist_total.
  intros Hpos. revert i. induction Hpos as [|y h Hy Hpos IH]; intros i Hx; [discriminate|].
  assert (0 <= foldr Z.add 0 h).
  { clear -Hpos. induction Hpos; cbn; lia. }
  destruct i as [|i]; cbn [foldr].
  - injection Hx as ->. lia.
  - specialize (IH i Hx). lia.
Qed.

Lemma hist_total_replicate_zero (n : nat) : hist_total (replicate n 0) = 0.
Proof. induction n as [|n IH]; cbn; [reflexivity | exact IH]. Qed.

(** Invariants of the counted [for] loop: [P k] holds after [k] trips. *)
Lemma for_loop_inv {S : Type} (P : nat -> S -> Prop) (body : Z -> S -> S) (step : Z)
    (n : nat) :
  (forall k i s, (k < n)%nat -> P k s -> P (Datatypes.S k) (body i s)) ->
  forall i s, P O s -> P n (for_loop n i step body s).
Proof.
  intros Hstep.
  assert (Hgen : forall m k i s, (k + m = n)%nat -> P k s ->
                   P n (for_loop m i step body s)).
  { induction m as [|m IH]; intros k i s Hk HP.
    - cbn. replace n with k by lia. exact HP.
    - cbn [for_loop]. apply (IH (Datatypes.S k)); [lia|].
      apply Hstep; [lia | exact HP]. }
  intros i s HP. apply (Hgen n O); [lia | exact HP].
Qed.

Section Collection.
Variable pio_sm_is_tx_fifo_full : nat -> bool.
Variable adc_read : nat -> Z.
Variable settle_spins : nat -> Z -> nat.
Variable SAMPLES_PER_LEVEL : Z.
Variable r0 : nat.

Lemma discarded_last (n : nat) :
forall k,
discarded adc_read k (S n) =
discarded adc_read k n + (if wrap_uint16 (adc_read (k + n)) <? 4096 then 0 else 1).
Proof.
induction n as [|n IH]; intros k.
- cbn [discarded]. rewrite Nat.add_0_r. lia.
- change (discarded adc_read k (S (S n)))
    with ((if wrap_uint16 (adc_read k) <? 4096 then 0 else 1)
          + discarded adc_read (S k) (S n)).
  rewrite IH. cbn [discarded]. replace (S k + n)%nat with (k + S n)%nat by lia. lia.
Qed.

Lemma discarded_bounds (n : nat) : forall k, 0 <= discarded adc_read k n <= Z.of_nat n.
Proof.
induction n as [|n IH]; intros k; cbn [discarded]; [lia|].
specialize (IH (S k)). destruct (_ <? 4096); lia.
Qed.

Lemma feed_frame (m : Sketch) :
sk_histogram (feed pio_sm_is_tx_fifo_full m) = sk_histogram m
/\ sk_reads (feed pio_sm_is_tx_fifo_full m) = sk_reads m.
Proof.
unfold feed. destruct (dac_feed_one _ _) as [ok d]. split; reflexivity.
Qed.

Lemma settle_frame (level us : Z) (m : Sketch) :
let m' := dac_set_and_settle pio_sm_is_tx_fifo_full settle_spins level us m in
sk_histogram m' = sk_histogram m /\ sk_reads m' = sk_reads m.
Proof.
unfold dac_set_and_settle.
apply (for_loop_inv
         (fun _ m' => sk_histogram m' = sk_histogram m /\ sk_reads m' = sk_reads m)).
- intros k i s _ [Hh Hr]. destruct (feed_frame s) as [Hh' Hr'].
  split; congruence.
- split; reflexivity.
Qed.

Lemma sample_once_tallied (n : nat) (m : Sketch) :
Z.of_nat n + 1 < 2 ^ 32 ->
tallied adc_read r0 n m ->
tallied adc_read r0 (S n) (sample_once pio_sm_is_tx_fifo_full adc_read m).
Proof.
intros Hn (Hr & Hlen & Hpos & Htot).
destruct (feed_frame m) as [Hh' Hr'].
unfold sample_once, tallied.
cbn [sk_reads sk_histogram]. rewrite Hh', Hr', Hr, discarded_last.
set (code := wrap_uint16 (adc_read (r0 + n))).
assert (Hcode : 0 <= code < 2 ^ 16) by (apply Z.mod_pos_bound; lia).
split; [lia|].
destruct (Z.ltb_spec code 4096) as [Hin|Hout].
- assert (Hidx : (Z.to_nat code < length (sk_histogram m))%nat) by lia.
  destruct (lookup_lt_is_Some_2 _ _ Hidx) as [x Hx].
  assert (Hget : aget (sk_histogram m) code = x) by (unfold aget; rewrite Hx; reflexivity).
  pose proof (hist_total_lookup_le _ _ _ Hpos Hx) as Hle.
  assert (0 <= x) by (eapply Forall_lookup_1 in Hpos; [exact Hpos | exact Hx]).
  pose proof (discarded_bounds n r0) as Hd.
  assert (Hw : wrap_uint32 (x + 1) = x + 1) by (apply Z.mod_small; lia).
  rewrite Hget, Hw. unfold aset.
  split; [rewrite length_insert; exact Hlen|].
  split; [apply Forall_insert; [exact Hpos | lia]|].
  rewrite (hist_total_insert _ _ x) by exact Hx. lia.
- split; [exact Hlen|]. split; [exact Hpos|]. lia.
Qed.

Lemma sweep_tallied (ascending : bool) (n : nat) (m : Sketch) :
0 <= SAMPLES_PER_LEVEL ->
Z.of_nat n + 4096 * SAMPLES_PER_LEVEL < 2 ^ 32 ->
tallied adc_read r0 n m ->
tallied adc_read r0 (n + 4096 * Z.to_nat SAMPLES_PER_LEVEL)
  (collect_histogram_sweep pio_sm_is_tx_fifo_full adc_read settle_spins
     SAMPLES_PER_LEVEL ascending m).
Proof.
intros HS Hn Hm. unfold collect_histogram_sweep.
set (trips := Z.to_nat (Z.abs ((if ascending then 4095 else 0)
                               - (if ascending then 0 else 4095)) + 1)).
assert (Htrips : trips = 4096%nat) by (subst trips; destruct ascending; reflexivity).
replace (n + 4096 * Z.to_nat SAMPLES_PER_LEVEL)%nat
  with (n + trips * Z.to_nat SAMPLES_PER_LEVEL)%nat by (rewrite Htrips; reflexivity).
apply (for_loop_inv
         (fun k m' => tallied adc_read r0 (n + k * Z.to_nat SAMPLES_PER_LEVEL) m')).
- intros k level s Hk Hs.
  replace (n + S k * Z.to_nat SAMPLES_PER_LEVEL)%nat
    with ((n + k * Z.to_nat SAMPLES_PER_LEVEL) + Z.to_nat SAMPLES_PER_LEVEL)%nat by lia.
  apply (for_loop_inv
           (fun j m' => tallied adc_read r0 ((n + k * Z.to_nat SAMPLES_PER_LEVEL) + j) m')).
  + intros j i s' Hj Hs'.
    replace (n + k * Z.to_nat SAMPLES_PER_LEVEL + S j)%nat
      with (S (n + k * Z.to_nat SAMPLES_PER_LEVEL + j)) by lia.
    apply sample_once_tallied; [|exact Hs']. nia.
  + rewrite Nat.add_0_r.
    destruct (settle_frame (wrap_uint16 level) SETTLE_US s) as [Hh Hr].
    destruct Hs as (H1 & H2 & H3 & H4).
    unfold tallied. rewrite Hh, Hr. repeat split; assumption.
- rewrite Nat.mul_0_l, Nat.add_0_r. exact Hm.
Qed.
End Collection.

(** The level loop of a sweep stops because its condition fails after
    exactly 4096 trips. *)
Lemma sweep_trip_count (ascending : bool) :
  let start := if ascending then 0 else 4095 in
  let end_ := if ascending then 4095 else 0 in
  let step := if ascending then 1 else -1 in
  let trips := Z.abs (end_ - start) + 1 in
  trips = 4096
  /\ (forall k, 0 <= k < trips -> sweep_continues ascending (start + k * step) = true)
  /\ sweep_continues ascending (start + trips * step) = false.
Proof.
  destruct ascending; cbv zeta; unfold sweep_continues.
  - split; [reflexivity|]. split.
    + intros k Hk. apply Z.leb_le. lia.
    + reflexivity.
  - split; [reflexivity|]. split.
    + intros k Hk. apply Z.geb_le. lia.
    + reflexivity.
Qed.

Lemma tallied_frame (adc_read : nat -> Z) (r0 n : nat) (d : DacState) (p st : nat)
    (x : Sketch) :
  tallied adc_read r0 n x ->
  tallied adc_read r0 n (mkSketch d (sk_histogram x) p (sk_reads x) st).
Proof. intros H. exact H. Qed.

Lemma sweeps_tallied (pio_sm_is_tx_fifo_full : nat -> bool) (adc_read : nat -> Z)
    (settle_spins : nat -> Z -> nat) (SAMPLES_PER_LEVEL : Z) (r0 sweeps : nat) (m : Sketch) :
  0 <= SAMPLES_PER_LEVEL ->
  Z.of_nat sweeps * 4096 * SAMPLES_PER_LEVEL < 2 ^ 32 ->
  tallied adc_read r0 0 m ->
  tallied adc_read r0 (sweeps * (4096 * Z.to_nat SAMPLES_PER_LEVEL))
    (for_loop sweeps 0 1
       (fun sweep m =>
          collect_histogram_sweep pio_sm_is_tx_fifo_full adc_read settle_spins
            SAMPLES_PER_LEVEL (Z.rem sweep 2 =? 0) m)
       m).
Proof.
  intros HS HN Hm.
  apply (for_loop_inv
           (fun k m' => tallied adc_read r0 (k * (4096 * Z.to_nat SAMPLES_PER_LEVEL)) m')).
  - intros k sweep s Hk Hs.
    replace (S k * (4096 * Z.to_nat SAMPLES_PER_LEVEL))%nat
      with (k * (4096 * Z.to_nat SAMPLES_PER_LEVEL)
            + 4096 * Z.to_nat SAMPLES_PER_LEVEL)%nat by lia.
    apply sweep_tallied; [exact HS | | exact Hs]. nia.
  - exact Hm.
Qed.

(** C9.  [collect_histogram] starts from 4096 zeroed counters whatever the
    histogram held before (its result does not depend on it), and when it
    returns, the counters add up to the [NUM_SWEEPS * 4096 *
    SAMPLES_PER_LEVEL] conversions of the run less those whose code was not
    below 4096.  [NUM_SWEEPS] is 4; the per-level sample count is a
    parameter that the run must not let overflow a 32-bit counter (128
    satisfies this). *)
Theorem collect_histogram_conserves_samples
    (pio_sm_is_tx_fifo_full : nat -> bool) (adc_read : nat -> Z)
    (settle_spins : nat -> Z -> nat) (SAMPLES_PER_LEVEL : Z) (m : Sketch) :
  0 <= SAMPLES_PER_LEVEL ->
  NUM_SWEEPS * 4096 * SAMPLES_PER_LEVEL < 2 ^ 32 ->
  let collect :=
    collect_histogram pio_sm_is_tx_fifo_full adc_read settle_spins SAMPLES_PER_LEVEL in
  let N := NUM_SWEEPS * 4096 * SAMPLES_PER_LEVEL in
  (forall h0,
     collect (mkSketch (sk_dac m) h0 (sk_polls m) (sk_reads m) (sk_settles m)) = collect m)
  /\ sk_reads (collect m) = (sk_reads m + Z.to_nat N)%nat
  /\ length (sk_histogram (collect m)) = 4096%nat
  /\ hist_total (sk_histogram (collect m)) =
     N - discarded adc_read (sk_reads m) (Z.to_nat N).
Proof.
  intros HS HN collect N. split.
  - intros h0. reflexivity.
  - assert (Hrun : tallied adc_read (sk_reads m)
                     (4 * (4096 * Z.to_nat SAMPLES_PER_LEVEL)) (collect m)).
    { subst collect. unfold collect_histogram.
      change (Z.to_nat NUM_SWEEPS) with 4%nat.
      apply tallied_frame. apply sweeps_tallied; [exact HS | exact HN |].
      unfold tallied. cbn [sk_reads sk_histogram].
      split; [lia|]. split; [apply length_replicate|].
      split; [apply Forall_replicate; lia|].
      rewrite hist_total_replicate_zero. reflexivity. }
    assert (HNat : (4 * (4096 * Z.to_nat SAMPLES_PER_LEVEL))%nat = Z.to_nat N).
    { subst N. unfold NUM_SWEEPS. lia. }
    rewrite HNat in Hrun.
    destruct Hrun as (H1 & H2 & _ & H4). split; [exact H1|]. split; [exact H2|].
    rewrite H4. subst N. unfold NUM_SWEEPS in *. lia.
Qed.

(** ** Memory images *)

Lemma Z_of_byte_range (b : byte) : 0 <= Z_of_byte b < 256.
Proof.
  unfold Z_of_byte. pose proof (Byte.to_N_bounded b). lia.
Qed.

Lemma Z_of_byte_of_Z (z : Z) : Z_of_byte (byte_of_Z z) = z mod 256.
Proof.
  unfold Z_of_byte, byte_of_Z.
  assert (Hm : 0 <= z mod 256 < 256) by (apply Z.mod_pos_bound; lia).
  destruct (Byte.of_N (Z.to_N (z mod 256))) as [b|] eqn:E.
  - apply Byte.to_of_N in E. simpl. rewrite E. lia.
  - apply Byte.of_N_None_iff in E. lia.
Qed.

Lemma length_le_encode (n : nat) : forall z, length (le_encode n z) = n.
Proof.
  induction n as [|n IH]; intros z; cbn [le_encode length]; [reflexivity|].
  rewrite IH. reflexivity.
Qed.

Lemma le_decode_encode (n : nat) : forall z, le_decode (le_encode n z) = z mod 256 ^ Z.of_nat n.
Proof.
  induction n as [|n IH]; intros z.
  - cbn [le_encode le_decode]. change (256 ^ Z.of_nat 0) with 1. rewrite Z.mod_1_r. reflexivity.
  - cbn [le_encode le_decode]. rewrite IH, Z_of_byte_of_Z.
    rewrite Nat2Z.inj_succ, Z.pow_succ_r by lia.
    rewrite Z.rem_mul_r by lia. reflexivity.
Qed.

Lemma wrap_int16_encode (v : Z) : in_int16 v -> wrap_int16 (v mod 256 ^ Z.of_nat 2) = v.
Proof.
  unfold in_int16, wrap_int16. intros Hv. change (256 ^ Z.of_nat 2) with 65536.
  rewrite Z.add_mod_idemp_l by lia. rewrite Z.mod_small by lia. lia.
Qed.

Section Chunks.
(** Elements encoded in [w] bytes each. *)
Context {A : Type} (enc : A -> list byte) (w : nat).
Hypothesis enc_length : forall x, length (enc x) = w.

Lemma length_flat_map_const (l : list A) : length (flat_map enc l) = (w * length l)%nat.
Proof.
  induction l as [|x l IH]; cbn [flat_map length]; [lia|].
  rewrite length_app, enc_length, IH. lia.
Qed.

Lemma flat_map_chunk (l : list A) (rest : list byte) :
  forall i x, l !! i = Some x ->
  take w (drop (w * i) (flat_map enc l ++ rest)) = enc x.
Proof.
  induction l as [|y l IH]; intros i x Hx; [discriminate|].
  cbn [flat_map]. rewrite <- app_assoc. destruct i as [|i].
  - injection Hx as ->. rewrite Nat.mul_0_r. cbn [drop].
    apply take_app_length'. symmetry. apply enc_length.
  - replace (w * S i)%nat with (length (enc y) + w * i)%nat
      by (rewrite enc_length; lia).
    rewrite drop_app_add. apply IH. exact Hx.
Qed.
End Chunks.

Lemma field_encode (pre rest mem : list byte) (off w : Z) (n : nat) (z : Z) :
  mem = pre ++ le_encode n z ++ rest ->
  off = Z.of_nat (length pre) -> w = Z.of_nat n ->
  field off w mem = z mod 256 ^ w.
Proof.
  intros -> -> ->. unfold field. rewrite !Nat2Z.id, drop_app_length.
  rewrite take_app_length' by (symmetry; apply length_le_encode).
  apply le_decode_encode.
Qed.

Lemma field_app_l (pre post : list byte) (off w : Z) :
  0 <= off -> 0 <= w -> off + w <= Z.of_nat (length pre) ->
  field off w (pre ++ post) = field off w pre.
Proof.
  intros Hoff Hw Hlen. unfold field.
  rewrite drop_app_le by lia. rewrite take_app_le; [reflexivity|].
  rewrite length_drop. lia.
Qed.

Lemma field_app_r (pre orig : list byte) (off w : Z) :
  Z.of_nat (length pre) <= off ->
  field off w (pre ++ drop (length pre) orig) = field off w orig.
Proof.
  intros Hoff. unfold field. rewrite drop_app_ge by lia.
  rewrite drop_drop. do 2 f_equal. f_equal. lia.
Qed.

Lemma field_take (l : list byte) (m : nat) (off w : Z) :
  0 <= off -> 0 <= w -> off + w <= Z.of_nat m ->
  field off w (take m l) = field off w l.
Proof.
  intros Hoff Hw Hm. unfold field.
  replace m with (Z.to_nat off + (m - Z.to_nat off))%nat at 1 by lia.
  rewrite <- take_drop_commute, take_take. do 2 f_equal. lia.
Qed.

Lemma length_cal_of_bytes (mem : list byte) : length (correction (cal_of_bytes mem)) = 4096%nat.
Proof.
  unfold cal_of_bytes. cbn [correction]. rewrite length_fmap, length_seqZ. reflexivity.
Qed.

Lemma correction_of_bytes (mem : list byte) (k : Z) :
  0 <= k < 4096 ->
  aget (correction (cal_of_bytes mem)) k = wrap_int16 (field (4 + 2 * k) 2 mem).
Proof.
  intros Hk. unfold cal_of_bytes, aget. cbn [correction].
  rewrite list_lookup_fmap, lookup_seqZ_lt by lia.
  cbn [fmap option_fmap option_map default]. unfold id.
  replace (0 + Z.of_nat (Z.to_nat k)) with k by lia. reflexivity.
Qed.

Lemma length_cal_to_bytes (c : CalibrationData) :
  length (correction c) = 4096%nat -> Z.of_nat (length (cal_to_bytes c)) = sizeof_cal_data.
Proof.
  intros Hlen. unfold cal_to_bytes, sizeof_cal_data.
  rewrite !length_app, !length_le_encode.
  rewrite (length_flat_map_const (le_encode 2) 2 (length_le_encode 2)), Hlen. lia.
Qed.

(** Decoding the image of a record gives the record back, whatever
    follows the image. *)
Lemma cal_of_to_bytes (c : CalibrationData) (rest : list byte) :
  cal_wf c -> cal_of_bytes (cal_to_bytes c ++ rest) = c.
Proof.
  intros [Hmagic Hlen Hcorr Hmin Hmax]. destruct c as [m corr lo hi].
  cbn [magic correction adc_min adc_max] in *.
  assert (Hfm : Z.of_nat (length (flat_map (le_encode 2) corr)) = 8192).
  { rewrite (length_flat_map_const (le_encode 2) 2 (length_le_encode 2)), Hlen. lia. }
  unfold cal_of_bytes, cal_to_bytes. cbn [magic correction adc_min adc_max].
  f_equal.
  - rewrite (field_encode [] (flat_map (le_encode 2) corr ++ le_encode 2 lo
                               ++ le_encode 2 hi ++ rest) _ 0 4 4 m).
    + apply Z.mod_small. exact Hmagic.
    + rewrite <- !app_assoc. reflexivity.
    + reflexivity.
    + reflexivity.
  - apply list_eq. intros i.
    destruct (decide (i < 4096)%nat) as [Hi|Hi].
    + rewrite list_lookup_fmap, lookup_seqZ_lt by lia.
      cbn [fmap option_fmap option_map].
      destruct (lookup_lt_is_Some_2 corr i ltac:(lia)) as [v Hv]. rewrite Hv. f_equal.
      unfold field. rewrite <- !app_assoc.
      replace (Z.to_nat (4 + 2 * (0 + Z.of_nat i))) with (length (le_encode 4 m) + 2 * i)%nat
        by (rewrite length_le_encode; lia).
      rewrite drop_app_add.
      change (Z.to_nat 2) with 2%nat.
      rewrite (flat_map_chunk (le_encode 2) 2 (length_le_encode 2) corr _ i v Hv).
      rewrite le_decode_encode. apply wrap_int16_encode.
      eapply Forall_lookup_1 in Hcorr; [exact Hcorr | exact Hv].
    + rewrite lookup_ge_None_2 by (rewrite length_fmap, length_seqZ; lia).
      symmetry. apply lookup_ge_None_2. lia.
  - rewrite (field_encode (le_encode 4 m ++ flat_map (le_encode 2) corr)
               (le_encode 2 hi ++ rest) _ 8196 2 2 lo).
    + apply Z.mod_small. exact Hmin.
    + rewrite <- !app_assoc. reflexivity.
    + rewrite length_app, length_le_encode. lia.
    + reflexivity.
  - rewrite (field_encode (le_encode 4 m ++ flat_map (le_encode 2) corr ++ le_encode 2 lo)
               rest _ 8198 2 2 hi).
    + apply Z.mod_small. exact Hmax.
    + rewrite <- !app_assoc. reflexivity.
    + rewrite !length_app, !length_le_encode. lia.
    + reflexivity.
Qed.

(** ** Persistence *)

Lemma length_chunk (data : list byte) :
  Z.of_nat (length (take (Z.to_nat sizeof_cal_data) data)) = bytes_read data sizeof_cal_data.
Proof. unfold bytes_read, sizeof_cal_data. rewrite length_take. lia. Qed.

Lemma load_calibration_unmounted (fs : LittleFS) (cal : CalibrationData) :
  fs_mounts fs = false -> load_calibration fs cal = (false, cal).
Proof. intros H. unfold load_calibration. rewrite H. reflexivity. Qed.

Lemma load_calibration_absent (fs : LittleFS) (cal : CalibrationData) :
  fs_files fs !! cal_path = None -> load_calibration fs cal = (false, cal).
Proof.
  intros H. unfold load_calibration, fs_open_r.  rewrite H.
  destruct (fs_mounts fs); reflexivity.
Qed.

Lemma load_calibration_read (fs : LittleFS) (cal : CalibrationData) (data : list byte) :
  fs_mounts fs = true -> fs_files fs !! cal_path = Some data ->
  load_calibration fs cal =
  ((bytes_read data sizeof_cal_data =? sizeof_cal_data)
   && (magic (overlay data cal) =? CAL_MAGIC),
   overlay data cal).
Proof.
  intros Hm Hf. unfold load_calibration, fs_open_r.  rewrite Hm, Hf.
  cbn [negb]. unfold file_read. cbn [f_data f_pos]. change (Z.to_nat 0) with 0%nat.
  rewrite drop_0, length_chunk. fold (overlay data cal).
  destruct (_ && _); reflexivity.
Qed.

Lemma magic_overlay (data : list byte) (cal : CalibrationData) :
  4 <= Z.of_nat (length data) -> magic (overlay data cal) = field 0 4 data.
Proof.
  intros Hlen. unfold overlay, cal_of_bytes. cbn [magic].
  rewrite field_app_l; [|lia|lia|rewrite length_chunk; unfold bytes_read, sizeof_cal_data; lia].
  apply field_take; unfold sizeof_cal_data; lia.
Qed.

(** C7.  [load_calibration] answers true exactly when the store mounts, the
    file exists, the read returns the full record size and the magic field
    read from the file is 0xCA11B8ED; a short read or another magic number
    gives false.  When it answers true the record in memory carries the
    magic number. *)
Theorem load_calibration_valid_iff (fs : LittleFS) (cal : CalibrationData) :
  (fst (load_calibration fs cal) = true <->
   fs_mounts fs = true
   /\ exists data, fs_files fs !! cal_path = Some data
        /\ bytes_read data sizeof_cal_data = sizeof_cal_data
        /\ field 0 4 data = CAL_MAGIC)
  /\ (fst (load_calibration fs cal) = true -> magic (snd (load_calibration fs cal)) = CAL_MAGIC).
Proof.
  destruct (fs_mounts fs) eqn:Hm.
  2:{ rewrite load_calibration_unmounted by exact Hm. cbn [fst].
      split; [split|]; [discriminate | intros [? _]; discriminate | discriminate]. }
  destruct (fs_files fs !! cal_path) as [data|] eqn:Hf.
  2:{ rewrite load_calibration_absent by exact Hf. cbn [fst].
      split; [split|]; [discriminate | intros (_ & d & ? & _); discriminate | discriminate]. }
  rewrite (load_calibration_read fs cal data Hm Hf). cbn [fst snd].
  split; [split|].
  - intros H. apply andb_true_iff in H as [Hb Hmg].
    apply Z.eqb_eq in Hb, Hmg. split; [reflexivity|]. exists data.
    split; [reflexivity|]. split; [exact Hb|].
    rewrite <- magic_overlay with (cal := cal); [exact Hmg|].
    unfold bytes_read, sizeof_cal_data in Hb. lia.
  - intros (_ & d & Hd & Hb & Hmg). injection Hd as <-.
    apply andb_true_iff. split; [apply Z.eqb_eq; exact Hb|].
    apply Z.eqb_eq. rewrite magic_overlay; [exact Hmg|].
    unfold bytes_read, sizeof_cal_data in Hb. lia.
  - intros H. apply andb_true_iff in H as [_ Hmg]. apply Z.eqb_eq in Hmg. exact Hmg.
Qed.

Lemma overlay_full (cal cal0 : CalibrationData) :
  cal_wf cal -> overlay (cal_to_bytes cal) cal0 = cal.
Proof.
  intros Hwf. unfold overlay.
  rewrite take_ge by (pose proof (length_cal_to_bytes cal (wf_len _ Hwf)); lia).
  apply cal_of_to_bytes. exact Hwf.
Qed.

Lemma fs_store_creatable (fs : LittleFS) (path : string) (data : list byte) :
  fs_creatable (fs_store fs path data) = fs_creatable fs.
Proof. reflexivity. Qed.

Lemma fs_store_mounts (fs : LittleFS) (path : string) (data : list byte) :
  fs_mounts (fs_store fs path data) = fs_mounts fs.
Proof. reflexivity. Qed.

Lemma fs_store_lookup (fs : LittleFS) (path : string) (data : list byte) :
  fs_files (fs_store fs path data) !! path = Some data.
Proof. unfold fs_store. cbn [fs_files]. apply lookup_insert_eq. Qed.

(** The two files [save_calibration] writes on a mounted store. *)
Lemma save_files_stores (fs : LittleFS) (csv bin : list byte) :
  fs_mounts fs = true -> fs_creatable fs cal_path = true ->
  let fs1 := if fs_creatable fs "/adc_cal.csv" then fs_store fs "/adc_cal.csv" csv else fs in
  let fs2 := if fs_creatable fs1 cal_path then fs_store fs1 cal_path bin else fs1 in
  fs_mounts fs2 = true /\ fs_files fs2 !! cal_path = Some bin.
Proof.
  intros Hm Hc fs1 fs2.
  assert (Hc1 : fs_creatable fs1 cal_path = true).
  { subst fs1. destruct (fs_creatable fs "/adc_cal.csv");
      [rewrite fs_store_creatable|]; exact Hc. }
  assert (Hm1 : fs_mounts fs1 = true).
  { subst fs1. destruct (fs_creatable fs "/adc_cal.csv");
      [rewrite fs_store_mounts|]; exact Hm. }
  subst fs2. rewrite Hc1. rewrite fs_store_mounts, fs_store_lookup.
  split; [exact Hm1 | reflexivity].
Qed.

Lemma save_calibration_stores (fs : LittleFS) (h : list Z) (cal : CalibrationData) :
  fs_mounts fs = true \/ fs_mounts_formatted fs = true ->
  fs_creatable fs cal_path = true ->
  fs_mounts (save_calibration fs h cal) = true
  /\ fs_files (save_calibration fs h cal) !! cal_path = Some (cal_to_bytes cal).
Proof.
  intros Hmount Hcreate. unfold save_calibration. 
  destruct (fs_mounts fs) eqn:Hm.
  - cbn [negb]. apply save_files_stores; assumption.
  - destruct Hmount as [Hmount|Hmount]; [discriminate|].
    assert (Hm' : fs_mounts (fs_format fs) = true) by exact Hmount.
    rewrite Hm'. cbn [negb]. apply save_files_stores; assumption.
Qed.

(** C8.  On a store that mounts (at once or after formatting) and lets the
    file be written, [save_calibration] stores the image of the record, and
    [load_calibration] from that store, over whatever record memory held,
    gives back the same magic number, correction table and range; the image
    of the loaded record is the stored image byte for byte.  The load
    answers true when the record carries the magic number. *)
Theorem save_load_round_trip (fs : LittleFS) (h : list Z) (cal cal0 : CalibrationData) :
  cal_wf cal ->
  fs_mounts fs = true \/ fs_mounts_formatted fs = true ->
  fs_creatable fs cal_path = true ->
  let fs' := save_calibration fs h cal in
  fs_files fs' !! cal_path = Some (cal_to_bytes cal)
  /\ snd (load_calibration fs' cal0) = cal
  /\ cal_to_bytes (snd (load_calibration fs' cal0)) = cal_to_bytes cal
  /\ fst (load_calibration fs' cal0) = (magic cal =? CAL_MAGIC).
Proof.
  intros Hwf Hmount Hcreate fs'.
  destruct (save_calibration_stores fs h cal Hmount Hcreate) as [Hm Hf].
  fold fs' in Hm, Hf.
  rewrite (load_calibration_read fs' cal0 _ Hm Hf). cbn [fst snd].
  rewrite overlay_full by exact Hwf.
  split; [exact Hf|]. split; [reflexivity|]. split; [reflexivity|].
  unfold bytes_read. rewrite (length_cal_to_bytes cal (wf_len _ Hwf)).
  rewrite Z.min_id, Z.eqb_refl. reflexivity.
Qed.

(** What a read leaves in the correction table: an entry the read did not
    reach keeps its value, an entry that lies within the bytes read takes
    the value found in the file. *)
Lemma overlay_correction (data : list byte) (cal : CalibrationData) (k : Z) :
  cal_wf cal -> 0 <= k < 4096 ->
  (bytes_read data sizeof_cal_data <= 4 + 2 * k ->
     aget (correction (overlay data cal)) k = aget (correction cal) k)
  /\ (4 + 2 * k + 2 <= bytes_read data sizeof_cal_data ->
     aget (correction (overlay data cal)) k = wrap_int16 (field (4 + 2 * k) 2 data)).
Proof.
  intros Hwf Hk. unfold overlay. rewrite correction_of_bytes by exact Hk.
  pose proof (length_chunk data) as Hlen.
  split; intros Hn.
  - rewrite field_app_r by lia.
    rewrite <- correction_of_bytes by exact Hk.
    rewrite <- (app_nil_r (cal_to_bytes cal)).
    rewrite cal_of_to_bytes by exact Hwf. reflexivity.
  - rewrite field_app_l by lia. rewrite field_take; [reflexivity|lia|lia|].
    unfold bytes_read, sizeof_cal_data in *. lia.
Qed.

(** *** From bytes to a record and back *)

Lemma byte_of_Z_of_byte (b : byte) (r : Z) : byte_of_Z (Z_of_byte b + 256 * r) = b.
Proof.
  unfold byte_of_Z. pose proof (Z_of_byte_range b) as Hb.
  replace (Z_of_byte b + 256 * r) with (Z_of_byte b + r * 256) by lia.
  rewrite Z.mod_add by lia. rewrite Z.mod_small by exact Hb.
  unfold Z_of_byte. rewrite N2Z.id, Byte.of_to_N. reflexivity.
Qed.

Lemma le_encode_decode (bs : list byte) : le_encode (length bs) (le_decode bs) = bs.
Proof.
  induction bs as [|b bs IH]; [reflexivity|].
  cbn [length le_encode le_decode]. rewrite byte_of_Z_of_byte. f_equal.
  pose proof (Z_of_byte_range b) as Hb.
  replace ((Z_of_byte b + 256 * le_decode bs) / 256) with (le_decode bs); [exact IH|].
  replace (Z_of_byte b + 256 * le_decode bs) with (Z_of_byte b + le_decode bs * 256) by lia.
  rewrite Z.div_add by lia.
  rewrite (Z.div_small (Z_of_byte b)) by exact Hb. lia.
Qed.

Lemma le_decode_bound (bs : list byte) : 0 <= le_decode bs < 256 ^ Z.of_nat (length bs).
Proof.
  induction bs as [|b bs IH]; cbn [le_decode length].
  - change (256 ^ Z.of_nat 0) with 1. lia.
  - pose proof (Z_of_byte_range b) as Hb.
    rewrite Nat2Z.inj_succ, Z.pow_succ_r by lia. lia.
Qed.

Lemma field_bound (off w : Z) (mem : list byte) : 0 <= w -> 0 <= field off w mem < 256 ^ w.
Proof.
  intros Hw. unfold field.
  pose proof (le_decode_bound (take (Z.to_nat w) (drop (Z.to_nat off) mem))) as Hb.
  assert (Hlen : Z.of_nat (length (take (Z.to_nat w) (drop (Z.to_nat off) mem))) <= w).
  { rewrite length_take. lia. }
  assert (256 ^ Z.of_nat (length (take (Z.to_nat w) (drop (Z.to_nat off) mem))) <= 256 ^ w).
  { apply Z.pow_le_mono_r; lia. }
  lia.
Qed.

(** Whatever bytes are decoded, the fields hold values of their types. *)
Lemma cal_of_bytes_wf (mem : list byte) : cal_wf (cal_of_bytes mem).
Proof.
  split; unfold cal_of_bytes; cbn [magic correction adc_min adc_max].
  - pose proof (field_bound 0 4 mem ltac:(lia)). unfold in_uint32.
    change (256 ^ 4) with (2 ^ 32) in *. lia.
  - rewrite length_fmap, length_seqZ. reflexivity.
  - apply Forall_fmap, Forall_forall. intros k _. apply wrap_int16_range.
  - pose proof (field_bound 8196 2 mem ltac:(lia)). unfold in_uint16.
    change (256 ^ 2) with (2 ^ 16) in *. lia.
  - pose proof (field_bound 8198 2 mem ltac:(lia)). unfold in_uint16.
    change (256 ^ 2) with (2 ^ 16) in *. lia.
Qed.

Lemma byte_of_Z_mod (z k : Z) : byte_of_Z (z + k * 256) = byte_of_Z z.
Proof. unfold byte_of_Z. rewrite Z.mod_add by lia. reflexivity. Qed.

Lemma le_encode_add (n : nat) :
  forall z k, le_encode n (z + k * 256 ^ Z.of_nat n) = le_encode n z.
Proof.
  induction n as [|n IH]; intros z k; [reflexivity|].
  cbn [le_encode]. rewrite Nat2Z.inj_succ, Z.pow_succ_r by lia.
  replace (z + k * (256 * 256 ^ Z.of_nat n)) with (z + (k * 256 ^ Z.of_nat n) * 256) by lia.
  rewrite byte_of_Z_mod, Z.div_add by lia. rewrite IH. reflexivity.
Qed.

Lemma le_encode_wrap_int16 (z : Z) : le_encode 2 (wrap_int16 z) = le_encode 2 z.
Proof.
  unfold wrap_int16.
  pose proof (Z.div_mod (z + 32768) 65536 ltac:(lia)) as Hdm.
  rewrite <- (le_encode_add 2 ((z + 32768) mod 65536 - 32768) ((z + 32768) / 65536)).
  f_equal. change (256 ^ Z.of_nat 2) with 65536. lia.
Qed.

Lemma le_encode_field (off wz : Z) (w : nat) (mem : list byte) :
  wz = Z.of_nat w ->
  0 <= off -> off + wz <= Z.of_nat (length mem) ->
  le_encode w (field off wz mem) = take w (drop (Z.to_nat off) mem).
Proof.
  intros -> Hoff Hlen. unfold field. rewrite Nat2Z.id.
  set (bs := take w (drop (Z.to_nat off) mem)).
  assert (Hw : length bs = w).
  { subst bs. rewrite length_take, length_drop. lia. }
  rewrite <- Hw at 1. apply le_encode_decode.
Qed.

Lemma flat_map_ext_elem {A B : Type} (f g : A -> list B) (l : list A) :
  (forall x, x ∈ l -> f x = g x) -> flat_map f l = flat_map g l.
Proof.
  induction l as [|x l IH]; intros H; [reflexivity|].
  cbn [flat_map]. rewrite (H x) by (apply elem_of_cons; left; reflexivity).
  rewrite IH; [reflexivity|]. intros y Hy. apply H. apply elem_of_cons. right. exact Hy.
Qed.

Lemma flat_map_chunks (w : nat) (mem : list byte) (n : nat) :
  flat_map (fun k => take w (drop (w * Z.to_nat k) mem)) (seqZ 0 (Z.of_nat n))
  = take (w * n) mem.
Proof.
  induction n as [|n IH].
  - rewrite Nat.mul_0_r. reflexivity.
  - rewrite seqZ_S, flat_map_app, IH. cbn [flat_map]. rewrite app_nil_r.
    replace (Z.to_nat (0 + Z.of_nat n)) with n by lia.
    rewrite take_take_drop. f_equal. lia.
Qed.

(** Encoding the record decoded from at least 8200 bytes gives the first
    8200 of them back. *)
Lemma cal_to_of_bytes (mem : list byte) :
  sizeof_cal_data <= Z.of_nat (length mem) ->
  cal_to_bytes (cal_of_bytes mem) = take (Z.to_nat sizeof_cal_data) mem.
Proof.
  unfold sizeof_cal_data. intros Hlen.
  unfold cal_to_bytes, cal_of_bytes. cbn [magic correction adc_min adc_max].
  rewrite (le_encode_field 0 4 4 mem) by first [reflexivity | lia].
  rewrite (le_encode_field 8196 2 2 mem) by first [reflexivity | lia].
  rewrite (le_encode_field 8198 2 2 mem) by first [reflexivity | lia].
  assert (Htab : flat_map (le_encode 2)
                   ((fun k => wrap_int16 (field (4 + 2 * k) 2 mem)) <$> seqZ 0 4096)
                 = take (2 * 4096) (drop 4 mem)).
  { rewrite flat_map_concat_map, <- list_fmap_compose, <- flat_map_concat_map.
    rewrite <- (flat_map_chunks 2 (drop 4 mem) 4096).
    change (Z.of_nat 4096) with 4096.
    apply flat_map_ext_elem. intros k Hk. apply elem_of_seqZ in Hk.
    unfold compose. rewrite le_encode_wrap_int16.
    rewrite (le_encode_field (4 + 2 * k) 2 2 mem) by first [reflexivity | lia].
    rewrite drop_drop. do 2 f_equal. lia. }
  rewrite Htab. change (Z.to_nat 0) with 0%nat. cbn [drop].
  replace (Z.to_nat 8196) with (4 + 2 * 4096)%nat by lia.
  replace (Z.to_nat 8198) with (4 + (2 * 4096 + 2))%nat by lia.
  replace (Z.to_nat 8200) with (4 + (2 * 4096 + (2 + 2)))%nat by lia.
  rewrite <- !drop_drop.
  rewrite (take_take_drop (drop (2 * 4096) (drop 4 mem)) 2 2).
  rewrite (take_take_drop (drop 4 mem) (2 * 4096) (2 + 2)).
  apply take_take_drop.
Qed.

(** A field depends only on the bytes it covers. *)
Lemma field_ext (off w : Z) (m1 m2 : list byte) :
  0 <= off ->
  (forall p : nat, off <= Z.of_nat p < off + w -> m1 !! p = m2 !! p) ->
  field off w m1 = field off w m2.
Proof.
  intros Hoff Hsame. unfold field. f_equal. apply list_eq. intros i.
  rewrite !lookup_take. destruct (decide (i < Z.to_nat w)%nat) as [Hi|Hi]; [|reflexivity].
  rewrite !lookup_drop. apply Hsame. lia.
Qed.

(** The bytes 4..8195 of the image of a record are the image of its
    table. *)
Lemma cal_to_bytes_table (c : CalibrationData) (p : nat) :
  length (correction c) = 4096%nat ->
  4 <= Z.of_nat p < 8196 ->
  cal_to_bytes c !! p = flat_map (le_encode 2) (correction c) !! (p - 4)%nat.
Proof.
  intros Hlen Hp. unfold cal_to_bytes.
  rewrite lookup_app_r by (rewrite length_le_encode; lia).
  rewrite length_le_encode. apply lookup_app_l.
  rewrite (length_flat_map_const (le_encode 2) 2 (length_le_encode 2)), Hlen. lia.
Qed.

(** Two records have the same table exactly when their images agree on
    the bytes of the table. *)
Lemma correction_eq_iff (c1 c2 : CalibrationData) :
  cal_wf c1 -> cal_wf c2 ->
  correction c1 = correction c2
  <-> forall p : nat, 4 <= Z.of_nat p < 8196 -> cal_to_bytes c1 !! p = cal_to_bytes c2 !! p.
Proof.
  intros Hwf1 Hwf2. split.
  - intros Heq p Hp.
    rewrite !cal_to_bytes_table by (lia || apply wf_len; assumption).
    rewrite Heq. reflexivity.
  - intros Hsame.
    rewrite <- (cal_of_to_bytes c1 [] Hwf1), <- (cal_of_to_bytes c2 [] Hwf2).
    rewrite !app_nil_r. unfold cal_of_bytes. cbn [correction].
    apply list_fmap_ext. intros i k Hk. apply lookup_seqZ in Hk as [-> Hi].
    f_equal. apply field_ext; [lia|]. intros p Hp. apply Hsame. lia.
Qed.

Lemma take_length_take {A : Type} (l : list A) (m : nat) :
  take (length (take m l)) l = take m l.
Proof.
  rewrite length_take. destruct (Nat.le_ge_cases m (length l)) as [Hle|Hge].
  - rewrite Nat.min_l by exact Hle. reflexivity.
  - rewrite Nat.min_r by exact Hge. rewrite !take_ge by lia. reflexivity.
Qed.

(** The image of the record after a read: the bytes read, then the rest
    of the image the record had. *)
Lemma overlay_image (data : list byte) (cal : CalibrationData) :
  cal_wf cal ->
  let n := Z.to_nat (bytes_read data sizeof_cal_data) in
  let image' := take n data ++ drop n (cal_to_bytes cal) in
  overlay data cal = cal_of_bytes image'
  /\ cal_to_bytes (overlay data cal) = image'
  /\ Z.of_nat (length image') = sizeof_cal_data
  /\ length (take n data) = n.
Proof.
  intros Hwf n image'.
  pose proof (length_chunk data) as Hchunk.
  pose proof (length_cal_to_bytes cal (wf_len cal Hwf)) as Himage.
  assert (Hn : length (take (Z.to_nat sizeof_cal_data) data) = n) by (subst n; lia).
  assert (Htake : take (Z.to_nat sizeof_cal_data) data = take n data).
  { rewrite <- Hn. symmetry. apply take_length_take. }
  assert (Hover : overlay data cal = cal_of_bytes image').
  { unfold overlay. rewrite Hn, Htake. reflexivity. }
  assert (Hbound : 0 <= bytes_read data sizeof_cal_data <= sizeof_cal_data).
  { unfold bytes_read, sizeof_cal_data. lia. }
  assert (Hlen : Z.of_nat (length image') = sizeof_cal_data).
  { subst image'. rewrite length_app, length_drop, <- Htake, Hn. lia. }
  split; [exact Hover|]. split; [|split; [exact Hlen | rewrite <- Htake; exact Hn]].
  rewrite Hover, cal_to_of_bytes by lia. apply take_ge. lia.
Qed.

(** C2 (as the code has it).  When [load_calibration] fails, it answers
    false.  If the store does not mount or the file is absent, [cal_data] is
    unchanged.  If the file was read, the [n] bytes read have replaced the
    first [n] bytes of the memory image of [cal_data] and the other bytes of
    the image are as they were; every field of [cal_data] is what this
    image decodes to.  So [cal_data] is unchanged exactly when the bytes
    read equal the bytes they replaced, and the correction table is
    unchanged exactly when every byte read over the table (offsets 4 to
    8195) equals the byte it replaced.  In particular a correction entry
    that lies within the bytes read holds the value from the file, and an
    entry at or beyond the end of the bytes read keeps the value it had. *)
Theorem load_calibration_failure (fs : LittleFS) (cal : CalibrationData) :
  cal_wf cal ->
  fst (load_calibration fs cal) = false ->
  let cal' := snd (load_calibration fs cal) in
  match (if fs_mounts fs then fs_files fs !! cal_path else None) with
  | None => cal' = cal
  | Some data =>
      let n := bytes_read data sizeof_cal_data in
      let image := cal_to_bytes cal in
      let image' := take (Z.to_nat n) data ++ drop (Z.to_nat n) image in
      cal' = cal_of_bytes image'
      /\ cal_to_bytes cal' = image'
      /\ cal_wf cal'
      /\ (cal' = cal <-> take (Z.to_nat n) data = take (Z.to_nat n) image)
      /\ (correction cal' = correction cal <->
          forall p : nat, 4 <= Z.of_nat p < Z.min n 8196 -> data !! p = image !! p)
      /\ (forall k, 0 <= k < 4096 ->
            (n <= 4 + 2 * k -> aget (correction cal') k = aget (correction cal) k)
            /\ (4 + 2 * k + 2 <= n ->
                  aget (correction cal') k = wrap_int16 (field (4 + 2 * k) 2 data)))
  end.
Proof.
  intros Hwf Hfail cal'. subst cal'.
  destruct (fs_mounts fs) eqn:Hm.
  2:{ rewrite load_calibration_unmounted by exact Hm. reflexivity. }
  destruct (fs_files fs !! cal_path) as [data|] eqn:Hf.
  2:{ rewrite load_calibration_absent by exact Hf. reflexivity. }
  rewrite (load_calibration_read fs cal data Hm Hf). cbv beta iota delta [snd].
  intros n image image'.
  destruct (overlay_image data cal Hwf) as (Hover & Himg & Hlen & Hread).
  fold n in Hover, Himg, Hlen, Hread. fold image in Hover, Himg, Hlen.
  fold image' in Hover, Himg, Hlen.
  pose proof (length_cal_to_bytes cal (wf_len cal Hwf)) as Himage. fold image in Himage.
  assert (Hn : 0 <= n <= sizeof_cal_data).
  { subst n. unfold bytes_read, sizeof_cal_data. lia. }
  assert (Hsize : sizeof_cal_data = 8200) by reflexivity.
  assert (Hwf' : cal_wf (overlay data cal)) by (rewrite Hover; apply cal_of_bytes_wf).
  assert (Hlook : forall p : nat,
            image' !! p = if decide (p < Z.to_nat n)%nat then data !! p else image !! p).
  { intros p. subst image'. destruct (decide (p < Z.to_nat n)%nat) as [Hp|Hp].
    - rewrite lookup_app_l by lia. rewrite lookup_take.
      destruct (decide (p < Z.to_nat n)%nat); [reflexivity | contradiction].
    - rewrite lookup_app_r by lia. rewrite Hread, lookup_drop. f_equal. lia. }
  split; [exact Hover|]. split; [exact Himg|]. split; [exact Hwf'|]. split; [|split].
  - split.
    + intros Heq. rewrite Heq in Himg. fold image in Himg.
      rewrite Himg. subst image'. rewrite take_app_length'; [reflexivity | symmetry; exact Hread].
    + intros Hsame. rewrite Hover. subst image'. rewrite Hsame, take_drop.
      subst image. rewrite <- (app_nil_r (cal_to_bytes cal)).
      apply cal_of_to_bytes. exact Hwf.
  - rewrite (correction_eq_iff _ _ Hwf' Hwf). rewrite Himg. fold image.
    split.
    + intros Hsame p Hp. specialize (Hsame p ltac:(lia)). rewrite Hlook in Hsame.
      destruct (decide (p < Z.to_nat n)%nat); [exact Hsame | lia].
    + intros Hsame p Hp. rewrite Hlook.
      destruct (decide (p < Z.to_nat n)%nat); [apply Hsame; lia | reflexivity].
  - intros k Hk. apply overlay_correction; assumption.
Qed.

Lemma cal_zero_wf : cal_wf cal_zero.
Proof.
  split; cbn [cal_zero magic correction adc_min adc_max];
    unfold in_uint32, in_uint16; try lia.
  - apply length_replicate.
  - apply Forall_replicate. unfold in_int16. lia.
Qed.

(** C2 (counterexample).  A record of the right size with a wrong magic
    number: the load fails and the all-zero table that was in memory has
    been replaced by the table of the corrupt record. *)
Lemma load_failure_overwrites_table :
  ~ (forall fs cal, cal_wf cal ->
       fst (load_calibration fs cal) = false ->
       correction (snd (load_calibration fs cal)) = correction cal).
Proof.
  intros H. specialize (H corrupt_store cal_zero cal_zero_wf).
  assert (Hfail : fst (load_calibration corrupt_store cal_zero) = false)
    by (vm_compute; reflexivity).
  specialize (H Hfail).
  assert (Hnew : aget (correction (snd (load_calibration corrupt_store cal_zero))) 0 = 7)
    by (vm_compute; reflexivity).
  rewrite H in Hnew. cbn [cal_zero correction] in Hnew.
  rewrite aget_replicate in Hnew by lia. discriminate.
Qed.

Lemma field_drop (l : list byte) (n : nat) (off w : Z) :
  0 <= off -> field off w (drop n l) = field (off + Z.of_nat n) w l.
Proof.
  intros Hoff. unfold field. rewrite drop_drop. do 3 f_equal. lia.
Qed.

(** The companion loader answers true only when the file holds a whole
    histogram followed by a whole record whose magic field, at offset
    [sizeof_histogram] of the file, is 0xCA11B8ED. *)
Lemma load_calibration_from_file_valid (fs : LittleFS) (h h' : list Z)
    (cal cal' : CalibrationData) :
  load_calibration_from_file fs h cal = (true, h', cal') ->
  fs_mounts fs = true
  /\ exists data, fs_files fs !! hist_path = Some data
       /\ sizeof_histogram + sizeof_cal_data <= Z.of_nat (length data)
       /\ field sizeof_histogram 4 data = CAL_MAGIC.
Proof.
  unfold load_calibration_from_file, fs_open_r.
  destruct (fs_mounts fs); [|discriminate]. cbn [negb].
  destruct (fs_files fs !! hist_path) as [data|]; [|discriminate].
  unfold file_read. cbn [f_data f_pos]. change (Z.to_nat 0) with 0%nat. rewrite drop_0.
  set (chunk1 := take (Z.to_nat sizeof_histogram) data).
  set (chunk2 := take (Z.to_nat sizeof_cal_data)
                   (drop (Z.to_nat (0 + Z.of_nat (length chunk1))) data)).
  set (cal1 := cal_of_bytes (chunk2 ++ drop (length chunk2) (cal_to_bytes cal))).
  destruct ((Z.of_nat (length chunk1) =? sizeof_histogram)
            && (Z.of_nat (length chunk2) =? sizeof_cal_data)
            && (magic cal1 =? CAL_MAGIC)) eqn:Hcond; [|discriminate].
  intros _. apply andb_true_iff in Hcond as [Hcond Hmagic].
  apply andb_true_iff in Hcond as [H1 H2].
  apply Z.eqb_eq in H1, H2, Hmagic.
  split; [reflexivity|]. exists data. split; [reflexivity|].
  assert (Hl1 : length chunk1 = Z.to_nat sizeof_histogram) by lia.
  assert (Hlen : sizeof_histogram + sizeof_cal_data <= Z.of_nat (length data)).
  { subst chunk2 chunk1. rewrite length_take in H1. rewrite length_take, length_drop in H2.
    unfold sizeof_histogram, sizeof_cal_data in *. lia. }
  split; [exact Hlen|].
  rewrite <- Hmagic. subst cal1. unfold cal_of_bytes. cbn [magic].
  rewrite field_app_l by (unfold sizeof_cal_data in *; lia).
  subst chunk2. rewrite field_take by (unfold sizeof_cal_data; lia).
  rewrite field_drop by lia. f_equal. lia.
Qed.

(** On a file of the right size with a wrong magic number the companion
    loader answers false after both reads have replaced what [histogram]
    and [cal_data] held. *)
Lemma load_calibration_from_file_overwrites :
  let '(ok, h', cal') := load_calibration_from_file profile_store zero_histogram cal_zero in
  ok = false /\ aget h' 0 = 9 /\ aget (correction cal') 0 = 7.
Proof. vm_compute. repeat split. Qed.

(** ** Examples *)

(** Half scale and quarter scale: every second and every fourth bit. *)
Example dac_half_scale :
  dac_feed_one false (dac_set_level 2048 (mkDac 0 0 []))
  = (true, mkDac 0 (2 ^ 31) [0xAAAAAAAA]).
Proof. reflexivity. Qed.

Example dac_quarter_scale :
  dac_feed_one false (dac_set_level 1024 (mkDac 0 0 []))
  = (true, mkDac 0 (2 ^ 30) [0x88888888]).
Proof. reflexivity. Qed.

(** A full FIFO leaves the modulator as it was. *)
Example dac_fifo_full (d : DacState) : dac_feed_one true d = (false, d).
Proof. reflexivity. Qed.

(** [round] takes halfway cases away from zero; the conversion to
    [int16_t] keeps the low 16 bits of an integral part outside its range. *)
Example round_half_up :
  float_to_int16 (F64.round (F64.div (F64.of_Z 50) (F64.of_Z 100))) = 1.
Proof. reflexivity. Qed.

Example round_below_half :
  float_to_int16 (F64.round (F64.div (F64.of_Z 49) (F64.of_Z 100))) = 0.
Proof. reflexivity. Qed.

Example round_half_down :
  float_to_int16 (F64.round (F64.div (F64.of_Z (-250)) (F64.of_Z 100))) = -3.
Proof. reflexivity. Qed.

Example int16_overflow : float_to_int16 (F64.round (F64.of_Z 40000)) = 40000 - 65536.
Proof. reflexivity. Qed.

(** Interpolation between the anchors 495 and 528 of the first boundary. *)
Example interpolate_rising :
  interpolate 495 528 0 33 <$> [496; 497; 511; 527] = [1; 2; 16; 32].
Proof. reflexivity. Qed.

Example interpolate_falling :
  interpolate 495 528 10 (-23) <$> [496; 497; 511; 527] = [9; 8; -6; -22].
Proof. reflexivity. Qed.

(** Between the least and the greatest [int16_t] value the products leave
    the range of [int16_t] from the middle of the region on. *)
Example interpolate_steep :
  interpolate 495 528 (-32768) 32767 <$> [496; 511; 512; 527] = [-30783; -994; 992; 30781].
Proof. reflexivity. Qed.

(** The little-endian image of a (shortened) record. *)
Example image_of_record :
  Z_of_byte <$> cal_to_bytes (mkCalibrationData CAL_MAGIC [-2; 1] 3 4095)
  = [0xED; 0xB8; 0x11; 0xCA; 0xFE; 0xFF; 0x01; 0x00; 0x03; 0x00; 0xFF; 0x0F].
Proof. reflexivity. Qed.

Example csv_row_7 : csv_row zero_histogram cal_zero 7 = ("7,0,0" ++ lf)%string.
Proof. reflexivity. Qed.

Lemma aget_zero_on (h : list Z) (lo n : Z) :
  forallb (fun j => aget h j =? 0) (seqZ lo n) = true ->
  forall j, lo <= j < lo + n -> aget h j = 0.
Proof.
  intros Hall j Hj. rewrite forallb_forall in Hall.
  apply Z.eqb_eq, Hall. apply list_elem_of_In, elem_of_seqZ. lia.
Qed.

(** The modulator at level 1000, fed four times with the FIFO full once. *)
Lemma dac_feed_one_bit_density_witness :
  let d := mkDac 0 0 [] in
  let fulls := [false; true; false; false] in
  let d' := dac_feed_many fulls (dac_set_level 1000 d) in
  let ws := drop (length (tx_words d)) (tx_words d') in
  let W := Z.of_nat (length ws) in
  W = fed fulls
  /\ 2 ^ 32 * set_bits ws = sd_accumulator d + W * 32 * (1000 * 2 ^ 20) - sd_accumulator d'
  /\ Z.abs (4096 * set_bits ws - 32 * W * 1000) < 4096.
Proof.
  apply (dac_feed_one_bit_density 1000 [false; true; false; false] (mkDac 0 0 []));
    cbn [sd_accumulator]; lia.
Defined.

(** The smoother on the table with the steepest steps, where the products
    of the interpolation leave the range of [int16_t]. *)
Lemma smooth_correction_table_idempotent_witness :
  smooth_correction_table (smooth_correction_table steep_table)
  = smooth_correction_table steep_table
  /\ (forall c, c ∈ boundaries ->
        aget (correction (smooth_correction_table steep_table)) (left_index c)
        = aget (correction steep_table) (left_index c)
        /\ aget (correction (smooth_correction_table steep_table)) (right_index c)
           = aget (correction steep_table) (right_index c))
  /\ length (correction (smooth_correction_table steep_table)) = 4096%nat
  /\ magic (smooth_correction_table steep_table) = magic steep_table
  /\ adc_min (smooth_correction_table steep_table) = adc_min steep_table
  /\ adc_max (smooth_correction_table steep_table) = adc_max steep_table.
Proof.
  apply (smooth_correction_table_idempotent steep_table).
  cbn [steep_table correction]. rewrite length_fmap, length_seqZ. reflexivity.
Defined.

(** The smoother changes the saw-tooth table: between the anchors -4 (at
    495) and -8 (at 528), entry 500 goes from 1 to -4. *)
Example smooth_ramp_changes :
  aget (correction ramp_table) 500 = 1 /\ aget (correction ramp_smoothed) 500 = -4.
Proof. vm_compute. split; reflexivity. Qed.

(** Range trimming on the histogram with all its mass on 2000..2010. *)
Lemma build_correction_lut_trims_range_witness :
  find_code_min peak_histogram = 2000 /\ find_code_max peak_histogram = 2010
  /\ adc_min (build_correction_lut peak_histogram cal_zero) = 2000
  /\ adc_max (build_correction_lut peak_histogram cal_zero) = 2010.
Proof.
  apply (build_correction_lut_trims_range peak_histogram cal_zero 2000 2010).
  - lia.
  - lia.
  - apply (aget_zero_on peak_histogram 0 2000). vm_compute. reflexivity.
  - intros j Hj. apply (aget_zero_on peak_histogram 2011 2085); [vm_compute; reflexivity | lia].
  - vm_compute. discriminate.
  - vm_compute. discriminate.
Defined.


(** The all-zero histogram over the zero-initialised record. *)
Lemma build_correction_lut_zero_histogram_witness :
  build_correction_lut zero_histogram cal_zero =
  mkCalibrationData CAL_MAGIC (replicate 4096 0) 4095 0.
Proof.
  apply (build_correction_lut_zero_histogram cal_zero). vm_compute. reflexivity.
Defined.

Lemma sample_record_wf : cal_wf sample_record.
Proof.
  split; cbn [sample_record magic correction adc_min adc_max];
    unfold in_uint32, in_uint16, CAL_MAGIC; try lia.
  - apply length_replicate.
  - apply Forall_replicate. unfold in_int16. lia.
Qed.

(** Saving to a store that has to be formatted first, then loading. *)
Lemma save_load_round_trip_witness :
  let fs' := save_calibration blank_store zero_histogram sample_record in
  fs_files fs' !! cal_path = Some (cal_to_bytes sample_record)
  /\ snd (load_calibration fs' cal_zero) = sample_record
  /\ cal_to_bytes (snd (load_calibration fs' cal_zero)) = cal_to_bytes sample_record
  /\ fst (load_calibration fs' cal_zero) = (magic sample_record =? CAL_MAGIC).
Proof.
  apply (save_load_round_trip blank_store zero_histogram sample_record cal_zero).
  - exact sample_record_wf.
  - right. reflexivity.
  - reflexivity.
Defined.

(** A collection run with 128 samples per level on a converter that
    returns an out-of-range code every third conversion. *)
Lemma collect_histogram_conserves_samples_witness :
  let collect := collect_histogram (fun _ => false) noisy_adc (fun _ _ => 2%nat) 128 in
  let N := NUM_SWEEPS * 4096 * 128 in
  (forall h0,
     collect (mkSketch (sk_dac idle_sketch) h0 (sk_polls idle_sketch)
                (sk_reads idle_sketch) (sk_settles idle_sketch)) = collect idle_sketch)
  /\ sk_reads (collect idle_sketch) = (sk_reads idle_sketch + Z.to_nat N)%nat
  /\ length (sk_histogram (collect idle_sketch)) = 4096%nat
  /\ hist_total (sk_histogram (collect idle_sketch)) =
     N - discarded noisy_adc (sk_reads idle_sketch) (Z.to_nat N).
Proof.
  apply (collect_histogram_conserves_samples
           (fun _ => false) noisy_adc (fun _ _ => 2%nat) 128 idle_sketch).
  - lia.
  - unfold NUM_SWEEPS. lia.
Defined.

(** A load from a file cut after seven bytes, over the all-zero record. *)
Lemma load_calibration_failure_witness :
  let cal' := snd (load_calibration short_store cal_zero) in
  match (if fs_mounts short_store then fs_files short_store !! cal_path else None) with
  | None => cal' = cal_zero
  | Some data =>
      let n := bytes_read data sizeof_cal_data in
      let image := cal_to_bytes cal_zero in
      let image' := take (Z.to_nat n) data ++ drop (Z.to_nat n) image in
      cal' = cal_of_bytes image'
      /\ cal_to_bytes cal' = image'
      /\ cal_wf cal'
      /\ (cal' = cal_zero <-> take (Z.to_nat n) data = take (Z.to_nat n) image)
      /\ (correction cal' = correction cal_zero <->
          forall p : nat, 4 <= Z.of_nat p < Z.min n 8196 -> data !! p = image !! p)
      /\ (forall k, 0 <= k < 4096 ->
            (n <= 4 + 2 * k -> aget (correction cal') k = aget (correction cal_zero) k)
            /\ (4 + 2 * k + 2 <= n ->
                  aget (correction cal') k = wrap_int16 (field (4 + 2 * k) 2 data)))
  end.
Proof.
  apply (load_calibration_failure short_store cal_zero cal_zero_wf).
  vm_compute. reflexivity.
Defined.

(** * Further properties *)

(** ** Sigma-delta DAC *)

(** [dac_set_level] keeps the low twelve bits of the level. *)
Lemma dac_set_level_masks_level (level : Z) (d : DacState) :
  sd_target (dac_set_level level d) = (level mod 4096) * 2 ^ 20
  /\ 0 <= sd_target (dac_set_level level d) < 2 ^ 32
  /\ dac_set_level (level + 4096) d = dac_set_level level d
  /\ sd_accumulator (dac_set_level level d) = sd_accumulator d
  /\ tx_words (dac_set_level level d) = tx_words d.
Proof.
  assert (Hland : forall l, Z.land l 0xFFF = l mod 4096).
  { intros l. change 0xFFF with (Z.ones 12). rewrite Z.land_ones by lia. reflexivity. }
  assert (Hm : 0 <= level mod 4096 < 4096) by (apply Z.mod_pos_bound; lia).
  assert (Ht : sd_target (dac_set_level level d) = (level mod 4096) * 2 ^ 20).
  { unfold dac_set_level, wrap_uint32. cbn [sd_target].
    rewrite Hland, Z.shiftl_mul_pow2 by lia. apply Z.mod_small. lia. }
  split; [exact Ht|]. split; [rewrite Ht; lia|]. split; [|split; reflexivity].
  unfold dac_set_level. rewrite !Hland.
  replace ((level + 4096) mod 4096) with (level mod 4096); [reflexivity|].
  rewrite <- (Z.mul_1_l 4096) at 2. rewrite Z.mod_add by lia. reflexivity.
Qed.

(** X1.  After [dac_set_level level], for any [level] (only its low twelve
    bits count), a run of feed attempts of which exactly 128 found room in
    the FIFO has pushed 128 words whose set bits number exactly
    [level mod 4096] out of the 4096, and the accumulator is back at the
    value it started from: the bit pattern repeats every 128 words. *)
Theorem dac_pattern_period (level : Z) (fulls : list bool) (d : DacState) :
  0 <= sd_accumulator d < 2 ^ 32 ->
  fed fulls = 128 ->
  let d' := dac_feed_many fulls (dac_set_level level d) in
  sd_accumulator d' = sd_accumulator d
  /\ Z.of_nat (length (tx_words d')) = Z.of_nat (length (tx_words d)) + 128
  /\ set_bits (drop (length (tx_words d)) (tx_words d')) = level mod 4096.
Proof.
  intros Ha Hfed d'.
  assert (Hm : 0 <= level mod 4096 < 4096) by (apply Z.mod_pos_bound; lia).
  assert (Ht : sd_target (dac_set_level level d) = (level mod 4096) * 2 ^ 20).
  { unfold dac_set_level, wrap_uint32. cbn [sd_target].
    change 0xFFF with (Z.ones 12). rewrite Z.land_ones by lia.
    rewrite Z.shiftl_mul_pow2 by lia. apply Z.mod_small. lia. }
  destruct (dac_feed_many_carry fulls (dac_set_level level d)) as (ws & H1 & H2 & H3 & H4 & H5).
  { rewrite Ht. lia. }
  { exact Ha. }
  fold d' in H1, H3, H4, H5.
  change (sd_accumulator (dac_set_level level d)) with (sd_accumulator d) in H5.
  change (tx_words (dac_set_level level d)) with (tx_words d) in H1.
  rewrite Ht, Hfed in H5. rewrite H1, drop_app_length, length_app.
  assert (Hbits : set_bits ws = level mod 4096 /\ sd_accumulator d' = sd_accumulator d).
  { assert (0 <= set_bits ws).
    { clear. induction ws as [|w ws IH]; [cbn; lia|].
      change (set_bits (w :: ws)) with (popcount32 w + set_bits ws).
      assert (0 <= popcount32 w); [|lia].
      unfold popcount32. generalize 32%nat. intros n. induction n as [|n IHn]; cbn [count_bits]; [lia|].
      destruct (Z.testbit w (Z.of_nat n)); lia. }
    lia. }
  destruct Hbits as [Hb Hacc]. split; [exact Hacc|]. split; [lia|exact Hb].
Qed.

Lemma dac_pattern_period_witness :
  let d := mkDac 12345 0 [7] in
  let d' := dac_feed_many (replicate 128 false) (dac_set_level 1000 d) in
  sd_accumulator d' = sd_accumulator d
  /\ Z.of_nat (length (tx_words d')) = Z.of_nat (length (tx_words d)) + 128
  /\ set_bits (drop (length (tx_words d)) (tx_words d')) = 1000 mod 4096.
Proof.
  apply (dac_pattern_period 1000 (replicate 128 false) (mkDac 12345 0 [7])).
  - cbn [sd_accumulator]. lia.
  - reflexivity.
Defined.

Section SamplerFacts.
Variable pio_sm_is_tx_fifo_full : nat -> bool.
Variable adc_read : nat -> Z.

Lemma feed_effect (m : Sketch) (m' : Sketch) :
  m' = feed pio_sm_is_tx_fifo_full m ->
  sk_histogram m' = sk_histogram m /\ sk_reads m' = sk_reads m
  /\ sk_settles m' = sk_settles m /\ sk_polls m' = S (sk_polls m)
  /\ sd_target (sk_dac m') = sd_target (sk_dac m)
  /\ sk_dac m' = snd (dac_feed_one (pio_sm_is_tx_fifo_full (sk_polls m)) (sk_dac m)).
Proof.
  intros ->. unfold feed. destruct (dac_feed_one _ _) as [ok d] eqn:E. cbn [sk_histogram sk_reads sk_settles sk_polls sk_dac snd].
  repeat split. unfold dac_feed_one in E.
  destruct (pio_sm_is_tx_fifo_full (sk_polls m)).
  - injection E as _ <-. reflexivity.
  - destruct (for_loop 32 0 1 _ _) as [w a]. injection E as _ <-. reflexivity.
Qed.

Lemma dac_feed_one_words (full : bool) (d : DacState) :
  fst (dac_feed_one full d) = negb full
  /\ length (tx_words (snd (dac_feed_one full d)))
     = (length (tx_words d) + (if full then 0 else 1))%nat
  /\ take (length (tx_words d)) (tx_words (snd (dac_feed_one full d))) = tx_words d.
Proof.
  unfold dac_feed_one. destruct full.
  - cbn [fst snd negb]. rewrite Nat.add_0_r, firstn_all. repeat split.
  - destruct (for_loop 32 0 1 _ _) as [w a]. cbn [fst snd negb tx_words].
    rewrite length_app, take_app_length. repeat split.
Qed.

Lemma dac_feed_loop_spec (n : nat) :
  forall m,
  let m' := dac_feed_loop pio_sm_is_tx_fifo_full n m in
  let pushed := leading_free pio_sm_is_tx_fifo_full (sk_polls m) n in
  length (tx_words (sk_dac m')) = (length (tx_words (sk_dac m)) + pushed)%nat
  /\ take (length (tx_words (sk_dac m))) (tx_words (sk_dac m')) = tx_words (sk_dac m)
  /\ sk_polls m' = (sk_polls m + Nat.min n (S pushed))%nat
  /\ (pushed <= n)%nat
  /\ sd_target (sk_dac m') = sd_target (sk_dac m)
  /\ sk_histogram m' = sk_histogram m /\ sk_reads m' = sk_reads m
  /\ sk_settles m' = sk_settles m.
Proof.
  induction n as [|n IH]; intros m.
  - cbn [dac_feed_loop leading_free]. rewrite Nat.add_0_r, firstn_all.
    repeat split; lia.
  - cbn [dac_feed_loop leading_free]. cbv zeta.
    destruct (feed_effect m _ eq_refl) as (Hh & Hr & Hs & Hp & Ht & Hd).
    destruct (dac_feed_one_words (pio_sm_is_tx_fifo_full (sk_polls m)) (sk_dac m))
      as (Hok & Hlen & Htake).
    rewrite Hok, negb_involutive.
    destruct (pio_sm_is_tx_fifo_full (sk_polls m)) eqn:Hfull.
    + cbn [negb]. rewrite Hd. rewrite Hlen, Htake, Hh, Hr, Hs, Hp. rewrite <- Hd, Ht.
      repeat split; lia.
    + cbn [negb]. specialize (IH (feed pio_sm_is_tx_fifo_full m)). cbv zeta in IH.
      destruct IH as (I1 & I2 & I3 & I4 & I5 & I6 & I7 & I8).
      rewrite !Hp in I1, I3, I4. rewrite Hd in I1, I2. rewrite Hlen in I1, I2.
      rewrite I1, I3, I5, I6, I7, I8, Hh, Hr, Hs, Ht.
      split; [lia|]. split.
      { match goal with
        | |- take ?k ?X = _ =>
            replace (take k X) with (take k (take (k + 1) X))
              by (rewrite take_take; f_equal; lia)
        end.
        rewrite I2. exact Htake. }
      repeat split; lia.
Qed.

(** X2.  [dac_feed] pushes one word for every FIFO query that finds room
    before the first that finds the FIFO full, eight at most, after the
    words pushed before; it makes one query more than it pushes words unless
    all eight found room, and it keeps the target level, the histogram and
    the counts of conversions and of settling waits. *)
Theorem dac_feed_stops_when_full (m : Sketch) :
  let m' := dac_feed pio_sm_is_tx_fifo_full m in
  let pushed := leading_free pio_sm_is_tx_fifo_full (sk_polls m) 8 in
  length (tx_words (sk_dac m')) = (length (tx_words (sk_dac m)) + pushed)%nat
  /\ take (length (tx_words (sk_dac m))) (tx_words (sk_dac m')) = tx_words (sk_dac m)
  /\ sk_polls m' = (sk_polls m + Nat.min 8 (S pushed))%nat
  /\ (pushed <= 8)%nat
  /\ sd_target (sk_dac m') = sd_target (sk_dac m)
  /\ sk_histogram m' = sk_histogram m /\ sk_reads m' = sk_reads m
  /\ sk_settles m' = sk_settles m.
Proof. apply dac_feed_loop_spec. Qed.
End SamplerFacts.

Section SamplerFacts2.
Variable pio_sm_is_tx_fifo_full : nat -> bool.
Variable adc_read : nat -> Z.

Lemma code_sum_last (n : nat) :
  forall k,
  code_sum adc_read k (S n) = code_sum adc_read k n + wrap_uint16 (adc_read (k + n)).
Proof.
  induction n as [|n IH]; intros k.
  - cbn [code_sum]. rewrite Nat.add_0_r. lia.
  - change (code_sum adc_read k (S (S n)))
      with (wrap_uint16 (adc_read k) + code_sum adc_read (S k) (S n)).
    rewrite IH. cbn [code_sum]. replace (S k + n)%nat with (k + S n)%nat by lia. lia.
Qed.

Lemma code_sum_between (lo hi : Z) (n : nat) :
  forall k,
  (forall j, (j < n)%nat -> lo <= wrap_uint16 (adc_read (k + j)) <= hi) ->
  Z.of_nat n * lo <= code_sum adc_read k n <= Z.of_nat n * hi.
Proof.
  induction n as [|n IH]; intros k Hall; cbn [code_sum]; [lia|].
  pose proof (Hall O ltac:(lia)) as H0. rewrite Nat.add_0_r in H0.
  assert (Hrest : forall j, (j < n)%nat -> lo <= wrap_uint16 (adc_read (S k + j)) <= hi).
  { intros j Hj. replace (S k + j)%nat with (k + S j)%nat by lia. apply Hall. lia. }
  specialize (IH (S k) Hrest). lia.
Qed.

Lemma wrap_uint16_range (z : Z) : 0 <= wrap_uint16 z <= 65535.
Proof. unfold wrap_uint16. pose proof (Z.mod_pos_bound z (2 ^ 16)). lia. Qed.

(** The loop of [adc_read_averaged] after [n] trips, when the sum cannot
    wrap. *)
Lemma average_loop_spec (m : Sketch) (n : nat) :
  Z.of_nat n <= 65536 ->
  let st := for_loop n 0 1 (fun _ st => average_step pio_sm_is_tx_fifo_full adc_read st) (0, m) in
  fst st = code_sum adc_read (sk_reads m) n
  /\ sk_reads (snd st) = (sk_reads m + n)%nat
  /\ sk_histogram (snd st) = sk_histogram m
  /\ sk_settles (snd st) = sk_settles m
  /\ sk_polls (snd st) = (sk_polls m + n)%nat.
Proof.
  intros Hn.
  apply (for_loop_inv
           (fun k st => fst st = code_sum adc_read (sk_reads m) k
                        /\ sk_reads (snd st) = (sk_reads m + k)%nat
                        /\ sk_histogram (snd st) = sk_histogram m
                        /\ sk_settles (snd st) = sk_settles m
                        /\ sk_polls (snd st) = (sk_polls m + k)%nat)).
  - intros k i [sum s] Hk (Hsum & Hr & Hh & Hs & Hp). cbn [fst snd] in *.
    unfold average_step.
    destruct (feed_effect pio_sm_is_tx_fifo_full s _ eq_refl) as (Fh & Fr & Fs & Fp & _).
    cbn [fst snd sk_reads sk_histogram sk_settles sk_polls].
    rewrite Fh, Fr, Fs, Fp, Hr, Hh, Hs, Hp, code_sum_last, Hsum.
    split; [|repeat split; lia].
    unfold wrap_uint32. apply Z.mod_small.
    pose proof (code_sum_between 0 65535 k (sk_reads m)
                  ltac:(intros; apply wrap_uint16_range)).
    pose proof (wrap_uint16_range (adc_read (sk_reads m + k))). lia.
  - cbn [fst snd code_sum]. repeat split; lia.
Qed.

(** X3.  For 1 to 65536 samples [adc_read_averaged] returns the mean of
    the codes read, rounded to the nearest integer (halves up): the result
    is within one half of the exact mean and between the least and the
    greatest code read; the call makes exactly [num_samples] conversions
    and leaves the histogram alone. *)
Theorem adc_read_averaged_rounds (num_samples lo hi : Z) (m : Sketch) :
  1 <= num_samples <= 65536 ->
  (forall j, (j < Z.to_nat num_samples)%nat ->
     lo <= wrap_uint16 (adc_read (sk_reads m + j)) <= hi) ->
  let total := code_sum adc_read (sk_reads m) (Z.to_nat num_samples) in
  exists r m',
    adc_read_averaged pio_sm_is_tx_fifo_full adc_read num_samples m = Some (r, m')
    /\ r = (total + num_samples / 2) / num_samples
    /\ 2 * Z.abs (num_samples * r - total) <= num_samples
    /\ lo <= r <= hi
    /\ sk_reads m' = (sk_reads m + Z.to_nat num_samples)%nat
    /\ sk_histogram m' = sk_histogram m.
Proof.
  intros Hn Hall total.
  destruct (average_loop_spec m (Z.to_nat num_samples) ltac:(lia)) as (Hsum & Hr & Hh & _).
  unfold adc_read_averaged.
  destruct (for_loop _ 0 1 _ (0, m)) as [sum m'] eqn:Hloop. cbn [fst snd] in *.
  destruct (Z.eqb_spec num_samples 0) as [?|_]; [lia|].
  pose proof (code_sum_between lo hi _ _ Hall) as Hb. fold total in Hb, Hsum.
  pose proof (code_sum_between 0 65535 (Z.to_nat num_samples) (sk_reads m)
                ltac:(intros; apply wrap_uint16_range)) as Hb2. fold total in Hb2.
  rewrite Z2Nat.id in Hb, Hb2 by lia.
  assert (Hhalf : 0 <= num_samples / 2 /\ 2 * (num_samples / 2) <= num_samples
                  /\ num_samples < 2 * (num_samples / 2) + 2).
  { pose proof (Z.div_mod num_samples 2 ltac:(lia)).
    pose proof (Z.mod_pos_bound num_samples 2 ltac:(lia)). lia. }
  set (q := (total + num_samples / 2) / num_samples).
  assert (Hq : num_samples * q <= total + num_samples / 2 < num_samples * q + num_samples).
  { subst q. pose proof (Z.div_mod (total + num_samples / 2) num_samples ltac:(lia)).
    pose proof (Z.mod_pos_bound (total + num_samples / 2) num_samples ltac:(lia)). lia. }
  assert (Hrange : lo <= q <= hi) by nia.
  assert (Hq16 : 0 <= q <= 65535) by nia.
  exists q, m'. subst sum.
  assert (Hw : wrap_uint32 (total + num_samples / 2) = total + num_samples / 2).
  { unfold wrap_uint32. apply Z.mod_small. lia. }
  rewrite Hw. fold q.
  assert (Hw16 : wrap_uint16 q = q) by (unfold wrap_uint16; apply Z.mod_small; lia).
  rewrite Hw16.
  repeat split; try assumption; try lia.
Qed.
End SamplerFacts2.

Lemma adc_read_averaged_rounds_witness :
  let total := code_sum ramp_adc (sk_reads idle_sketch) (Z.to_nat 8) in
  exists r m',
    adc_read_averaged (fun _ => false) ramp_adc 8 idle_sketch = Some (r, m')
    /\ r = (total + 8 / 2) / 8
    /\ 2 * Z.abs (8 * r - total) <= 8
    /\ 100 <= r <= 104
    /\ sk_reads m' = (sk_reads idle_sketch + Z.to_nat 8)%nat
    /\ sk_histogram m' = sk_histogram idle_sketch.
Proof.
  apply (adc_read_averaged_rounds (fun _ => false) ramp_adc 8 100 104 idle_sketch).
  - lia.
  - intros j Hj. unfold ramp_adc, wrap_uint16.
    pose proof (Nat.mod_upper_bound (sk_reads idle_sketch + j) 5 ltac:(lia)).
    rewrite Z.mod_small by lia. lia.
Defined.

(** ** Runtime corrector *)

(** [adc_corrected] clamps the corrected code to 0..4095; a code above 4095
    indexes the table outside its bounds. *)
Lemma adc_corrected_cases (cal : CalibrationData) (raw : Z) :
  (0 <= raw < 4096 ->
     exists v, adc_corrected cal raw = Some v
       /\ v = Z.max 0 (Z.min 4095 (raw + aget (correction cal) raw))
       /\ 0 <= v <= 4095)
  /\ (4096 <= raw -> adc_corrected cal raw = None).
Proof.
  unfold adc_corrected. split.
  - intros Hraw. destruct (Z.ltb_spec raw 4096); [|lia].
    eexists. split; [reflexivity|].
    set (c := raw + aget (correction cal) raw).
    assert (Hv : (if (if c <? 0 then 0 else c) >? 4095 then 4095 else if c <? 0 then 0 else c)
                 = Z.max 0 (Z.min 4095 c)).
    { destruct (Z.ltb_spec c 0).
      - destruct (Z.gtb_spec 0 4095); lia.
      - destruct (Z.gtb_spec c 4095); lia. }
    rewrite Hv. unfold wrap_uint16. rewrite Z.mod_small by lia. split; [reflexivity | lia].
  - intros Hraw. destruct (Z.ltb_spec raw 4096); [lia | reflexivity].
Qed.

Section CorrectorFacts.
Variable pio_sm_is_tx_fifo_full : nat -> bool.
Variable adc_read : nat -> Z.
Variable cal : CalibrationData.


End CorrectorFacts.


(** The calibrated reading of the example is defined. *)
Example adc_read_calibrated_example :
  option_map fst (adc_read_calibrated (fun _ => false) ramp_adc cal_zero 16 idle_sketch)
  = Some 101.
Proof. vm_compute. reflexivity. Qed.

(** ** Histogram collector, code by code *)

Section CollectInvariant.
Variable pio_sm_is_tx_fifo_full : nat -> bool.
Variable adc_read : nat -> Z.
Variable settle_spins : nat -> Z -> nat.
Variable SAMPLES_PER_LEVEL : Z.

(** A property [P n] of the histogram and of the number of conversions
    that every sample establishes for [n + 1] holds for the whole run. *)
Variable P : nat -> Sketch -> Prop.
Hypothesis P_frame :
  forall n m m', sk_histogram m' = sk_histogram m -> sk_reads m' = sk_reads m ->
  P n m -> P n m'.
Hypothesis P_sample :
  forall n m, Z.of_nat n + 1 < 2 ^ 32 -> P n m ->
  P (S n) (sample_once pio_sm_is_tx_fifo_full adc_read m).

Lemma sweep_invariant (ascending : bool) (n : nat) (m : Sketch) :
  0 <= SAMPLES_PER_LEVEL ->
  Z.of_nat n + 4096 * SAMPLES_PER_LEVEL < 2 ^ 32 ->
  P n m ->
  P (n + 4096 * Z.to_nat SAMPLES_PER_LEVEL)
    (collect_histogram_sweep pio_sm_is_tx_fifo_full adc_read settle_spins
       SAMPLES_PER_LEVEL ascending m).
Proof.
  intros HS Hn Hm. unfold collect_histogram_sweep.
  set (trips := Z.to_nat (Z.abs ((if ascending then 4095 else 0)
                                 - (if ascending then 0 else 4095)) + 1)).
  assert (Htrips : trips = 4096%nat) by (subst trips; destruct ascending; reflexivity).
  replace (n + 4096 * Z.to_nat SAMPLES_PER_LEVEL)%nat
    with (n + trips * Z.to_nat SAMPLES_PER_LEVEL)%nat by (rewrite Htrips; reflexivity).
  apply (for_loop_inv (fun k m' => P (n + k * Z.to_nat SAMPLES_PER_LEVEL) m')).
  - intros k level s Hk Hs.
    replace (n + S k * Z.to_nat SAMPLES_PER_LEVEL)%nat
      with ((n + k * Z.to_nat SAMPLES_PER_LEVEL) + Z.to_nat SAMPLES_PER_LEVEL)%nat by lia.
    apply (for_loop_inv (fun j m' => P ((n + k * Z.to_nat SAMPLES_PER_LEVEL) + j) m')).
    + intros j i s' Hj Hs'.
      replace (n + k * Z.to_nat SAMPLES_PER_LEVEL + S j)%nat
        with (S (n + k * Z.to_nat SAMPLES_PER_LEVEL + j)) by lia.
      apply P_sample; [|exact Hs']. nia.
    + rewrite Nat.add_0_r.
      destruct (settle_frame pio_sm_is_tx_fifo_full settle_spins
                  (wrap_uint16 level) SETTLE_US s) as [Hh Hr].
      eapply P_frame; [exact Hh | exact Hr | exact Hs].
  - rewrite Nat.mul_0_l, Nat.add_0_r. exact Hm.
Qed.

Lemma sweeps_invariant (sweeps : nat) (m : Sketch) :
  0 <= SAMPLES_PER_LEVEL ->
  Z.of_nat sweeps * 4096 * SAMPLES_PER_LEVEL < 2 ^ 32 ->
  P 0 m ->
  P (sweeps * (4096 * Z.to_nat SAMPLES_PER_LEVEL))
    (for_loop sweeps 0 1
       (fun sweep m =>
          collect_histogram_sweep pio_sm_is_tx_fifo_full adc_read settle_spins
            SAMPLES_PER_LEVEL (Z.rem sweep 2 =? 0) m)
       m).
Proof.
  intros HS HN H0.
  apply (for_loop_inv (fun k m' => P (k * (4096 * Z.to_nat SAMPLES_PER_LEVEL)) m')).
  - intros k sweep s Hk Hs.
    replace (S k * (4096 * Z.to_nat SAMPLES_PER_LEVEL))%nat
      with (k * (4096 * Z.to_nat SAMPLES_PER_LEVEL)
            + 4096 * Z.to_nat SAMPLES_PER_LEVEL)%nat by lia.
    apply sweep_invariant; [exact HS | | exact Hs]. nia.
  - exact H0.
Qed.

Lemma invariant_frame (n : nat) (d : DacState) (p st : nat) (x : Sketch) :
  P n x -> P n (mkSketch d (sk_histogram x) p (sk_reads x) st).
Proof. apply P_frame; reflexivity. Qed.

Lemma collect_invariant (m : Sketch) :
  0 <= SAMPLES_PER_LEVEL ->
  NUM_SWEEPS * 4096 * SAMPLES_PER_LEVEL < 2 ^ 32 ->
  P 0 (mkSketch (sk_dac m) (replicate 4096 0) (sk_polls m) (sk_reads m) (sk_settles m)) ->
  P (4 * (4096 * Z.to_nat SAMPLES_PER_LEVEL))
    (collect_histogram pio_sm_is_tx_fifo_full adc_read settle_spins SAMPLES_PER_LEVEL m).
Proof.
  intros HS HN H0. unfold collect_histogram.
  change (Z.to_nat NUM_SWEEPS) with 4%nat.
  apply invariant_frame. apply sweeps_invariant; [exact HS | exact HN | exact H0].
Qed.
End CollectInvariant.

Section CountFacts.
Variable pio_sm_is_tx_fifo_full : nat -> bool.
Variable adc_read : nat -> Z.

Lemma observed_last (c : Z) (n : nat) :
  forall k,
  observed adc_read c k (S n)
  = observed adc_read c k n + (if wrap_uint16 (adc_read (k + n)) =? c then 1 else 0).
Proof.
  induction n as [|n IH]; intros k.
  - cbn [observed]. rewrite Nat.add_0_r. lia.
  - change (observed adc_read c k (S (S n)))
      with ((if wrap_uint16 (adc_read k) =? c then 1 else 0)
            + observed adc_read c (S k) (S n)).
    rewrite IH. cbn [observed]. replace (S k + n)%nat with (k + S n)%nat by lia. lia.
Qed.

Lemma observed_bounds (c : Z) (n : nat) :
  forall k, 0 <= observed adc_read c k n <= Z.of_nat n.
Proof.
  induction n as [|n IH]; intros k; cbn [observed]; [lia|].
  specialize (IH (S k)). destruct (_ =? c); lia.
Qed.

Lemma sample_once_counted (r0 n : nat) (m : Sketch) :
  Z.of_nat n + 1 < 2 ^ 32 ->
  counted adc_read r0 n m ->
  counted adc_read r0 (S n) (sample_once pio_sm_is_tx_fifo_full adc_read m).
Proof.
  intros Hn (Hr & Hlen & Hcount).
  destruct (feed_effect pio_sm_is_tx_fifo_full m _ eq_refl) as (Fh & Fr & _).
  unfold sample_once, counted. cbn [sk_reads sk_histogram]. rewrite Fh, Fr, Hr.
  set (code := wrap_uint16 (adc_read (r0 + n))).
  assert (Hcode : 0 <= code <= 65535) by apply wrap_uint16_range.
  split; [lia|].
  destruct (Z.ltb_spec code 4096) as [Hin|Hout].
  - split; [rewrite length_aset; exact Hlen|].
    intros c Hc. rewrite observed_last. fold code.
    destruct (Z.eqb_spec code c) as [->|Hne].
    + rewrite aget_aset_eq by lia. rewrite Hcount by lia.
      pose proof (observed_bounds c n r0).
      unfold wrap_uint32. rewrite Z.mod_small by lia. reflexivity.
    + rewrite aget_aset_ne by lia. rewrite Hcount by lia. lia.
  - split; [exact Hlen|].
    intros c Hc. rewrite observed_last. fold code.
    destruct (Z.eqb_spec code c); [lia|]. rewrite Hcount by lia. lia.
Qed.

(** X5.  After [collect_histogram], the counter of every code below
    4096 holds the number of conversions of the run that returned this
    code, whatever the histogram held before. *)
Theorem collect_histogram_counts_each_code
    (settle_spins : nat -> Z -> nat) (SAMPLES_PER_LEVEL : Z) (m : Sketch) (c : Z) :
  0 <= SAMPLES_PER_LEVEL ->
  NUM_SWEEPS * 4096 * SAMPLES_PER_LEVEL < 2 ^ 32 ->
  0 <= c < 4096 ->
  aget (sk_histogram
          (collect_histogram pio_sm_is_tx_fifo_full adc_read settle_spins
             SAMPLES_PER_LEVEL m)) c
  = observed adc_read c (sk_reads m) (Z.to_nat (NUM_SWEEPS * 4096 * SAMPLES_PER_LEVEL)).
Proof.
  intros HS HN Hc.
  pose proof (collect_invariant pio_sm_is_tx_fifo_full adc_read settle_spins
                SAMPLES_PER_LEVEL (counted adc_read (sk_reads m))) as Hinv.
  destruct (Hinv ltac:(intros n m1 m2 Hh Hr (H1 & H2 & H3); unfold counted;
                       rewrite Hh, Hr; repeat split; assumption)
                 ltac:(intros n m1 Hn Hm1; apply sample_once_counted; assumption)
                 m HS HN) as (_ & _ & Hcount).
  - unfold counted. cbn [sk_reads sk_histogram]. split; [lia|].
    split; [apply length_replicate|].
    intros c' Hc'. rewrite aget_replicate by lia. reflexivity.
  - rewrite Hcount by exact Hc. f_equal. unfold NUM_SWEEPS. lia.
Qed.
End CountFacts.

Lemma collect_histogram_counts_each_code_witness :
  aget (sk_histogram
          (collect_histogram (fun _ => false) noisy_adc (fun _ _ => 2%nat) 128 idle_sketch)) 7
  = observed noisy_adc 7 (sk_reads idle_sketch) (Z.to_nat (NUM_SWEEPS * 4096 * 128)).
Proof.
  apply (collect_histogram_counts_each_code (fun _ => false) noisy_adc (fun _ _ => 2%nat)
           128 idle_sketch 7).
  - lia.
  - unfold NUM_SWEEPS. lia.
  - lia.
Defined.

Section CollectEnd.
Variable pio_sm_is_tx_fifo_full : nat -> bool.
Variable adc_read : nat -> Z.
Variable settle_spins : nat -> Z -> nat.
Variable SAMPLES_PER_LEVEL : Z.






End CollectEnd.

(** ** The LUT builder: the whole table *)

Lemma lut_step_int16 (h : list Z) (code_min code_max : Z) (e : spec_float)
    (i : Z) (st : spec_float * list Z) :
  0 <= code_max -> 0 <= i < 4096 ->
  lut_int16 i (snd st) ->
  lut_int16 (i + 1) (snd (lut_step h code_min code_max e i st)).
Proof.
  intros Hmax Hi (Hlen & Hlow).
  destruct st as [cum corr]. cbn [snd] in *. unfold lut_step.
  assert (Hidx : (Z.to_nat i < length corr)%nat) by lia.
  assert (Hset : forall v, in_int16 v -> lut_int16 (i + 1) (aset corr i v)).
  { intros v Hv. split; [rewrite length_aset; exact Hlen|].
    intros j Hj. destruct (Z.eq_dec j i) as [->|Hne].
    - rewrite aget_aset_eq by exact Hidx. exact Hv.
    - rewrite aget_aset_ne by lia. apply Hlow. lia. }
  destruct (Z.ltb_spec i code_min) as [Hlt|Hge].
  - cbn [snd]. apply Hset. unfold in_int16. lia.
  - destruct (Z.gtb_spec i code_max) as [Hgt|Hle].
    + cbn [snd]. apply Hset. apply Hlow. lia.
    + cbv zeta. cbn [snd]. apply Hset. apply wrap_int16_range.
Qed.

Lemma lut_loop_int16 (h : list Z) (code_min code_max : Z) (e : spec_float)
    (n : nat) (st : spec_float * list Z) :
  0 <= code_max ->
  Z.of_nat n = 4096 ->
  length (snd st) = 4096%nat ->
  lut_int16 4096 (snd (for_loop n 0 1 (lut_step h code_min code_max e) st)).
Proof.
  intros Hmax Hn Hlen.
  apply (for_loop_range_inv (fun i st => lut_int16 i (snd st)) _ 0 4096); [|lia|lia|].
  - intros i s Hi HP. apply lut_step_int16; [lia | lia | exact HP].
  - split; [exact Hlen|]. intros; lia.
Qed.

Lemma Forall_aget (P : Z -> Prop) (a : list Z) :
  (forall j, 0 <= j < Z.of_nat (length a) -> P (aget a j)) -> Forall P a.
Proof.
  intros H. apply Forall_lookup_2. intros i x Hix.
  pose proof (lookup_lt_Some _ _ _ Hix) as Hlt.
  specialize (H (Z.of_nat i) ltac:(lia)).
  unfold aget in H. rewrite Nat2Z.id, Hix in H. exact H.
Qed.

Lemma build_correction_lut_wf (h : list Z) (cal0 : CalibrationData) :
  length (correction cal0) = 4096%nat ->
  cal_wf (build_correction_lut h cal0).
Proof.
  intros Hlen.
  destruct (scan_code_min_exit h) as (Hr1 & _).
  destruct (scan_code_max_exit h) as (Hr2 & _).
  rewrite build_correction_lut_eq.
  match goal with
  | |- context [for_loop 4096 0 1 (lut_step h ?a ?b ?e) ?st] =>
      pose proof (lut_loop_int16 h a b e 4096 st
                    ltac:(lia) ltac:(reflexivity) Hlen) as (Hl & Hin);
      set (filled := for_loop 4096 0 1 (lut_step h a b e) st) in *
  end.
  split; cbn [correction magic adc_min adc_max].
  - unfold in_uint32, CAL_MAGIC. lia.
  - exact Hl.
  - apply Forall_aget. intros j Hj. apply Hin. lia.
  - unfold in_uint16. lia.
  - unfold in_uint16. lia.
Qed.

(** X7.  Whatever the histogram, the record [build_correction_lut]
    produces has the magic number, 4096 entries that are values of
    [int16_t], and a range within 0..4095. *)
Theorem build_correction_lut_well_formed (h : list Z) (cal0 : CalibrationData) :
  length (correction cal0) = 4096%nat ->
  let cal := build_correction_lut h cal0 in
  cal_wf cal
  /\ magic cal = CAL_MAGIC
  /\ 0 <= adc_min cal <= 4095 /\ 0 <= adc_max cal <= 4095.
Proof.
  intros Hlen cal. subst cal.
  destruct (build_correction_lut_range h cal0) as (Hmagic & Hmin & Hmax).
  destruct (scan_code_min_exit h) as (Hr1 & _).
  destruct (scan_code_max_exit h) as (Hr2 & _).
  split; [exact (build_correction_lut_wf h cal0 Hlen)|].
  split; [exact Hmagic|]. rewrite Hmin, Hmax. lia.
Qed.

Lemma build_correction_lut_well_formed_witness :
  let cal := build_correction_lut peak_histogram sample_record in
  cal_wf cal
  /\ magic cal = CAL_MAGIC
  /\ 0 <= adc_min cal <= 4095 /\ 0 <= adc_max cal <= 4095.
Proof.
  apply (build_correction_lut_well_formed peak_histogram sample_record).
  apply length_replicate.
Defined.

(** *** The previous table *)

Lemma list_eq_aget (a b : list Z) :
  length a = length b ->
  (forall j, 0 <= j < Z.of_nat (length a) -> aget a j = aget b j) ->
  a = b.
Proof.
  intros Hlen H. apply list_eq_same_length with (length a); [symmetry; exact Hlen | reflexivity |].
  intros i x y Hi Hx Hy.
  specialize (H (Z.of_nat i) ltac:(lia)). unfold aget in H.
  rewrite Nat2Z.id, Hx, Hy in H. exact H.
Qed.

Lemma lut_step_agree (h : list Z) (code_min code_max : Z) (e : spec_float)
    (i : Z) (st0 st1 : spec_float * list Z) :
  0 <= code_max -> 0 <= i < 4096 ->
  lut_agree i st0 st1 ->
  lut_agree (i + 1) (lut_step h code_min code_max e i st0)
    (lut_step h code_min code_max e i st1).
Proof.
  intros Hmax Hi (Hcum & Hl0 & Hl1 & Hlow).
  destruct st0 as [cum0 corr0], st1 as [cum1 corr1]. cbn [fst snd] in *. subst cum1.
  assert (Hset : forall c v w, v = w -> lut_agree (i + 1) (c, aset corr0 i v) (c, aset corr1 i w)).
  { intros c v w <-. unfold lut_agree. cbn [fst snd]. rewrite !length_aset.
    split; [reflexivity|]. split; [exact Hl0|]. split; [exact Hl1|].
    intros j Hj. destruct (Z.eq_dec j i) as [->|Hne].
    - rewrite !aget_aset_eq by lia. reflexivity.
    - rewrite !aget_aset_ne by lia. apply Hlow. lia. }
  unfold lut_step.
  destruct (Z.ltb_spec i code_min) as [Hlt|Hge].
  - apply Hset. reflexivity.
  - destruct (Z.gtb_spec i code_max) as [Hgt|Hle].
    + apply Hset. apply Hlow. lia.
    + cbv zeta. apply Hset. reflexivity.
Qed.

Lemma lut_loop_agree (h : list Z) (code_min code_max : Z) (e : spec_float) (n : nat) :
  0 <= code_max ->
  forall i st0 st1,
  0 <= i -> i + Z.of_nat n = 4096 ->
  lut_agree i st0 st1 ->
  lut_agree 4096 (for_loop n i 1 (lut_step h code_min code_max e) st0)
    (for_loop n i 1 (lut_step h code_min code_max e) st1).
Proof.
  intros Hmax. induction n as [|n IH]; intros i st0 st1 Hi Hn Hagree.
  - cbn [for_loop]. replace 4096 with i by lia. exact Hagree.
  - cbn [for_loop]. apply IH; [lia | lia |].
    apply lut_step_agree; [exact Hmax | lia | exact Hagree].
Qed.

Lemma lut_loop_same (h : list Z) (code_min code_max : Z) (e : spec_float) (n : nat)
    (corr0 corr1 : list Z) :
  0 <= code_max -> Z.of_nat n = 4096 ->
  length corr0 = 4096%nat -> length corr1 = 4096%nat ->
  snd (for_loop n 0 1 (lut_step h code_min code_max e) (F64.of_Z 0, corr0))
  = snd (for_loop n 0 1 (lut_step h code_min code_max e) (F64.of_Z 0, corr1)).
Proof.
  intros Hmax Hn H0 H1.
  assert (Hstart : lut_agree 0 (F64.of_Z 0, corr0) (F64.of_Z 0, corr1)).
  { unfold lut_agree. cbn [fst snd]. repeat split; try assumption. intros; lia. }
  destruct (lut_loop_agree h code_min code_max e n Hmax 0 _ _
              ltac:(lia) ltac:(lia) Hstart) as (_ & Hl0 & Hl1 & Hall).
  apply list_eq_aget; [congruence|]. intros j Hj. apply Hall. lia.
Qed.

(** X8.  The record [build_correction_lut] produces depends on the
    histogram only, not on what [cal_data] held before: every entry of the
    table is written before it is read. *)
Theorem build_correction_lut_ignores_previous (h : list Z) (cal0 cal1 : CalibrationData) :
  length (correction cal0) = 4096%nat ->
  length (correction cal1) = 4096%nat ->
  build_correction_lut h cal0 = build_correction_lut h cal1.
Proof.
  intros H0 H1. rewrite !build_correction_lut_eq.
  destruct (scan_code_max_exit h) as (Hr2 & _).
  rewrite (lut_loop_same h _ _ _ 4096 (correction cal0) (correction cal1));
    [reflexivity | lia | reflexivity | exact H0 | exact H1].
Qed.

Lemma build_correction_lut_ignores_previous_witness :
  build_correction_lut peak_histogram cal_zero = build_correction_lut peak_histogram sample_record.
Proof.
  apply (build_correction_lut_ignores_previous peak_histogram cal_zero sample_record).
  - apply length_replicate.
  - apply length_replicate.
Defined.

(** *** The range scans *)

(** X9.  The range scans of [build_correction_lut]: either no code of
    0..4095 has a count, and they give the inverted range 4095, 0; or they
    give the first and the last code with a nonzero count. *)
Theorem find_code_range_cases (h : list Z) :
  ((forall j, 0 <= j <= 4095 -> aget h j = 0)
   /\ find_code_min h = 4095 /\ find_code_max h = 0)
  \/ (0 <= find_code_min h <= find_code_max h /\ find_code_max h <= 4095
      /\ aget h (find_code_min h) <> 0 /\ aget h (find_code_max h) <> 0
      /\ (forall j, 0 <= j < find_code_min h -> aget h j = 0)
      /\ (forall j, find_code_max h < j <= 4095 -> aget h j = 0)).
Proof.
  destruct (scan_code_min_exit h) as (Hr1 & Hz1 & He1).
  destruct (scan_code_max_exit h) as (Hr2 & Hz2 & He2).
  destruct (Z.eq_dec (aget h (find_code_min h)) 0) as [Hmin0|Hmin].
  - left. destruct He1 as [He1|He1]; [|contradiction].
    assert (Hall : forall j, 0 <= j <= 4095 -> aget h j = 0).
    { intros j Hj. destruct (Z.eq_dec j 4095) as [->|Hne].
      - rewrite <- He1. exact Hmin0.
      - apply Hz1. lia. }
    split; [exact Hall|]. split; [exact He1|].
    destruct He2 as [He2|He2]; [exact He2|].
    exfalso. apply He2. apply Hall. lia.
  - right.
    assert (Hle : find_code_min h <= find_code_max h).
    { destruct (Z.le_gt_cases (find_code_min h) (find_code_max h)) as [Hle|Hgt]; [exact Hle|].
      exfalso. apply Hmin. apply Hz2. lia. }
    assert (Hmax : aget h (find_code_max h) <> 0).
    { destruct He2 as [He2|He2]; [|exact He2].
      replace (find_code_max h) with (find_code_min h) by lia. exact Hmin. }
    repeat split; try lia; assumption.
Qed.

(** *** The table applied *)

(** X10.  With the table built from any histogram, [adc_corrected]
    returns a code below [adc_min] unchanged, and adds to a code above
    [adc_max] the correction of [adc_max], clamped to 0..4095. *)
Theorem adc_corrected_outside_range (h : list Z) (cal0 : CalibrationData) (raw : Z) :
  length (correction cal0) = 4096%nat ->
  0 <= raw <= 4095 ->
  let cal := build_correction_lut h cal0 in
  (raw < adc_min cal -> adc_corrected cal raw = Some raw)
  /\ (adc_max cal < raw ->
      adc_corrected cal raw
      = Some (Z.max 0 (Z.min 4095 (raw + aget (correction cal) (adc_max cal))))).
Proof.
  intros Hlen Hraw cal. subst cal.
  destruct (build_correction_lut_range h cal0) as (_ & Hmin & Hmax).
  destruct (build_correction_lut_edges h cal0 Hlen) as (_ & Hlow & Hhigh).
  rewrite Hmin, Hmax. unfold adc_corrected.
  destruct (Z.ltb_spec raw 4096) as [_|?]; [|lia].
  split; intros Hout.
  - rewrite Hlow by lia. rewrite Z.add_0_r.
    destruct (Z.ltb_spec raw 0); [lia|]. destruct (Z.gtb_spec raw 4095); [lia|].
    unfold wrap_uint16. rewrite Z.mod_small by lia. reflexivity.
  - rewrite Hhigh by lia.
    set (v := raw + aget (correction (build_correction_lut h cal0)) (find_code_max h)).
    destruct (Z.ltb_spec v 0).
    + destruct (Z.gtb_spec 0 4095); [lia|]. f_equal. unfold wrap_uint16.
      rewrite Z.mod_small by lia. lia.
    + destruct (Z.gtb_spec v 4095); f_equal; unfold wrap_uint16;
        rewrite Z.mod_small by lia; lia.
Qed.

Lemma adc_corrected_outside_range_witness :
  let cal := build_correction_lut peak_histogram cal_zero in
  (1500 < adc_min cal -> adc_corrected cal 1500 = Some 1500)
  /\ (adc_max cal < 1500 ->
      adc_corrected cal 1500
      = Some (Z.max 0 (Z.min 4095 (1500 + aget (correction cal) (adc_max cal))))).
Proof.
  apply (adc_corrected_outside_range peak_histogram cal_zero 1500).
  - apply length_replicate.
  - lia.
Defined.

(** *** The table stored *)

(** X11.  The record built from any histogram and saved on a store
    that mounts (at once or after formatting) and lets the file be written
    is accepted by [load_calibration], which returns this record whatever
    [cal_data] held. *)
Theorem build_save_load_round_trip
    (fs : LittleFS) (h : list Z) (cal0 cal1 : CalibrationData) :
  length (correction cal0) = 4096%nat ->
  fs_mounts fs = true \/ fs_mounts_formatted fs = true ->
  fs_creatable fs cal_path = true ->
  let cal := build_correction_lut h cal0 in
  load_calibration (save_calibration fs h cal) cal1 = (true, cal).
Proof.
  intros Hlen Hmount Hcreate cal.
  destruct (save_calibration_stores fs h cal Hmount Hcreate) as (Hm & Hfile).
  rewrite (load_calibration_read _ cal1 _ Hm Hfile).
  destruct (build_correction_lut_range h cal0) as (Hmagic & _). fold cal in Hmagic.
  pose proof (build_correction_lut_wf h cal0 Hlen) as Hwf. fold cal in Hwf.
  rewrite overlay_full by exact Hwf.
  rewrite Hmagic, Z.eqb_refl, andb_true_r.
  unfold bytes_read. rewrite (length_cal_to_bytes cal (wf_len cal Hwf)).
  rewrite Z.min_id, Z.eqb_refl. reflexivity.
Qed.

Lemma build_save_load_round_trip_witness :
  let cal := build_correction_lut peak_histogram cal_zero in
  load_calibration (save_calibration blank_store peak_histogram cal) sample_record
  = (true, cal).
Proof.
  apply (build_save_load_round_trip blank_store peak_histogram cal_zero sample_record).
  - apply length_replicate.
  - right. reflexivity.
  - reflexivity.
Defined.

(** ** Persistence: the files *)

Lemma save_calibration_other (fs : LittleFS) (h : list Z) (cal : CalibrationData)
    (path : string) :
  path <> "/adc_cal.csv"%string -> path <> cal_path ->
  fs_files (save_calibration fs h cal) !! path
  = if fs_mounts fs then fs_files fs !! path else None.
Proof.
  intros Hcsv Hbin.
  assert (Hstores : forall fs0 csv bin,
            fs_files
              (let fs1 := if fs_creatable fs0 "/adc_cal.csv"
                          then fs_store fs0 "/adc_cal.csv" csv else fs0 in
               if fs_creatable fs1 cal_path then fs_store fs1 cal_path bin else fs1)
              !! path
            = fs_files fs0 !! path).
  { intros fs0 csv bin. cbv zeta.
    destruct (fs_creatable fs0 "/adc_cal.csv").
    - rewrite fs_store_creatable. destruct (fs_creatable fs0 cal_path).
      + unfold fs_store. cbn [fs_files].
        rewrite !lookup_insert_ne by congruence. reflexivity.
      + unfold fs_store. cbn [fs_files]. rewrite lookup_insert_ne by congruence. reflexivity.
    - destruct (fs_creatable fs0 cal_path); [|reflexivity].
      unfold fs_store. cbn [fs_files]. rewrite lookup_insert_ne by congruence. reflexivity. }
  unfold save_calibration. destruct (fs_mounts fs) eqn:Hm.
  - cbn [negb]. apply Hstores.
  - destruct (fs_mounts (fs_format fs)) eqn:Hf; cbn [negb].
    + rewrite Hstores. unfold fs_format. cbn [fs_files]. apply lookup_empty.
    + unfold fs_format. cbn [fs_files]. apply lookup_empty.
Qed.

(** X12.  [save_calibration] writes no file but /adc_cal.csv and
    /adc_cal.bin.  On a store that mounts, every other file is as it was;
    on a store that does not mount, which it formats, no other file is
    left, whether or not the store mounts afterwards. *)
Theorem save_calibration_other_files (fs : LittleFS) (h : list Z) (cal : CalibrationData)
    (path : string) :
  path <> "/adc_cal.csv"%string -> path <> cal_path ->
  fs_files (save_calibration fs h cal) !! path
  = if fs_mounts fs then fs_files fs !! path else None.
Proof. apply save_calibration_other. Qed.

Lemma save_calibration_other_files_witness :
  fs_files (save_calibration blank_store zero_histogram sample_record) !! hist_path
  = if fs_mounts blank_store then fs_files blank_store !! hist_path else None.
Proof.
  apply (save_calibration_other_files blank_store zero_histogram sample_record hist_path).
  - discriminate.
  - discriminate.
Defined.

Lemma profile_load_absent (fs : LittleFS) (h : list Z) (cal : CalibrationData) :
  fs_files fs !! hist_path = None ->
  load_calibration_from_file fs h cal = (false, h, cal).
Proof.
  intros Hno. unfold load_calibration_from_file, fs_open_r. rewrite Hno.
  destruct (negb (fs_mounts fs)); reflexivity.
Qed.

(** X13.  [save_calibration] never writes /histogram.bin, the one file
    the loaders of ADCProfile read: on a store that did not hold this file,
    or that had to be formatted, both loaders answer false after a save and
    leave [histogram] and [cal_data] as they were. *)
Theorem saved_store_has_no_profile (fs : LittleFS) (h h0 : list Z)
    (cal cal0 : CalibrationData) :
  fs_mounts fs = false \/ fs_files fs !! hist_path = None ->
  load_calibration_from_file (save_calibration fs h cal) h0 cal0 = (false, h0, cal0)
  /\ Application.load_calibration_from_file (save_calibration fs h cal) h0 cal0
     = (false, h0, cal0).
Proof.
  intros Hno.
  assert (Hfile : fs_files (save_calibration fs h cal) !! hist_path = None).
  { rewrite save_calibration_other by discriminate.
    destruct Hno as [-> | Hno]; [reflexivity|]. rewrite Hno. destruct (fs_mounts fs); reflexivity. }
  split; [apply profile_load_absent; exact Hfile|].
  unfold Application.load_calibration_from_file, fs_open_r. rewrite Hfile.
  destruct (negb _); reflexivity.
Qed.

Lemma saved_store_has_no_profile_witness :
  load_calibration_from_file (save_calibration blank_store zero_histogram sample_record)
    zero_histogram cal_zero = (false, zero_histogram, cal_zero)
  /\ Application.load_calibration_from_file
       (save_calibration blank_store zero_histogram sample_record) zero_histogram cal_zero
     = (false, zero_histogram, cal_zero).
Proof.
  apply (saved_store_has_no_profile blank_store zero_histogram zero_histogram
           sample_record cal_zero).
  left. reflexivity.
Defined.

(** ** Loading, then saving *)

(** X14.  After [load_calibration] has read a file of at least 8200
    bytes, whatever it answers, the image of [cal_data] is the first 8200
    bytes of the file, and a [save_calibration] that follows writes exactly
    these bytes back. *)
Theorem load_then_save_keeps_bytes (fs : LittleFS) (h : list Z) (cal : CalibrationData)
    (data : list byte) :
  fs_mounts fs = true ->
  fs_files fs !! cal_path = Some data ->
  sizeof_cal_data <= Z.of_nat (length data) ->
  fs_creatable fs cal_path = true ->
  let cal' := snd (load_calibration fs cal) in
  cal_to_bytes cal' = take (Z.to_nat sizeof_cal_data) data
  /\ fs_files (save_calibration fs h cal') !! cal_path
     = Some (take (Z.to_nat sizeof_cal_data) data).
Proof.
  intros Hm Hfile Hlen Hcreate cal'.
  assert (Hsize : sizeof_cal_data = 8200) by reflexivity.
  assert (Himg : cal_to_bytes cal' = take (Z.to_nat sizeof_cal_data) data).
  { subst cal'. rewrite (load_calibration_read fs cal data Hm Hfile). cbn [snd].
    unfold overlay.
    set (chunk := take (Z.to_nat sizeof_cal_data) data).
    assert (Hchunk : Z.of_nat (length chunk) = sizeof_cal_data).
    { subst chunk. rewrite length_take. lia. }
    rewrite cal_to_of_bytes by (rewrite length_app; lia).
    rewrite take_app_le by lia. apply take_ge. lia. }
  split; [exact Himg|].
  destruct (save_calibration_stores fs h cal' (or_introl Hm) Hcreate) as (_ & Hs).
  rewrite Hs, Himg. reflexivity.
Qed.

Lemma load_then_save_keeps_bytes_witness :
  let cal' := snd (load_calibration corrupt_store cal_zero) in
  cal_to_bytes cal' = take (Z.to_nat sizeof_cal_data) (cal_to_bytes corrupt_record)
  /\ fs_files (save_calibration corrupt_store zero_histogram cal') !! cal_path
     = Some (take (Z.to_nat sizeof_cal_data) (cal_to_bytes corrupt_record)).
Proof.
  apply (load_then_save_keeps_bytes corrupt_store zero_histogram cal_zero
           (cal_to_bytes corrupt_record)).
  - reflexivity.
  - reflexivity.
  - rewrite length_cal_to_bytes; [lia | apply length_replicate].
  - reflexivity.
Defined.

(** ** The companion loaders on a complete file *)

Lemma cal_of_bytes_prefix (mem rest : list byte) :
  sizeof_cal_data <= Z.of_nat (length mem) ->
  cal_of_bytes (take (Z.to_nat sizeof_cal_data) mem ++ rest) = cal_of_bytes mem.
Proof.
  unfold sizeof_cal_data. intros Hlen.
  assert (Hfield : forall off w, 0 <= off -> 0 <= w -> off + w <= 8200 ->
            field off w (take (Z.to_nat 8200) mem ++ rest) = field off w mem).
  { intros off w Hoff Hw Hin.
    rewrite field_app_l by (rewrite ?length_take; lia).
    apply field_take; lia. }
  unfold cal_of_bytes. f_equal; try (apply Hfield; lia).
  apply list_fmap_ext. intros i k Hk. apply lookup_seqZ in Hk as [-> Hi].
  f_equal. apply Hfield; lia.
Qed.

Lemma hist_of_bytes_prefix (mem rest : list byte) :
  sizeof_histogram <= Z.of_nat (length mem) ->
  hist_of_bytes (take (Z.to_nat sizeof_histogram) mem ++ rest) = hist_of_bytes mem.
Proof.
  unfold sizeof_histogram. intros Hlen. unfold hist_of_bytes.
  apply list_fmap_ext. intros i k Hk. apply lookup_seqZ in Hk as [-> Hi].
  rewrite field_app_l by (rewrite ?length_take; lia).
  apply field_take; lia.
Qed.

Lemma application_load_complete (fs : LittleFS) (h : list Z) (cal : CalibrationData)
    (data : list byte) :
  fs_mounts fs = true ->
  fs_files fs !! hist_path = Some data ->
  sizeof_histogram + sizeof_cal_data <= Z.of_nat (length data) ->
  Application.load_calibration_from_file fs h cal
  = (field sizeof_histogram 4 data =? CAL_MAGIC,
     hist_of_bytes data,
     cal_of_bytes (drop (Z.to_nat sizeof_histogram) data)).
Proof.
  intros Hm Hfile Hlen.
  assert (Hs1 : sizeof_histogram = 16384) by reflexivity.
  assert (Hs2 : sizeof_cal_data = 8200) by reflexivity.
  unfold Application.load_calibration_from_file, fs_open_r. rewrite Hm, Hfile. cbn [negb].
  unfold file_read. cbn [f_data f_pos]. change (Z.to_nat 0) with 0%nat. rewrite drop_0.
  set (chunk1 := take (Z.to_nat sizeof_histogram) data).
  assert (Hl1 : length chunk1 = Z.to_nat sizeof_histogram).
  { subst chunk1. rewrite length_take. lia. }
  replace (Z.to_nat (0 + Z.of_nat (length chunk1))) with (Z.to_nat sizeof_histogram) by lia.
  set (rest := drop (Z.to_nat sizeof_histogram) data).
  assert (Hrest : sizeof_cal_data <= Z.of_nat (length rest)).
  { subst rest. rewrite length_drop. lia. }
  set (chunk2 := take (Z.to_nat sizeof_cal_data) rest).
  assert (Hl2 : length chunk2 = Z.to_nat sizeof_cal_data).
  { subst chunk2. rewrite length_take. lia. }
  assert (Hhist : hist_of_bytes (chunk1 ++ drop (length chunk1) (hist_to_bytes h))
                  = hist_of_bytes data).
  { subst chunk1. apply hist_of_bytes_prefix. lia. }
  assert (Hcal : cal_of_bytes (chunk2 ++ drop (length chunk2) (cal_to_bytes cal))
                 = cal_of_bytes rest).
  { subst chunk2. apply cal_of_bytes_prefix. exact Hrest. }
  rewrite Hhist, Hcal.
  replace (Z.of_nat (length chunk1) =? sizeof_histogram) with true by (symmetry; lia).
  replace (Z.of_nat (length chunk2) =? sizeof_cal_data) with true by (symmetry; lia).
  cbn [andb].
  assert (Hmagic : magic (cal_of_bytes rest) = field sizeof_histogram 4 data).
  { unfold cal_of_bytes. cbn [magic]. subst rest. rewrite field_drop by lia.
    f_equal; lia. }
  rewrite Hmagic. destruct (_ =? CAL_MAGIC); reflexivity.
Qed.

Lemma load_calibration_from_file_smooths (fs : LittleFS) (h : list Z)
    (cal : CalibrationData) :
  load_calibration_from_file fs h cal
  = match Application.load_calibration_from_file fs h cal with
    | (true, h', cal') => (true, h', smooth_correction_table cal')
    | r => r
    end.
Proof.
  unfold load_calibration_from_file, Application.load_calibration_from_file.
  destruct (negb (fs_mounts fs)); [reflexivity|].
  destruct (fs_open_r fs hist_path) as [f|]; [|reflexivity].
  destruct (file_read f (hist_to_bytes h) sizeof_histogram) as [[f1 hmem] n1].
  destruct (file_read f1 (cal_to_bytes cal) sizeof_cal_data) as [[f2 cmem] n2].
  destruct ((n1 =? sizeof_histogram) && (n2 =? sizeof_cal_data)
            && (magic (cal_of_bytes cmem) =? CAL_MAGIC)); reflexivity.
Qed.

(** X15.  On a mounted store whose /histogram.bin holds at least
    16384 + 8200 bytes, the loader of the application replaces [histogram]
    and [cal_data] by what the file holds, whatever they held and whatever
    it answers, and it answers true exactly when the magic field of the
    stored record is 0xCA11B8ED. *)
Theorem application_loader_complete_file (fs : LittleFS) (h : list Z)
    (cal : CalibrationData) (data : list byte) :
  fs_mounts fs = true ->
  fs_files fs !! hist_path = Some data ->
  sizeof_histogram + sizeof_cal_data <= Z.of_nat (length data) ->
  Application.load_calibration_from_file fs h cal
  = (field sizeof_histogram 4 data =? CAL_MAGIC,
     hist_of_bytes data,
     cal_of_bytes (drop (Z.to_nat sizeof_histogram) data)).
Proof. apply application_load_complete. Qed.

Lemma complete_store_size :
  sizeof_histogram + sizeof_cal_data
  <= Z.of_nat (length (hist_to_bytes (replicate 4096 9) ++ cal_to_bytes sample_record)).
Proof.
  rewrite length_app, Nat2Z.inj_add.
  rewrite (length_cal_to_bytes sample_record) by apply length_replicate.
  unfold hist_to_bytes.
  rewrite (length_flat_map_const (le_encode 4) 4 (length_le_encode 4)), length_replicate.
  unfold sizeof_histogram. lia.
Qed.

Lemma application_loader_complete_file_witness :
  Application.load_calibration_from_file complete_store zero_histogram cal_zero
  = (field sizeof_histogram 4
       (hist_to_bytes (replicate 4096 9) ++ cal_to_bytes sample_record) =? CAL_MAGIC,
     hist_of_bytes (hist_to_bytes (replicate 4096 9) ++ cal_to_bytes sample_record),
     cal_of_bytes (drop (Z.to_nat sizeof_histogram)
                     (hist_to_bytes (replicate 4096 9) ++ cal_to_bytes sample_record))).
Proof.
  apply (application_loader_complete_file complete_store zero_histogram cal_zero).
  - reflexivity.
  - reflexivity.
  - exact complete_store_size.
Defined.

(** X16.  The loader with smoothing, on the same file: when the magic
    field matches it answers true and leaves in [cal_data] the stored record
    smoothed; otherwise it answers false and leaves the stored record as it
    is stored.  In both cases [histogram] is the stored histogram. *)
Theorem profile_loader_complete_file (fs : LittleFS) (h : list Z)
    (cal : CalibrationData) (data : list byte) :
  fs_mounts fs = true ->
  fs_files fs !! hist_path = Some data ->
  sizeof_histogram + sizeof_cal_data <= Z.of_nat (length data) ->
  let stored := cal_of_bytes (drop (Z.to_nat sizeof_histogram) data) in
  load_calibration_from_file fs h cal
  = if field sizeof_histogram 4 data =? CAL_MAGIC
    then (true, hist_of_bytes data, smooth_correction_table stored)
    else (false, hist_of_bytes data, stored).
Proof.
  intros Hm Hfile Hlen stored.
  rewrite load_calibration_from_file_smooths.
  rewrite (application_load_complete fs h cal data Hm Hfile Hlen).
  destruct (_ =? CAL_MAGIC); reflexivity.
Qed.

Lemma profile_loader_complete_file_witness :
  let data := hist_to_bytes (replicate 4096 9) ++ cal_to_bytes sample_record in
  let stored := cal_of_bytes (drop (Z.to_nat sizeof_histogram) data) in
  load_calibration_from_file complete_store zero_histogram cal_zero
  = if field sizeof_histogram 4 data =? CAL_MAGIC
    then (true, hist_of_bytes data, smooth_correction_table stored)
    else (false, hist_of_bytes data, stored).
Proof.
  apply (profile_loader_complete_file complete_store zero_histogram cal_zero).
  - reflexivity.
  - reflexivity.
  - exact complete_store_size.
Defined.

(** ** The smoother: what it writes *)

(** X17.  [smooth_correction_table] changes at most the 32 entries
    c-16 .. c+15 around each boundary c; each of them becomes the
    interpolation of the two anchor entries, c-17 and c+16, of the table
    before the run. *)
Theorem smooth_correction_table_frame (cal : CalibrationData) :
  length (correction cal) = 4096%nat ->
  let cal' := smooth_correction_table cal in
  (forall j, 0 <= j <= 4095 ->
     (forall c, c ∈ boundaries -> ~ (c - 17 < j < c + 16)) ->
     aget (correction cal') j = aget (correction cal) j)
  /\ (forall c j, c ∈ boundaries -> c - 17 < j < c + 16 ->
        aget (correction cal') j
        = interpolate (c - 17) (c + 16)
            (aget (correction cal) (c - 17)) (aget (correction cal) (c + 16)) j).
Proof.
  intros Hlen cal'. subst cal'. unfold smooth_correction_table. cbn [correction].
  destruct (smooth_boundaries_post boundaries _ boundaries_separated Hlen)
    as (Hlen' & Hs & Hout).
  split.
  - intros j Hj Hnot. apply Hout; [lia|].
    apply Forall_forall. intros c Hc. specialize (Hnot c Hc).
    each_boundary Hc; rewrite left_index_inner, right_index_inner by lia; exact Hnot.
  - intros c j Hc Hj.
    pose proof (proj1 (Forall_forall _ _) Hs c Hc) as Hsm.
    destruct (anchors_outside_regions c Hc) as [Hleft Hright].
    destruct (boundary_region_in_table c Hc) as [Hl Hr].
    assert (Hli : left_index c = c - 17) by (each_boundary Hc; apply left_index_inner; lia).
    assert (Hri : right_index c = c + 16) by (each_boundary Hc; apply right_index_inner; lia).
    unfold smoothed in Hsm. specialize (Hsm j ltac:(lia)).
    rewrite (Hout (left_index c)) in Hsm by (lia || assumption).
    rewrite (Hout (right_index c)) in Hsm by (lia || assumption).
    rewrite Hli, Hri in Hsm. symmetry. exact Hsm.
Qed.

Lemma smooth_correction_table_frame_witness :
  let cal' := smooth_correction_table steep_table in
  (forall j, 0 <= j <= 4095 ->
     (forall c, c ∈ boundaries -> ~ (c - 17 < j < c + 16)) ->
     aget (correction cal') j = aget (correction steep_table) j)
  /\ (forall c j, c ∈ boundaries -> c - 17 < j < c + 16 ->
        aget (correction cal') j
        = interpolate (c - 17) (c + 16)
            (aget (correction steep_table) (c - 17))
            (aget (correction steep_table) (c + 16)) j).
Proof.
  apply (smooth_correction_table_frame steep_table).
  cbn [steep_table correction]. rewrite length_fmap, length_seqZ. reflexivity.
Defined.

(** *** Exact interpolation *)

Lemma forallb_elem {A : Type} (f : A -> bool) (l : list A) :
  forallb f l = true -> forall x, x ∈ l -> f x = true.
Proof.
  induction l as [|y l IH]; intros H x Hx.
  - apply elem_of_nil in Hx. contradiction.
  - cbn [forallb] in H. apply andb_true_iff in H as [Hy Hl].
    apply elem_of_cons in Hx as [->|Hx]; [exact Hy | apply IH; assumption].
Qed.

Lemma interpolation_exact_256 : interpolation_exact 256 = true.
Proof. vm_compute. reflexivity. Qed.

Lemma quot_between (k d : Z) :
  1 <= k <= 32 ->
  Z.min 0 d <= Z.quot (k * d) 33 <= Z.max 0 d.
Proof.
  intros Hk. destruct (Z.le_gt_cases 0 d) as [Hd|Hd].
  - rewrite Z.quot_div_nonneg by nia.
    assert (0 <= k * d / 33) by (apply Z.div_pos; nia).
    assert (k * d / 33 <= d) by (apply Z.div_le_upper_bound; nia).
    lia.
  - replace (k * d) with (- (k * - d)) by lia. rewrite Z.quot_opp_l by lia.
    rewrite Z.quot_div_nonneg by nia.
    assert (0 <= k * - d / 33) by (apply Z.div_pos; nia).
    assert (k * - d / 33 <= - d) by (apply Z.div_le_upper_bound; nia).
    lia.
Qed.

Lemma interpolation_exact_spec (D k d : Z) :
  interpolation_exact D = true ->
  1 <= k <= 32 -> - D <= d <= D ->
  float_to_int16 (F32.mul (F32.div (F32.of_Z k) (F32.of_Z 33)) (F32.of_Z d))
  = Z.quot (k * d) 33.
Proof.
  intros Hall Hk Hd. unfold interpolation_exact in Hall.
  pose proof (forallb_elem _ _ Hall k ltac:(apply elem_of_seqZ; lia)) as Hrow.
  cbv beta zeta in Hrow.
  pose proof (forallb_elem _ _ Hrow d ltac:(apply elem_of_seqZ; lia)) as Hcase.
  cbv beta in Hcase. apply Z.eqb_eq in Hcase. exact Hcase.
Qed.

Lemma interpolate_exact (l r lv rv i : Z) :
  r - l = 33 -> 1 <= i - l <= 32 ->
  Z.abs (rv - lv) <= 256 -> in_int16 lv -> in_int16 rv ->
  interpolate l r lv rv i = lv + Z.quot ((i - l) * (rv - lv)) 33.
Proof.
  intros Hr Hi Hd Hlv Hrv. unfold interpolate. rewrite Hr. cbv zeta.
  rewrite (interpolation_exact_spec 256 (i - l) (rv - lv) interpolation_exact_256 Hi)
    by lia.
  pose proof (quot_between (i - l) (rv - lv) Hi) as Hq.
  unfold in_int16 in *. unfold wrap_int16. rewrite Z.mod_small by lia. lia.
Qed.

(** X18.  When the two anchors of every boundary are at most 256
    apart, the binary32 interpolation is exact integer interpolation: the
    entry j around the boundary c becomes
    [lv + (j - (c - 17)) * (rv - lv) / 33], the quotient truncated toward
    zero, and lies between the two anchors [lv] and [rv]. *)
Theorem smooth_correction_table_interpolates (cal : CalibrationData) :
  length (correction cal) = 4096%nat ->
  Forall in_int16 (correction cal) ->
  (forall c, c ∈ boundaries ->
     Z.abs (aget (correction cal) (c + 16) - aget (correction cal) (c - 17)) <= 256) ->
  forall c j, c ∈ boundaries -> c - 17 < j < c + 16 ->
  let lv := aget (correction cal) (c - 17) in
  let rv := aget (correction cal) (c + 16) in
  aget (correction (smooth_correction_table cal)) j
  = lv + Z.quot ((j - (c - 17)) * (rv - lv)) 33
  /\ Z.min lv rv <= aget (correction (smooth_correction_table cal)) j <= Z.max lv rv.
Proof.
  intros Hlen Hwf Hd c j Hc Hj lv rv.
  assert (Hin : forall j, 0 <= j <= 4095 -> in_int16 (aget (correction cal) j)).
  { intros j' Hj'. unfold aget.
    destruct (lookup_lt_is_Some_2 (correction cal) (Z.to_nat j') ltac:(lia)) as [v Hv].
    rewrite Hv. eapply Forall_lookup_1 in Hwf; [exact Hwf | exact Hv]. }
  unfold smooth_correction_table. cbn [correction].
  destruct (smooth_boundaries_post boundaries _ boundaries_separated Hlen)
    as (Hlen' & Hs & Hout).
  pose proof (proj1 (Forall_forall _ _) Hs c Hc) as Hsm.
  destruct (anchors_outside_regions c Hc) as [Hleft Hright].
  destruct (boundary_region_in_table c Hc) as [Hl Hr].
  assert (Hli : left_index c = c - 17) by (each_boundary Hc; apply left_index_inner; lia).
  assert (Hri : right_index c = c + 16) by (each_boundary Hc; apply right_index_inner; lia).
  unfold smoothed in Hsm. specialize (Hsm j ltac:(lia)).
  rewrite (Hout (left_index c)) in Hsm by (lia || assumption).
  rewrite (Hout (right_index c)) in Hsm by (lia || assumption).
  rewrite Hli, Hri in Hsm. fold lv rv in Hsm.
  rewrite interpolate_exact in Hsm;
    [| lia | lia | subst lv rv; apply Hd; exact Hc
     | subst lv; apply Hin; each_boundary Hc; lia
     | subst rv; apply Hin; each_boundary Hc; lia].
  rewrite <- Hsm. split; [reflexivity|].
  pose proof (quot_between (j - (c - 17)) (rv - lv) ltac:(lia)). lia.
Qed.

Lemma step_table_steps (c : Z) :
  c ∈ boundaries ->
  Z.abs (aget (correction step_table) (c + 16) - aget (correction step_table) (c - 17)) <= 256.
Proof. intros Hc. each_boundary Hc; vm_compute; discriminate. Qed.

Lemma smooth_correction_table_interpolates_witness :
  let lv := aget (correction step_table) (512 - 17) in
  let rv := aget (correction step_table) (512 + 16) in
  aget (correction (smooth_correction_table step_table)) 500
  = lv + Z.quot ((500 - (512 - 17)) * (rv - lv)) 33
  /\ Z.min lv rv <= aget (correction (smooth_correction_table step_table)) 500 <= Z.max lv rv.
Proof.
  apply (smooth_correction_table_interpolates step_table).
  - cbn [step_table correction]. rewrite length_fmap, length_seqZ. reflexivity.
  - apply Forall_fmap, Forall_forall. intros k Hk. apply elem_of_seqZ in Hk.
    unfold compose, in_int16. cbv beta.
    assert (0 <= (k + 512) / 1024 < 5).
    { split; [apply Z.div_pos; lia | apply Z.div_lt_upper_bound; lia]. }
    lia.
  - exact step_table_steps.
  - unfold boundaries. apply elem_of_cons. left. reflexivity.
  - lia.
Defined.

(** ** The full calibration routine *)

Lemma for_loop_opt_steps {S : Type} (P : nat -> S -> Prop) (body : Z -> S -> option S)
    (step : Z) (n : nat) :
  (forall k i s s', (k < n)%nat -> P k s -> body i s = Some s' -> P (Datatypes.S k) s') ->
  forall i s s', P O s -> for_loop_opt n i step body s = Some s' -> P n s'.
Proof.
  revert P. induction n as [|n IH]; intros P Hstep i s s' H0 Hrun.
  - cbn in Hrun. injection Hrun as <-. exact H0.
  - cbn [for_loop_opt] in Hrun. destruct (body i s) as [s1|] eqn:Hb; [|discriminate].
    apply (IH (fun k => P (Datatypes.S k))) with (i := i + step) (s := s1).
    + intros k j t t' Hk Ht Hbody. apply (Hstep (Datatypes.S k) j t t'); [lia | exact Ht | exact Hbody].
    + apply (Hstep O i s s1); [lia | exact H0 | exact Hb].
    + exact Hrun.
Qed.

Lemma for_loop_opt_total {S : Type} (P : nat -> S -> Prop) (body : Z -> S -> option S)
    (step : Z) (n : nat) :
  (forall k i s, (k < n)%nat -> P k s -> exists s', body i s = Some s' /\ P (Datatypes.S k) s') ->
  forall i s, P O s -> exists s', for_loop_opt n i step body s = Some s' /\ P n s'.
Proof.
  revert P. induction n as [|n IH]; intros P Hstep i s H0.
  - exists s. split; [reflexivity | exact H0].
  - cbn [for_loop_opt].
    destruct (Hstep O i s ltac:(lia) H0) as (s1 & Hb & H1). rewrite Hb.
    apply (IH (fun k => P (Datatypes.S k))); [|exact H1].
    intros k j t Hk Ht. apply (Hstep (Datatypes.S k) j t); [lia | exact Ht].
Qed.

Section RoutineFacts.
Variable pio_sm_is_tx_fifo_full : nat -> bool.
Variable adc_read : nat -> Z.
Variable settle_spins : nat -> Z -> nat.
Variable SAMPLES_PER_LEVEL : Z.

Lemma adc_read_averaged_frame (n : Z) (m m' : Sketch) :
  0 <= n <= 65536 ->
  snd <$> adc_read_averaged pio_sm_is_tx_fifo_full adc_read n m = Some m' ->
  sk_reads m' = (sk_reads m + Z.to_nat n)%nat /\ sk_histogram m' = sk_histogram m.
Proof.
  intros Hn Hrun.
  destruct (average_loop_spec pio_sm_is_tx_fifo_full adc_read m (Z.to_nat n) ltac:(lia))
    as (_ & Hr & Hh & _).
  unfold adc_read_averaged in Hrun.
  destruct (for_loop _ 0 1 _ (0, m)) as [sum m1]. cbn [snd] in Hr, Hh.
  destruct (n =? 0); [discriminate|].
  cbn [fmap option_fmap option_map snd] in Hrun. injection Hrun as <-.
  split; assumption.
Qed.

Lemma quick_test_frame (m m' : Sketch) :
  quick_test pio_sm_is_tx_fifo_full adc_read settle_spins m = Some m' ->
  sk_reads m' = (sk_reads m + 5 * 256)%nat /\ sk_histogram m' = sk_histogram m.
Proof.
  unfold quick_test.
  destruct (for_loop_opt 5 0 1 _ m) as [m1|] eqn:Hloop; [|discriminate].
  intros Hrun. injection Hrun as <-. cbn [sk_reads sk_histogram].
  apply (for_loop_opt_steps
           (fun k s => sk_reads s = (sk_reads m + k * 256)%nat
                       /\ sk_histogram s = sk_histogram m)) in Hloop.
  - exact Hloop.
  - intros k i s s' Hk (Hr & Hh) Hbody. cbv zeta in Hbody.
    apply adc_read_averaged_frame in Hbody; [|lia].
    destruct Hbody as (Hr' & Hh').
    destruct (settle_frame pio_sm_is_tx_fifo_full settle_spins (aget quick_levels i) 5000 s)
      as [Sh Sr].
    rewrite Hr', Hh', Sh, Sr, Hr, Hh. change (Z.to_nat 256) with 256%nat. split; [lia | reflexivity].
  - split; [lia | reflexivity].
Qed.

Lemma verify_loop_frame (cal : CalibrationData) (n : nat) (st st' : Z * Z * Sketch) :
  for_loop_opt n 0 1 (fun _ st => verify_step pio_sm_is_tx_fifo_full adc_read cal st) st
  = Some st' ->
  sk_reads (snd st') = (sk_reads (snd st) + n)%nat
  /\ sk_histogram (snd st') = sk_histogram (snd st).
Proof.
  intros Hloop.
  apply (for_loop_opt_steps
           (fun k s => sk_reads (snd s) = (sk_reads (snd st) + k)%nat
                       /\ sk_histogram (snd s) = sk_histogram (snd st))) in Hloop.
  - exact Hloop.
  - intros k i [[rs cs] s] s' Hk (Hr & Hh) Hbody. cbn [snd] in Hr, Hh.
    unfold verify_step in Hbody.
    destruct (feed_effect pio_sm_is_tx_fifo_full s _ eq_refl) as (Fh & Fr & _).
    destruct (adc_corrected cal _) as [v|]; [|discriminate].
    injection Hbody as <-. cbn [snd sk_reads sk_histogram].
    rewrite Fh, Fr, Hr, Hh. split; [lia | reflexivity].
  - split; [lia | reflexivity].
Qed.

Lemma verify_calibration_frame (cal : CalibrationData) (m m' : Sketch) :
  verify_calibration pio_sm_is_tx_fifo_full adc_read settle_spins cal m = Some m' ->
  sk_reads m' = (sk_reads m + 7 * 256)%nat /\ sk_histogram m' = sk_histogram m
  /\ sd_target (sk_dac m') = 0.
Proof.
  unfold verify_calibration.
  destruct (for_loop_opt 7 0 1 _ m) as [m1|] eqn:Hloop; [|discriminate].
  intros Hrun. injection Hrun as <-. cbn [sk_reads sk_histogram sk_dac].
  apply (for_loop_opt_steps
           (fun k s => sk_reads s = (sk_reads m + k * 256)%nat
                       /\ sk_histogram s = sk_histogram m)) in Hloop.
  - destruct Hloop as (Hr & Hh). split; [exact Hr|]. split; [exact Hh|].
    rewrite dac_set_level_target by lia. reflexivity.
  - intros k i s s' Hk (Hr & Hh) Hbody. cbv zeta in Hbody.
    destruct (for_loop_opt 256 0 1 _ _) as [[[rs cs] s1]|] eqn:Hinner; [|discriminate].
    injection Hbody as <-.
    apply verify_loop_frame in Hinner. cbn [snd] in Hinner. destruct Hinner as (Hr' & Hh').
    match type of Hr' with
    | _ = (sk_reads (dac_set_and_settle _ _ ?lv ?us _) + _)%nat =>
        destruct (settle_frame pio_sm_is_tx_fifo_full settle_spins lv us s) as [Sh Sr]
    end.
    rewrite Hr', Hh', Sh, Sr, Hr, Hh. split; [lia | reflexivity].
  - split; [lia | reflexivity].
Qed.

Lemma quick_test_defined (m : Sketch) :
  is_Some (quick_test pio_sm_is_tx_fifo_full adc_read settle_spins m).
Proof.
  unfold quick_test.
  match goal with
  | |- is_Some (match for_loop_opt 5 0 1 ?body m with _ => _ end) =>
      destruct (for_loop_opt_total (fun _ _ => True) body 1 5)
        with (i := 0) (s := m) as (m' & Hloop & _)
  end.
  - intros k i s _ _. cbv zeta. unfold adc_read_averaged.
    destruct (for_loop _ 0 1 _ _) as [sum s1].
    change (256 =? 0) with false. cbv iota. eexists. split; [reflexivity | exact I].
  - exact I.
  - rewrite Hloop. eexists. reflexivity.
Qed.

Lemma verify_loop_defined (cal : CalibrationData) (n : nat) :
  forall (i : Z) (st : Z * Z * Sketch),
  (forall j, (j < n)%nat -> wrap_uint16 (adc_read (sk_reads (snd st) + j)) < 4096) ->
  is_Some (for_loop_opt n i 1
             (fun _ st => verify_step pio_sm_is_tx_fifo_full adc_read cal st) st).
Proof.
  induction n as [|n IH]; intros i [[rs cs] m] Hall.
  - eexists. reflexivity.
  - cbn [for_loop_opt]. cbv beta. unfold verify_step at 1. cbv beta iota zeta.
    destruct (feed_effect pio_sm_is_tx_fifo_full m _ eq_refl) as (_ & Fr & _).
    rewrite Fr. cbn [snd] in Hall.
    pose proof (Hall O ltac:(lia)) as H0. rewrite Nat.add_0_r in H0.
    pose proof (wrap_uint16_range (adc_read (sk_reads m))) as Hw.
    destruct (adc_corrected_cases cal (wrap_uint16 (adc_read (sk_reads m)))) as [Hin _].
    destruct (Hin ltac:(lia)) as (v & -> & _).
    apply IH. cbn [snd sk_reads]. intros j Hj.
    replace (S (sk_reads m) + j)%nat with (sk_reads m + S j)%nat by lia.
    apply Hall. lia.
Qed.

Lemma verify_calibration_defined (cal : CalibrationData) (m : Sketch) :
  (forall j, (j < 7 * 256)%nat -> wrap_uint16 (adc_read (sk_reads m + j)) < 4096) ->
  is_Some (verify_calibration pio_sm_is_tx_fifo_full adc_read settle_spins cal m).
Proof.
  intros Hall. unfold verify_calibration.
  match goal with
  | |- is_Some (match for_loop_opt 7 0 1 ?body m with _ => _ end) =>
      destruct (for_loop_opt_total
                  (fun k s => sk_reads s = (sk_reads m + k * 256)%nat) body 1 7)
        with (i := 0) (s := m) as (m' & Hloop & _)
  end.
  - intros k i s Hk Hr. cbv zeta.
    match goal with
    | |- context [dac_set_and_settle _ _ ?lv ?us s] =>
        destruct (settle_frame pio_sm_is_tx_fifo_full settle_spins lv us s) as [Sh Sr];
        set (s0 := dac_set_and_settle pio_sm_is_tx_fifo_full settle_spins lv us s) in *
    end.
    destruct (verify_loop_defined cal 256 0 (0, 0, s0)) as [[[rs cs] s1] Hinner].
    { cbn [snd]. intros j Hj. rewrite Sr, Hr.
      replace (sk_reads m + k * 256 + j)%nat with (sk_reads m + (k * 256 + j))%nat by lia.
      apply Hall. lia. }
    rewrite Hinner. exists s1. split; [reflexivity|].
    apply verify_loop_frame in Hinner. cbn [snd] in Hinner.
    destruct Hinner as (Hr' & _). rewrite Hr', Sr, Hr. lia.
  - lia.
  - rewrite Hloop. eexists. reflexivity.
Qed.

(** What the steps after [quick_test] leave, for a collected sketch
    [sk1] and a built record [cal]. *)
Lemma calibration_stored (fs : LittleFS) (h : list Z) (cal cal1 : CalibrationData) :
  cal_wf cal -> magic cal = CAL_MAGIC ->
  fs_mounts fs = true \/ fs_mounts_formatted fs = true ->
  fs_creatable fs cal_path = true ->
  load_calibration (save_calibration fs h cal) cal1 = (true, cal).
Proof.
  intros Hwf Hmagic Hmount Hcreate.
  destruct (save_calibration_stores fs h cal Hmount Hcreate) as (Hm & Hfile).
  rewrite (load_calibration_read _ cal1 _ Hm Hfile).
  rewrite overlay_full by exact Hwf.
  rewrite Hmagic, Z.eqb_refl, andb_true_r.
  unfold bytes_read. rewrite (length_cal_to_bytes cal (wf_len cal Hwf)).
  rewrite Z.min_id, Z.eqb_refl. reflexivity.
Qed.

Lemma collect_histogram_counted (sk0 : Sketch) :
  0 <= SAMPLES_PER_LEVEL ->
  NUM_SWEEPS * 4096 * SAMPLES_PER_LEVEL < 2 ^ 32 ->
  counted adc_read (sk_reads sk0) (Z.to_nat (NUM_SWEEPS * 4096 * SAMPLES_PER_LEVEL))
    (collect_histogram pio_sm_is_tx_fifo_full adc_read settle_spins SAMPLES_PER_LEVEL sk0).
Proof.
  intros HS HN.
  pose proof (collect_invariant pio_sm_is_tx_fifo_full adc_read settle_spins
                SAMPLES_PER_LEVEL (counted adc_read (sk_reads sk0))) as Hinv.
  replace (Z.to_nat (NUM_SWEEPS * 4096 * SAMPLES_PER_LEVEL))
    with (4 * (4096 * Z.to_nat SAMPLES_PER_LEVEL))%nat by (unfold NUM_SWEEPS; lia).
  apply Hinv.
  - intros n m1 m2 Hh Hr (H1 & H2 & H3). unfold counted.
    rewrite Hh, Hr. repeat split; assumption.
  - intros n m1 Hn Hm1. apply sample_once_counted; assumption.
  - exact HS.
  - exact HN.
  - unfold counted. cbn [sk_reads sk_histogram]. split; [lia|].
    split; [apply length_replicate|].
    intros c' Hc'. rewrite aget_replicate by lia. reflexivity.
Qed.

Lemma run_calibration_facts (reads0 : nat) (N : nat) (cal0 cal cal1 : CalibrationData)
    (fs : LittleFS) (sk0 sk1 sk2 : Sketch) :
  sk_reads sk0 = (reads0 + 5 * 256)%nat ->
  counted adc_read (sk_reads sk0) N sk1 ->
  cal = build_correction_lut (sk_histogram sk1) cal0 ->
  length (correction cal0) = 4096%nat ->
  cal_wf cal -> magic cal = CAL_MAGIC ->
  fs_mounts fs = true \/ fs_mounts_formatted fs = true ->
  fs_creatable fs cal_path = true ->
  sk_reads sk2 = (sk_reads sk1 + 7 * 256)%nat ->
  sk_histogram sk2 = sk_histogram sk1 ->
  sd_target (sk_dac sk2) = 0 ->
  let M' := mkMachine sk2 cal (save_calibration fs (sk_histogram sk1) cal) in
  (forall c, 0 <= c < 4096 ->
     aget (sk_histogram (m_sketch M')) c = observed adc_read c (reads0 + 5 * 256) N)
  /\ m_cal M' = build_correction_lut (sk_histogram (m_sketch M')) cal0
  /\ load_calibration (m_fs M') cal1 = (true, m_cal M')
  /\ sk_reads (m_sketch M') = (reads0 + 5 * 256 + N + 7 * 256)%nat
  /\ sd_target (sk_dac (m_sketch M')) = 0.
Proof.
  intros Qr (Cr & _ & Ccount) Hcal Hlen Hwf Hmagic Hmount Hcreate Vr Vh Vt M'.
  subst M'. cbn [m_sketch m_cal m_fs].
  split; [intros c Hc; rewrite Vh, Ccount by exact Hc; rewrite Qr; reflexivity|].
  split; [rewrite Vh; exact Hcal|].
  split; [apply calibration_stored; assumption|].
  split; [rewrite Vr, Cr, Qr; lia | exact Vt].
Qed.

Lemma run_calibration_eq (M : Machine) (sk0 sk2 : Sketch) :
  quick_test pio_sm_is_tx_fifo_full adc_read settle_spins (m_sketch M) = Some sk0 ->
  verify_calibration pio_sm_is_tx_fifo_full adc_read settle_spins
    (build_correction_lut
       (sk_histogram
          (collect_histogram pio_sm_is_tx_fifo_full adc_read settle_spins
             SAMPLES_PER_LEVEL sk0))
       (m_cal M))
    (collect_histogram pio_sm_is_tx_fifo_full adc_read settle_spins
       SAMPLES_PER_LEVEL sk0)
  = Some sk2 ->
  run_calibration pio_sm_is_tx_fifo_full adc_read settle_spins SAMPLES_PER_LEVEL M
  = Some (mkMachine sk2
            (build_correction_lut
               (sk_histogram
                  (collect_histogram pio_sm_is_tx_fifo_full adc_read settle_spins
                     SAMPLES_PER_LEVEL sk0))
               (m_cal M))
            (save_calibration (m_fs M)
               (sk_histogram
                  (collect_histogram pio_sm_is_tx_fifo_full adc_read settle_spins
                     SAMPLES_PER_LEVEL sk0))
               (build_correction_lut
                  (sk_histogram
                     (collect_histogram pio_sm_is_tx_fifo_full adc_read settle_spins
                        SAMPLES_PER_LEVEL sk0))
                  (m_cal M)))).
Proof.
  intros Hq Hv. unfold run_calibration. rewrite Hq. cbv zeta. rewrite Hv. reflexivity.
Qed.

(** X19.  On a store that mounts (at once or after formatting) and lets
    the file be written, when every code converted during the verification
    is below 4096, [run_calibration] returns; the histogram then counts the
    conversions of the collection, which follow the 5 * 256 of the quick
    test; [cal_data] is the record built from this histogram; the file
    written is accepted by [load_calibration], which returns this record;
    and the DAC is left at level 0. *)
Theorem run_calibration_result (M : Machine) (cal1 : CalibrationData) :
  0 <= SAMPLES_PER_LEVEL ->
  NUM_SWEEPS * 4096 * SAMPLES_PER_LEVEL < 2 ^ 32 ->
  length (correction (m_cal M)) = 4096%nat ->
  fs_mounts (m_fs M) = true \/ fs_mounts_formatted (m_fs M) = true ->
  fs_creatable (m_fs M) cal_path = true ->
  let N := Z.to_nat (NUM_SWEEPS * 4096 * SAMPLES_PER_LEVEL) in
  (forall j, (j < 7 * 256)%nat ->
     wrap_uint16 (adc_read (sk_reads (m_sketch M) + 5 * 256 + N + j)) < 4096) ->
  exists M',
    run_calibration pio_sm_is_tx_fifo_full adc_read settle_spins SAMPLES_PER_LEVEL M = Some M'
    /\ (forall c, 0 <= c < 4096 ->
          aget (sk_histogram (m_sketch M')) c
          = observed adc_read c (sk_reads (m_sketch M) + 5 * 256) N)
    /\ m_cal M' = build_correction_lut (sk_histogram (m_sketch M')) (m_cal M)
    /\ load_calibration (m_fs M') cal1 = (true, m_cal M')
    /\ sk_reads (m_sketch M') = (sk_reads (m_sketch M) + 5 * 256 + N + 7 * 256)%nat
    /\ sd_target (sk_dac (m_sketch M')) = 0.
Proof.
  intros HS HN Hlen Hmount Hcreate N Hcodes.
  destruct (quick_test_defined (m_sketch M)) as [sk0 Hquick].
  destruct (quick_test_frame _ _ Hquick) as (Qr & Qh).
  pose proof (collect_histogram_counted sk0 HS HN) as Hcount. fold N in Hcount.
  pose proof (build_correction_lut_wf
                (sk_histogram
                   (collect_histogram pio_sm_is_tx_fifo_full adc_read settle_spins
                      SAMPLES_PER_LEVEL sk0))
                (m_cal M) Hlen) as Hwf.
  destruct (build_correction_lut_range
              (sk_histogram
                 (collect_histogram pio_sm_is_tx_fifo_full adc_read settle_spins
                    SAMPLES_PER_LEVEL sk0))
              (m_cal M)) as (Hmagic & _).
  destruct (verify_calibration_defined
              (build_correction_lut
                 (sk_histogram
                    (collect_histogram pio_sm_is_tx_fifo_full adc_read settle_spins
                       SAMPLES_PER_LEVEL sk0))
                 (m_cal M))
              (collect_histogram pio_sm_is_tx_fifo_full adc_read settle_spins
                 SAMPLES_PER_LEVEL sk0)) as [sk2 Hverify].
  { intros j Hj. destruct Hcount as (Cr & _). rewrite Cr, Qr. apply Hcodes. exact Hj. }
  destruct (verify_calibration_frame _ _ _ Hverify) as (Vr & Vh & Vt).
  eexists. split; [apply (run_calibration_eq M sk0 sk2 Hquick Hverify)|].
  exact (run_calibration_facts (sk_reads (m_sketch M)) N (m_cal M) _ cal1 (m_fs M)
           sk0 _ sk2 Qr Hcount eq_refl Hlen Hwf Hmagic Hmount Hcreate Vr Vh Vt).
Qed.
End RoutineFacts.

Lemma run_calibration_result_witness :
  let N := Z.to_nat (NUM_SWEEPS * 4096 * 128) in
  exists M',
    run_calibration (fun _ => false) cycling_adc (fun _ _ => 2%nat) 128 fresh_machine = Some M'
    /\ (forall c, 0 <= c < 4096 ->
          aget (sk_histogram (m_sketch M')) c
          = observed cycling_adc c (sk_reads (m_sketch fresh_machine) + 5 * 256) N)
    /\ m_cal M' = build_correction_lut (sk_histogram (m_sketch M')) (m_cal fresh_machine)
    /\ load_calibration (m_fs M') sample_record = (true, m_cal M')
    /\ sk_reads (m_sketch M')
       = (sk_reads (m_sketch fresh_machine) + 5 * 256 + N + 7 * 256)%nat
    /\ sd_target (sk_dac (m_sketch M')) = 0.
Proof.
  apply (run_calibration_result (fun _ => false) cycling_adc (fun _ _ => 2%nat) 128
           fresh_machine sample_record).
  - lia.
  - unfold NUM_SWEEPS. lia.
  - apply length_replicate.
  - right. reflexivity.
  - reflexivity.
  - intros j Hj. unfold cycling_adc, wrap_uint16.
    match goal with
    | |- (10 + Z.of_nat (?n mod 4)) mod _ < _ =>
        pose proof (Nat.mod_upper_bound n 4 ltac:(lia))
    end.
    rewrite Z.mod_small by lia. lia.
Defined.

